(** * PolyScalping analysis pipeline: a shallow embedding of
    [src/polyscalping/server.py] and the properties of its specification.

    Number model.  The Python code computes on binary64 floats.  The
    quantitative models below are embedded over exact rationals ([Q]), so
    that every definition evaluates ([vm_compute]) and every comparison with
    a literal constant ([0.08], [0.35], ...) is the comparison of the
    mathematical values; [round(x, n)] is round-half-to-even at [n] decimal
    places, which is what Python's [round] does on the decimal value.  The
    Black-Scholes model needs [log], [sqrt] and the normal distribution
    function and is embedded over the real numbers ([R]).  Equality of
    rationals is [Qeq] ([==]). *)

From Stdlib Require Import ZArith QArith Qround Qabs Qminmax Reals Psatz Lia.
From Stdlib Require Import List String Ascii Bool Sorted Classical.
From stdpp Require Import base option list gmap strings pretty.
Import ListNotations.

#[local] Open Scope Q_scope.

(** ** Python's numeric primitives on rationals *)

Module Py.

(** [x <= y] and [x < y] as the boolean tests of an [if]. *)
Definition le (x y : Q) : bool := Qle_bool x y.
Definition lt (x y : Q) : bool := negb (Qle_bool y x).

(** Round half to even, to the nearest integer. *)
Definition round_half_even (x : Q) : Z :=
  let f := Qfloor x in
  match Qcompare (x - inject_Z f) (1 # 2) with
  | Lt => f
  | Gt => (f + 1)%Z
  | Eq => if Z.even f then f else (f + 1)%Z
  end.

(** [round(x, ndigits)]. *)
Definition round (x : Q) (ndigits : nat) : Q :=
  inject_Z (round_half_even (x * inject_Z (10 ^ Z.of_nat ndigits)))
  / inject_Z (10 ^ Z.of_nat ndigits).

(** [max(a, b)] and [min(a, b)] of two numbers. *)
Definition max (a b : Q) : Q := if lt a b then b else a.
Definition min (a b : Q) : Q := if lt b a then b else a.

(** [abs(x)]. *)
Definition abs (x : Q) : Q := if lt x 0 then - x else x.

End Py.

Notation "x <=? y" := (Py.le x y) (at level 70, no associativity) : Q_scope.
Notation "x <? y" := (Py.lt x y) (at level 70, no associativity) : Q_scope.

(** ** Quantitative models *)

(** *** [detect_arbitrage] *)

Inductive verdict := ARBITRAGE | FAIR | CHEAP | EXPENSIVE.
Inductive recommendation := PASS | BUY_YES | BUY_NO.
Inductive mispricing := fair | underpriced | overpriced.

Module Arb.
Record t := mk {
  verdict : verdict;
  color : string;
  recommendation : recommendation;
  edge_absolute : Q;
  edge_percent : Q;
  polymarket_yes : Q;
  true_probability : Q;
  mispricing : mispricing;
}.
End Arb.

(** The [edge] of [detect_arbitrage]. *)
Definition arbitrage_edge (poly_price true_prob : Q) : Q :=
  Py.abs (poly_price - true_prob).

Definition detect_arbitrage (poly_price true_prob : Q) : Arb.t :=
  let edge := arbitrage_edge poly_price true_prob in
  let edge_pct := if 0 <? true_prob then edge / true_prob * 100 else 0 in
  let '(verdict, color) :=
    if 0.08 <=? edge then (ARBITRAGE, "purple"%string)
    else if edge <? 0.02 then (FAIR, "yellow"%string)
    else if poly_price <? true_prob then (CHEAP, "green"%string)
    else (EXPENSIVE, "red"%string) in
  let '(rec, direction) :=
    if edge <? 0.01 then (PASS, fair)
    else if poly_price <? true_prob then (BUY_YES, underpriced)
    else (BUY_NO, overpriced) in
  {| Arb.verdict := verdict;
     Arb.color := color;
     Arb.recommendation := rec;
     Arb.edge_absolute := Py.round edge 4;
     Arb.edge_percent := Py.round edge_pct 2;
     Arb.polymarket_yes := poly_price;
     Arb.true_probability := true_prob;
     Arb.mispricing := direction |}.

(** *** [kelly_sizing] *)

Inductive side := YES | NO.
Inductive confidence := conf_none | conf_low | conf_medium | conf_high.

(** The dictionary stored for a side that was sized. *)
Module Sizing.
Record t := mk {
  price : Q;
  decimal_odds : Q;
  true_prob : Q;
  full_kelly_pct : Q;
  aggressive_kelly_pct : Q;
  bet_amount : Q;
  ev_per_dollar : Q;
  roi_if_win : Q;
  position_pct : Q;
  confidence : confidence;
}.
End Sizing.

(** A side's entry of the result: either the rejection dictionary
    [{"kelly_pct": 0, "bet_amount": 0, "ev": 0, "reason": "Invalid",
      "position_pct": 0, "confidence": "none"}] or a sizing. *)
Inductive kelly_entry :=
| Invalid
| Sized (s : Sizing.t).

(** The probability-tier ladder used when Kelly has no signal. *)
Definition ladder (price : Q) : Q * confidence :=
  if 0.80 <=? price then (0.20, conf_high)
  else if 0.65 <=? price then (0.15, conf_high)
  else if 0.50 <=? price then (0.12, conf_medium)
  else if 0.30 <=? price then (0.08, conf_medium)
  else if 0.10 <=? price then (0.05, conf_low)
  else (0.02, conf_low).

(** The two edge boosts applied after the ladder. *)
Definition edge_boost (edge : Q) (pc : Q * confidence) : Q * confidence :=
  let '(position_pct, confidence) := pc in
  let '(position_pct, confidence) :=
    if 0.05 <=? edge
    then (Py.min (position_pct * 1.3) 0.30,
          match confidence with conf_low => conf_medium | c => c end)
    else (position_pct, confidence) in
  if 0.10 <=? edge
  then (Py.min (position_pct * 1.5) 0.35, conf_high)
  else (position_pct, confidence).

(** The fraction of the bankroll and the confidence tier chosen for a side,
    before the bet is clamped. *)
Definition position_fraction (full_kelly price edge : Q) : Q * confidence :=
  if 0.001 <? full_kelly
  then let position_pct := full_kelly * 0.75 in
       (position_pct, if 0.10 <=? position_pct then conf_high else conf_medium)
  else edge_boost edge (ladder price).

(** The price and the probability the loop of [kelly_sizing] uses for a side. *)
Definition side_price (sd : side) (poly_price : Q) : Q :=
  match sd with YES => poly_price | NO => 1.0 - poly_price end.
Definition side_prob (sd : side) (true_prob : Q) : Q :=
  match sd with YES => true_prob | NO => 1.0 - true_prob end.

(** The clamped bet, before the final [round(bet, 2)]. *)
Definition clamped_bet (bankroll position_pct : Q) : Q :=
  let bet := Py.round (bankroll * position_pct) 2 in
  Py.max 5.0 (Py.min bet (bankroll * 0.35)).

(** One iteration of the loop over ["YES"] and ["NO"]. *)
Definition kelly_side (bankroll true_prob poly_price : Q) (sd : side) : kelly_entry :=
  let price := side_price sd poly_price in
  let p := side_prob sd true_prob in
  if (price <=? 0) || (1 <=? price) || (p <=? 0) then Invalid
  else
    let decimal_odds := 1.0 / price in
    let b := decimal_odds - 1.0 in
    let q := 1.0 - p in
    let full_kelly := if 0 <? b then (b * p - q) / b else 0 in
    let full_kelly := Py.max 0 (Py.min full_kelly 0.35) in
    let ev := p * (decimal_odds - 1) - q in
    let roi_if_win := (1.0 / price) - 1.0 in
    let edge := Py.abs (poly_price - true_prob) in
    let '(position_pct, confidence) := position_fraction full_kelly price edge in
    let bet := clamped_bet bankroll position_pct in
    let position_pct := if 0 <? bankroll then bet / bankroll else 0 in
    Sized {| Sizing.price := Py.round price 4;
             Sizing.decimal_odds := Py.round decimal_odds 2;
             Sizing.true_prob := Py.round p 4;
             Sizing.full_kelly_pct := Py.round (full_kelly * 100) 2;
             Sizing.aggressive_kelly_pct := Py.round (position_pct * 100) 2;
             Sizing.bet_amount := Py.round bet 2;
             Sizing.ev_per_dollar := Py.round ev 4;
             Sizing.roi_if_win := Py.round (roi_if_win * 100) 2;
             Sizing.position_pct := Py.round (position_pct * 100) 2;
             Sizing.confidence := confidence |}.

Module Kelly.
Record t := mk { yes : kelly_entry; no : kelly_entry }.
(** [results.get(side, {})]: both keys are always present. *)
Definition get (r : t) (sd : side) : kelly_entry :=
  match sd with YES => yes r | NO => no r end.
End Kelly.

Definition kelly_sizing (bankroll true_prob poly_price : Q) : Kelly.t :=
  {| Kelly.yes := kelly_side bankroll true_prob poly_price YES;
     Kelly.no := kelly_side bankroll true_prob poly_price NO |}.

(** Reading a key of a side's entry, as [k.get(key, default)] and [k[key]]
    do.  The rejection dictionary has the keys [bet_amount], [position_pct]
    and [confidence] but none of [price], [ev_per_dollar], [roi_if_win]. *)
Definition get_bet_amount (k : kelly_entry) (default : Q) : Q :=
  match k with Invalid => 0 | Sized s => Sizing.bet_amount s end.
Definition get_position_pct (k : kelly_entry) (default : Q) : Q :=
  match k with Invalid => 0 | Sized s => Sizing.position_pct s end.
Definition get_confidence (k : kelly_entry) (default : confidence) : confidence :=
  match k with Invalid => conf_none | Sized s => Sizing.confidence s end.
Definition get_price (k : kelly_entry) (default : Q) : Q :=
  match k with Invalid => default | Sized s => Sizing.price s end.
Definition get_ev_per_dollar (k : kelly_entry) (default : Q) : Q :=
  match k with Invalid => default | Sized s => Sizing.ev_per_dollar s end.
Definition get_roi_if_win (k : kelly_entry) (default : Q) : Q :=
  match k with Invalid => default | Sized s => Sizing.roi_if_win s end.

(** *** [polyscalping_roi] *)

Module Roi.
Record t := mk {
  buy_price : Q;
  sell_price : Q;
  num_shares : Q;
  buy_cost : Q;
  sell_revenue : Q;
  net_profit : Q;
  roi_percent : Q;
}.
End Roi.

Definition polyscalping_roi (buy_price sell_price num_shares : Q) : Roi.t :=
  let buy_cost := buy_price * num_shares in
  let sell_revenue := sell_price * num_shares in
  let net_profit := sell_revenue - buy_cost in
  let roi := if 0 <? buy_cost then net_profit / buy_cost * 100 else 0 in
  {| Roi.buy_price := buy_price;
     Roi.sell_price := sell_price;
     Roi.num_shares := num_shares;
     Roi.buy_cost := Py.round buy_cost 2;
     Roi.sell_revenue := Py.round sell_revenue 2;
     Roi.net_profit := Py.round net_profit 2;
     Roi.roi_percent := Py.round roi 2 |}.

(** ** Text helpers: [str.lower], [in], and the two regular expressions *)

Module Text.

Definition is_upper (c : ascii) : bool :=
  let n := nat_of_ascii c in (65 <=? n)%nat && (n <=? 90)%nat.
Definition is_lower (c : ascii) : bool :=
  let n := nat_of_ascii c in (97 <=? n)%nat && (n <=? 122)%nat.
(** The character class [[A-Za-z]]. *)
Definition is_letter (c : ascii) : bool := is_upper c || is_lower c.

Definition lower_char (c : ascii) : ascii :=
  if is_upper c then ascii_of_nat (nat_of_ascii c + 32) else c.

(** [s.lower()] (on ASCII text). *)
Fixpoint lower (s : string) : string :=
  match s with
  | EmptyString => EmptyString
  | String c t => String (lower_char c) (lower t)
  end.

(** [needle in hay] on strings. *)
Fixpoint contains (needle hay : string) : bool :=
  String.prefix needle hay
  || match hay with
     | EmptyString => false
     | String _ t => contains needle t
     end.

(** The longest prefix of the text whose characters satisfy [p], and the rest. *)
Fixpoint span (p : ascii -> bool) (s : string) : string * string :=
  match s with
  | EmptyString => (EmptyString, EmptyString)
  | String c t =>
      if p c then let '(r, rest) := span p t in (String c r, rest)
      else (EmptyString, s)
  end.

(** [re.findall(r'[A-Za-z]{3,}', s)]: the maximal runs of letters that are
    at least three characters long, from left to right.  [cur] is the run
    being read, in reverse. *)
Fixpoint findall_words_from (cur : list ascii) (s : string) : list string :=
  let flush (k : list string) :=
    if (3 <=? List.length cur)%nat
    then string_of_list_ascii (List.rev cur) :: k else k in
  match s with
  | EmptyString => flush []
  | String c t =>
      if is_letter c then findall_words_from (c :: cur) t
      else flush (findall_words_from [] t)
  end.
Definition findall_words (s : string) : list string := findall_words_from [] s.

(** [re.search(r"\(([A-Z]{1,5})\)", s)] and its group 1: at the leftmost
    opening parenthesis that is followed by one to five capitals and a
    closing parenthesis. *)
Fixpoint search_ticker (s : string) : option string :=
  match s with
  | EmptyString => None
  | String c t =>
      let here :=
        if Ascii.eqb c "("%char then
          let '(run, rest) := span is_upper t in
          let n := String.length run in
          match rest with
          | String d _ =>
              if Ascii.eqb d ")"%char && (1 <=? n)%nat && (n <=? 5)%nat
              then Some run else None
          | EmptyString => None
          end
        else None in
      match here with
      | Some r => Some r
      | None => search_ticker t
      end
  end.

End Text.

(** [extract_ticker] *)
Definition extract_ticker (event_title : string) : option string :=
  Text.search_ticker event_title.

Definition sports_keywords : list string :=
  ["vs"; "nba"; "nfl"; "mlb"; "nhl"; "ufc"; "game"; "match";
   "bulls"; "lakers"; "celtics"; "warriors"; "pacers"; "cavaliers";
   "hawks"; "heat"; "knicks"; "nets"; "sixers"; "raptors";
   "super bowl"; "championship"; "playoff"; "finals"]%string.

(** [is_sports_event] *)
Definition is_sports_event (title : string) : bool :=
  let title_lower := Text.lower title in
  existsb (fun kw => Text.contains kw title_lower) sports_keywords.

(** The stop-words of step 5. *)
Definition skip_words : list string :=
  ["will"; "the"; "and"; "for"; "that"; "this"; "are"; "was";
   "above"; "below"; "close"]%string.

Definition in_words (w : string) (ws : list string) : bool :=
  existsb (String.eqb w) ws.

(** The keywords step 5 of [run_full_analysis] passes to
    [fetch_kalshi_markets]:
    [[
      title_words = re.findall(r'[A-Za-z]{3,}', event["event_title"])
      search_kws = [w for w in title_words if w.lower() not in skip_words][:5]
      if ticker: search_kws.insert(0, ticker)
    ]] *)
Definition title_keywords (event_title : string) : list string :=
  let title_words := Text.findall_words event_title in
  firstn 5 (List.filter (fun w => negb (in_words (Text.lower w) skip_words)) title_words).

Definition search_kws (event_title : string) (ticker : option string) : list string :=
  match ticker with
  | Some t => if String.eqb t EmptyString then title_keywords event_title
              else t :: title_keywords event_title
  | None => title_keywords event_title
  end.

(** ** Data model *)

(** A parsed market of [fetch_polymarket_event] (the fields the pipeline
    reads).  [clobTokenIds] is the value of [json.loads(clob_raw)]: [None]
    when the text does not parse, else the list of token identifiers. *)
Module Market.
Record t := mk {
  id : string;
  question : string;
  strike : Q;
  yes_price : Q;
  no_price : Q;
  volume : Q;
  liquidity : Q;
  spread : Q;
  slug : string;
  clobTokenIds : option (list string);
}.
End Market.

Module Event.
Record t := mk {
  event_title : string;
  event_description : string;
  event_end : string;
  markets : list Market.t;
}.
End Event.

(** What a call to an external service does: it returns a value or raises. *)
Inductive outcome (A : Type) :=
| Returned (a : A)
| Raised (msg : string).
Arguments Returned {A} a.
Arguments Raised {A} msg.

Module Stock.
Record t := mk {
  ticker : string;
  spot_price : Q;
  implied_volatility : Q;
}.
End Stock.

(** The dictionary of [fetch_sports_odds]; [{}] when the step is skipped. *)
Module Sports.
Record found := mkFound {
  sport : string;
  matching_games : list string;
  total_games_found : nat;
}.
Inductive t :=
| Empty
| Error (error : string)
| Found (f : found).
End Sports.

Module Kalshi.
Record event := mkEvent {
  event_ticker : string;
  title : string;
  category : string;
}.
Record t := mk {
  matching_markets_found : bool;
  matching_markets : list event;
  conclusion : string;
  error : option string;
}.
End Kalshi.

(** One record of the transfer list.  [value] and [tokenDecimal] are the
    results of [int(...)] on the two fields, which raises on text that is
    no integer. *)
Module Transfer.
Record t := mk {
  value : outcome Z;
  tokenDecimal : outcome Z;
  from : string;
  to : string;
}.
End Transfer.

(** The reply of the transfer-scan service: the list under ["result"]
    ([None] when the key is absent or holds no list) and the ["message"]. *)
Record scan_reply := mkScanReply {
  scan_result : option (list Transfer.t);
  scan_message : option string;
}.

Module Whale.
(** The activity accumulated for a wallet. *)
Record activity := mkActivity {
  total_volume : Q;
  tx_count : nat;
  deposits : Q;
  withdrawals : Q;
  max_tx : Q;
}.
(** A row of ["whale_wallets"]. *)
Record row := mkRow {
  address : string;
  total_volume_usd : Q;
  row_tx_count : nat;
  max_single_tx_usd : Q;
  deposits_usd : Q;
  withdrawals_usd : Q;
  net_direction : string;
  is_whale : bool;
}.
Record totals := mkTotals {
  total_deposits : Q;
  total_withdrawals : Q;
  net_flow : Q;
  summary_whale_count : nat;
  fish_count : nat;
}.
(** The result dictionary; [summary] is [None] for the empty [{}], and
    [error] is the key added on a failure. *)
Record t := mk {
  wallets_analyzed : nat;
  whale_count : nat;
  total_volume_tracked : Q;
  net_flow_direction : string;
  whale_wallets : list row;
  summary : option totals;
  error : option string;
}.
End Whale.

Module Book.
Record depth := mkDepth {
  best_bid : Q;
  best_ask : Q;
  num_bids : nat;
  num_asks : nat;
  total_bid_size : Q;
  total_ask_size : Q;
  bid_depth_usd : Q;
  ask_depth_usd : Q;
}.
(** The entry of a side in a market's book: the key is absent (reply other
    than 200), [{"error": "Failed to fetch"}], or the depth figures. *)
Inductive entry :=
| Absent
| FetchError
| Depth (d : depth).
Record t := mk {
  question : string;
  strike : Q;
  yes : entry;
  no : entry;
}.
End Book.

(** The bid and ask ladders of an order-book reply, as (price, size) pairs. *)
Record ladders := mkLadders {
  bids : list (Q * Q);
  asks : list (Q * Q);
}.

(** ** The environment of a run

    Everything the pipeline reads from outside: the configuration, the
    replies of the external services, the clock, and the rounded output of
    the probability model (computed over the reals, see [BlackScholes]).
    A reply of [None] stands for a status other than 200 or an empty body;
    the event of [gamma_event] has its markets parsed, in the order of the
    reply. *)
Record world := mkWorld {
  gamma_event : string -> outcome (option Event.t);
  yfinance_available : bool;
  yf_ticker : string -> outcome (option Stock.t);
  odds_api_key : bool;
  odds_lookup : string -> outcome (string + Sports.found);
  kalshi_events : outcome (option (list Kalshi.event));
  scan_api_key : bool;
  transfer_scan : outcome scan_reply;
  clob_book : string -> outcome (option ladders);
  anthropic_configured : bool;
  claude_reply : outcome string;
  (** [(end_dt - now).total_seconds()] for an end time, [None] when the
      text is no ISO date. *)
  seconds_until : string -> option Q;
  (** [black_scholes_prob(spot, strike, iv, days, "above")["true_probability"]]. *)
  bs_true_probability : Q -> Q -> Q -> Q -> Q;
  (** An exception raised by the code of step [k] of [run_full_analysis]
      itself, outside the handlers of the collectors. *)
  fault : nat -> option string;
}.

(** ** Data collectors *)

(** [sorted(l, key=...)], as a stable insertion sort: [before x y] says
    that the key of [x] is strictly ahead of the key of [y]. *)
Fixpoint insert_sorted {A} (before : A -> A -> bool) (x : A) (l : list A) : list A :=
  match l with
  | [] => [x]
  | y :: l' => if before x y then x :: l else y :: insert_sorted before x l'
  end.
Definition sorted_by {A} (before : A -> A -> bool) (l : list A) : list A :=
  fold_left (fun acc x => insert_sorted before x acc) l [].

(** [fetch_polymarket_event]: the parsed markets are sorted by strike
    ([parsed_markets.sort(key=lambda x: x["strike"])], a stable sort); any
    failure gives [None]. *)
Definition fetch_polymarket_event (w : world) (slug : string) : option Event.t :=
  match gamma_event w slug with
  | Returned (Some e) =>
      Some {| Event.event_title := Event.event_title e;
              Event.event_description := Event.event_description e;
              Event.event_end := Event.event_end e;
              Event.markets :=
                sorted_by (fun x y => Market.strike x <? Market.strike y)
                          (Event.markets e) |}
  | Returned None => None
  | Raised _ => None
  end.

(** [fetch_stock_data] *)
Definition fetch_stock_data (w : world) (ticker : string) : option Stock.t :=
  if negb (yfinance_available w) then None
  else match yf_ticker w ticker with
       | Returned r => r
       | Raised _ => None
       end.

(** [fetch_sports_odds] *)
Definition fetch_sports_odds (w : world) (event_title : string) : Sports.t :=
  if negb (odds_api_key w) then Sports.Error "No Odds API key configured"
  else match odds_lookup w event_title with
       | Returned (inl msg) => Sports.Error msg
       | Returned (inr f) => Sports.Found f
       | Raised e => Sports.Error e
       end.

(** [fetch_kalshi_markets] *)
Definition kalshi_matches (keywords_lower : list string) (e : Kalshi.event) : bool :=
  let title := Text.lower (Kalshi.title e) in
  let ticker := Text.lower (Kalshi.event_ticker e) in
  match keywords_lower with
  | [] => false
  | _ => existsb (fun kw => Text.contains kw title || Text.contains kw ticker)
                 keywords_lower
  end.

Definition kalshi_conclusion (matching : list Kalshi.event) : string :=
  match matching with
  | [] => "No matching markets found on Kalshi. Polymarket is the only venue."
  | _ => "Found " ++ pretty (List.length matching) ++ " related markets on Kalshi."
  end%string.

Definition fetch_kalshi_markets (w : world) (search_keywords : list string) : Kalshi.t :=
  match kalshi_events w with
  | Raised e =>
      {| Kalshi.matching_markets_found := false; Kalshi.matching_markets := [];
         Kalshi.conclusion := ""; Kalshi.error := Some e |}
  | Returned reply =>
      let events := match reply with Some es => es | None => [] end in
      let keywords_lower := List.map Text.lower search_keywords in
      let matching := List.filter (kalshi_matches keywords_lower) events in
      {| Kalshi.matching_markets_found := negb (Nat.eqb (List.length matching) 0);
         Kalshi.matching_markets := matching;
         Kalshi.conclusion := kalshi_conclusion matching;
         Kalshi.error := None |}
  end.

(** [fetch_whale_activity] *)
Definition EXCHANGE_PROXY : string := "0x4bFb41d5B3570DeFd03C39a9A4D8dE6Bd8B8982E".
Definition CTF_ADDRESS : string := "0x4D97DCd97eC945f40cF65F87097ACe5EA0476045".

(** The initial [result] of [fetch_whale_activity], with an error. *)
Definition whale_failure (e : string) : Whale.t :=
  {| Whale.wallets_analyzed := 0; Whale.whale_count := 0;
     Whale.total_volume_tracked := 0; Whale.net_flow_direction := "";
     Whale.whale_wallets := []; Whale.summary := None; Whale.error := Some e |}.

(** [wallet_activity[wallet]] updated with one transfer. *)
Fixpoint record_transfer (wallet : string) (deposit : bool) (usd_value : Q)
    (wallet_activity : list (string * Whale.activity)) : list (string * Whale.activity) :=
  let add (a : Whale.activity) : Whale.activity :=
    {| Whale.total_volume := Whale.total_volume a + usd_value;
       Whale.tx_count := S (Whale.tx_count a);
       Whale.deposits :=
         if deposit then Whale.deposits a + usd_value else Whale.deposits a;
       Whale.withdrawals :=
         if deposit then Whale.withdrawals a else Whale.withdrawals a + usd_value;
       Whale.max_tx := Py.max (Whale.max_tx a) usd_value |} in
  match wallet_activity with
  | [] => [(wallet, add (Whale.mkActivity 0 0 0 0 0))]
  | (w0, a) :: rest =>
      if String.eqb w0 wallet then (w0, add a) :: rest
      else (w0, a) :: record_transfer wallet deposit usd_value rest
  end.

(** The first loop: the activity of every wallet, or the exception of the
    first transfer whose numbers do not parse. *)
Fixpoint wallet_activity_of (txs : list Transfer.t)
    (wallet_activity : list (string * Whale.activity))
  : string + list (string * Whale.activity) :=
  match txs with
  | [] => inr wallet_activity
  | tx :: rest =>
      match Transfer.value tx, Transfer.tokenDecimal tx with
      | Raised e, _ => inl e
      | Returned _, Raised e => inl e
      | Returned value, Returned decimals =>
          let usd_value := inject_Z value / Qpower 10 decimals in
          let deposit :=
            String.eqb (Text.lower (Transfer.to tx)) (Text.lower EXCHANGE_PROXY) in
          let wallet := if deposit then Transfer.from tx else Transfer.to tx in
          wallet_activity_of rest
            (record_transfer wallet deposit usd_value wallet_activity)
      end
  end.

Definition whale_row (wallet : string) (info : Whale.activity) : Whale.row :=
  {| Whale.address := wallet;
     Whale.total_volume_usd := Py.round (Whale.total_volume info) 2;
     Whale.row_tx_count := Whale.tx_count info;
     Whale.max_single_tx_usd := Py.round (Whale.max_tx info) 2;
     Whale.deposits_usd := Py.round (Whale.deposits info) 2;
     Whale.withdrawals_usd := Py.round (Whale.withdrawals info) 2;
     Whale.net_direction :=
       if Whale.withdrawals info <? Whale.deposits info
       then "NET BUYER" else "NET SELLER";
     Whale.is_whale := 1000 <? Whale.total_volume info |}.

(** The summary of a transfer list that parsed. *)
Definition whale_summary (wallet_activity : list (string * Whale.activity)) : Whale.t :=
  let exclude := [Text.lower EXCHANGE_PROXY; Text.lower CTF_ADDRESS] in
  let sorted_wallets :=
    sorted_by (fun x y => Whale.total_volume (snd y) <? Whale.total_volume (snd x))
      (List.filter (fun wv => negb (in_words (Text.lower (fst wv)) exclude))
                   wallet_activity) in
  let top := firstn 20 sorted_wallets in
  let total_deposits := fold_left (fun t wv => t + Whale.deposits (snd wv)) top 0 in
  let total_withdrawals := fold_left (fun t wv => t + Whale.withdrawals (snd wv)) top 0 in
  let whale_list := List.map (fun wv => whale_row (fst wv) (snd wv)) top in
  let whale_count := List.length (List.filter Whale.is_whale whale_list) in
  {| Whale.wallets_analyzed := List.length sorted_wallets;
     Whale.whale_count := whale_count;
     Whale.total_volume_tracked :=
       Py.round (fold_left (fun t wv => t + Whale.total_volume (snd wv)) sorted_wallets 0) 2;
     Whale.net_flow_direction :=
       if total_withdrawals <? total_deposits
       then "NET INFLOW (Bullish)" else "NET OUTFLOW (Bearish)";
     Whale.whale_wallets := whale_list;
     Whale.summary :=
       Some {| Whale.total_deposits := Py.round total_deposits 2;
               Whale.total_withdrawals := Py.round total_withdrawals 2;
               Whale.net_flow := Py.round (total_deposits - total_withdrawals) 2;
               Whale.summary_whale_count := whale_count;
               Whale.fish_count := List.length whale_list - whale_count |};
     Whale.error := None |}.

Definition fetch_whale_activity (w : world) : Whale.t :=
  if negb (scan_api_key w)
  then whale_failure "No Polygonscan/Etherscan API key configured"
  else match transfer_scan w with
       | Raised e => whale_failure e
       | Returned data =>
           match scan_result data with
           | Some (tx :: txs) =>
               match wallet_activity_of (tx :: txs) [] with
               | inl e => whale_failure e
               | inr wallet_activity => whale_summary wallet_activity
               end
           | _ => whale_failure (default "Unknown error"%string (scan_message data))
           end
       end.

(** [fetch_orderbook_depth] *)
Definition sum_Q (l : list Q) : Q := fold_left Qplus l 0.

Definition book_depth (l : ladders) : Book.depth :=
  {| Book.best_bid := match bids l with (p, _) :: _ => p | [] => 0 end;
     Book.best_ask := match asks l with (p, _) :: _ => p | [] => 0 end;
     Book.num_bids := List.length (bids l);
     Book.num_asks := List.length (asks l);
     Book.total_bid_size := Py.round (sum_Q (List.map snd (bids l))) 2;
     Book.total_ask_size := Py.round (sum_Q (List.map snd (asks l))) 2;
     Book.bid_depth_usd :=
       Py.round (sum_Q (List.map (fun b => fst b * snd b) (bids l))) 2;
     Book.ask_depth_usd :=
       Py.round (sum_Q (List.map (fun a => fst a * snd a) (asks l))) 2 |}.

Definition book_entry (w : world) (token_id : string) : Book.entry :=
  match clob_book w token_id with
  | Returned (Some l) => Book.Depth (book_depth l)
  | Returned None => Book.Absent
  | Raised _ => Book.FetchError
  end.

(** [int(strike)] *)
Definition int_of (x : Q) : Z := Z.quot (Qnum x) (Zpos (Qden x)).

Definition market_key (m : Market.t) : string :=
  if negb (String.eqb (Market.slug m) "") then Market.slug m
  else if negb (String.eqb (Market.id m) "") then Market.id m
  else if 0 <? Market.strike m then ("$" ++ pretty (int_of (Market.strike m)))%string
  else String.substring 0 30 (Market.question m).

Definition fetch_orderbook_depth (w : world) (markets : list Market.t)
  : gmap string Book.t :=
  fold_left
    (fun all_books m =>
       match Market.clobTokenIds m with
       | Some (yes_id :: no_id :: _) =>
           <[ market_key m :=
                {| Book.question := Market.question m;
                   Book.strike := Market.strike m;
                   Book.yes := book_entry w yes_id;
                   Book.no := book_entry w no_id |} ]> all_books
       | _ => all_books
       end)
    markets ∅.

(** [generate_claude_report] *)
Definition generate_claude_report (w : world) : string :=
  if negb (anthropic_configured w)
  then "AI report generation not available (Anthropic API key not configured)"
  else match claude_reply w with
       | Returned text => text
       | Raised e => ("AI report generation failed: " ++ e)%string
       end.

(** ** Step 3: the per-market analysis *)

Module Poly.
Record t := mk {
  yes_price : Q;
  no_price : Q;
  volume : Q;
  liquidity : Q;
  spread : Q;
}.
End Poly.

(** The probability-model entry of an analysis, with the keys every shape
    of it has. *)
Module BsInfo.
Record t := mk {
  spot : Q;
  strike : Q;
  iv : Q;
  days_to_expiry : Q;
  true_probability : Q;
  model : string;
}.
End BsInfo.

Module Analysis.
Record t := mk {
  strike : Q;
  question : string;
  polymarket : Poly.t;
  black_scholes : BsInfo.t;
  arbitrage : Arb.t;
  kelly : Kelly.t;
  roi_yes_wins : option Roi.t;
  roi_no_wins : option Roi.t;
}.
End Analysis.

(** The probability step 3 uses for a market, and the model's tag. *)
Definition market_probability (w : world) (has_strikes : bool)
    (spot iv days_left : Q) (m : Market.t) : BsInfo.t :=
  let strike := Market.strike m in
  let yes_price := Market.yes_price m in
  if has_strikes && (0 <? strike) && (0 <? spot)
  then {| BsInfo.spot := spot; BsInfo.strike := strike; BsInfo.iv := iv;
          BsInfo.days_to_expiry := days_left;
          BsInfo.true_probability := bs_true_probability w spot strike iv days_left;
          BsInfo.model := "Black-Scholes" |}
  else {| BsInfo.spot := spot; BsInfo.strike := strike; BsInfo.iv := iv;
          BsInfo.days_to_expiry := days_left;
          BsInfo.true_probability := if 0 <? yes_price then yes_price else 0.5;
          BsInfo.model := "Market-Implied" |}.

(** The body of the loop of step 3. *)
Definition analyse_market (w : world) (has_strikes : bool)
    (spot iv days_left budget : Q) (m : Market.t) : Analysis.t :=
  let yes_price := Market.yes_price m in
  let bs := market_probability w has_strikes spot iv days_left m in
  let true_prob := BsInfo.true_probability bs in
  {| Analysis.strike := Market.strike m;
     Analysis.question := Market.question m;
     Analysis.polymarket :=
       {| Poly.yes_price := yes_price;
          Poly.no_price := Market.no_price m;
          Poly.volume := Market.volume m;
          Poly.liquidity := Market.liquidity m;
          Poly.spread := Market.spread m |};
     Analysis.black_scholes := bs;
     Analysis.arbitrage := detect_arbitrage yes_price true_prob;
     Analysis.kelly := kelly_sizing budget true_prob yes_price;
     Analysis.roi_yes_wins :=
       if 0 <? yes_price then Some (polyscalping_roi yes_price 1.0 100) else None;
     Analysis.roi_no_wins :=
       if yes_price <? 1.0 then Some (polyscalping_roi (1.0 - yes_price) 1.0 100)
       else None |}.

(** ** Step 8: the Strategy Selector *)

(** The truth value of a number. *)
Definition truthy (x : Q) : bool := negb (Qeq_bool x 0).

(** [total_score] of a (market, side) pair. *)
Definition total_score (budget vol : Q) (k : kelly_entry) : Q :=
  let ev := get_ev_per_dollar k 0 in
  let roi := get_roi_if_win k 0 in
  let price := get_price k 0.5 in
  let bet := get_bet_amount k 0 in
  let prob_score := price * 40 in
  let expected_return := if 0 <? roi then bet * (roi / 100) * price else 0 in
  let return_score := Py.min (expected_return / 10) 20 in
  let ev_score := Py.max (ev * 50) 0 in
  let vol_score := if truthy vol then Py.min (vol / 3000) 8 else 0 in
  let pos_score := if 0 <? budget then Py.min (bet / (budget * 0.05)) 5 else 0 in
  let roi_score :=
    if (5 <=? roi) && (roi <=? 100) then 10
    else if (100 <? roi) && (roi <=? 300) then 5
    else if 300 <? roi then 1
    else 3 in
  prob_score + return_score + ev_score + vol_score + pos_score + roi_score.

(** The variables of the selection loop. *)
Record selection := mkSelection {
  best_market : option Analysis.t;
  best_score : Q;
  best_ev : Q;
  best_side : side;
}.

Definition initial_selection : selection :=
  {| best_market := None; best_score := -999; best_ev := 0; best_side := YES |}.

Definition market_score (budget : Q) (m : Analysis.t) (sd : side) : Q :=
  total_score budget (Poly.volume (Analysis.polymarket m))
              (Kelly.get (Analysis.kelly m) sd).

(** The body of the inner loop: a strictly greater score replaces the best. *)
Definition consider (budget : Q) (m : Analysis.t) (sel : selection) (sd : side)
  : selection :=
  let score := market_score budget m sd in
  if best_score sel <? score
  then {| best_market := Some m; best_score := score;
          best_ev := get_ev_per_dollar (Kelly.get (Analysis.kelly m) sd) 0;
          best_side := sd |}
  else sel.

Definition select_best (budget : Q) (all_analysis : list Analysis.t) : selection :=
  fold_left (fun sel m => fold_left (consider budget m) [YES; NO] sel)
            all_analysis initial_selection.

(** The strategy dictionary (without the short label of multi-choice events). *)
Module Strategy.
Record t := mk {
  best_market : option string;
  best_side : option side;
  best_ev : Q;
  is_multi_choice : bool;
  num_markets : nat;
  recommended_position : Q;
  position_pct : Q;
  confidence : confidence;
  max_loss : Q;
  potential_profit : Q;
  risk_reward : Q;
  entry_price : option Q;
  roi_if_win : option Q;
}.
End Strategy.

(** [position] of the strategy: the bet, or 5% of the budget. *)
Definition strategy_position (budget : Q) (k : kelly_entry) : Q :=
  let position := get_bet_amount k 0 in
  if position <=? 0 then Py.round (budget * 0.05) 2 else position.

Definition build_strategy (budget : Q) (all_analysis : list Analysis.t)
    (sel : selection) : Strategy.t :=
  let is_multi_choice := (1 <? List.length all_analysis)%nat in
  match best_market sel with
  | None =>
      {| Strategy.best_market := None;
         Strategy.best_side := None;
         Strategy.best_ev := best_ev sel;
         Strategy.is_multi_choice := is_multi_choice;
         Strategy.num_markets := List.length all_analysis;
         Strategy.recommended_position := 0;
         Strategy.position_pct := 0;
         Strategy.confidence := conf_none;
         Strategy.max_loss := 0;
         Strategy.potential_profit := 0;
         Strategy.risk_reward := 0;
         Strategy.entry_price := None;
         Strategy.roi_if_win := None |}
  | Some m =>
      let k := Kelly.get (Analysis.kelly m) (best_side sel) in
      let position := strategy_position budget k in
      let price := get_price k 0.5 in
      let potential_profit :=
        if 0 <? price then Py.round (position * ((1 / price) - 1)) 2 else 0 in
      let max_loss := position in
      {| Strategy.best_market := Some (Analysis.question m);
         Strategy.best_side := Some (best_side sel);
         Strategy.best_ev := best_ev sel;
         Strategy.is_multi_choice := is_multi_choice;
         Strategy.num_markets := List.length all_analysis;
         Strategy.recommended_position := position;
         Strategy.position_pct :=
           get_position_pct k
             (if 0 <? budget then Py.round (position / budget * 100) 2 else 0);
         Strategy.confidence := get_confidence k conf_low;
         Strategy.max_loss := max_loss;
         Strategy.potential_profit := potential_profit;
         Strategy.risk_reward :=
           if (0 <? price) && (0 <? max_loss)
           then Py.round (potential_profit / max_loss) 2 else 0;
         Strategy.entry_price := Some (get_price k 0.5);
         Strategy.roi_if_win := Some (get_roi_if_win k 0) |}
  end.

(** ** The Job Store *)

Module Status.
Inductive t := running | completed | error.
Definition terminal (s : t) : bool :=
  match s with running => false | _ => true end.
End Status.

Module Result.
Record t := mk {
  event : Event.t;
  stock_data : option Stock.t;
  days_to_expiry : Q;
  strike_analysis : list Analysis.t;
  sports_odds : Sports.t;
  kalshi_comparison : Kalshi.t;
  whale_tracking : Whale.t;
  orderbook_depth : gmap string Book.t;
  strategy : Strategy.t;
  claude_report : string;
  budget : Q;
  ticker : option string;
  is_sports : bool;
}.
End Result.

Module Job.
Record t := mk {
  status : Status.t;
  step : nat;
  total_steps : nat;
  step_label : string;
  result : option Result.t;
  error : option string;
  traceback : option string;
}.
End Job.

(** The dictionary of fields passed to [_update_job]: a key is present or not. *)
Module Upd.
Record t := mk {
  status : option Status.t;
  step : option nat;
  step_label : option string;
  result : option Result.t;
  error : option string;
  traceback : option string;
}.
Definition empty : t := mk None None None None None None.
End Upd.

(** [job.update(updates)]: the keys present replace the job's, the others stay. *)
Definition job_update (job : Job.t) (updates : Upd.t) : Job.t :=
  {| Job.status := default (Job.status job) (Upd.status updates);
     Job.step := default (Job.step job) (Upd.step updates);
     Job.total_steps := Job.total_steps job;
     Job.step_label := default (Job.step_label job) (Upd.step_label updates);
     Job.result := match Upd.result updates with
                   | Some r => Some r | None => Job.result job end;
     Job.error := match Upd.error updates with
                  | Some e => Some e | None => Job.error job end;
     Job.traceback := match Upd.traceback updates with
                      | Some e => Some e | None => Job.traceback job end |}.

(** The job directory: the file of each job id, and the journal of the
    files written ([os.replace]), oldest first.  A poll reads the file as
    the latest write left it. *)
Record jobs_dir := mkJobs {
  files : gmap string Job.t;
  journal : list (string * Job.t);
}.

(** Computations on the job directory that may raise. *)
Definition M (A : Type) : Type := jobs_dir -> jobs_dir * (string + A).

Definition ret {A} (a : A) : M A := fun d => (d, inr a).
Definition raise {A} (e : string) : M A := fun d => (d, inl e).
Definition bind {A B} (c : M A) (k : A -> M B) : M B :=
  fun d => match c d with
           | (d', inr a) => k a d'
           | (d', inl e) => (d', inl e)
           end.
(** [try: c except Exception as e: h(e)] *)
Definition try_except {A} (c : M A) (h : string -> M A) : M A :=
  fun d => match c d with
           | (d', inr a) => (d', inr a)
           | (d', inl e) => h e d'
           end.

Notation "x <- c ;; k" := (bind c (fun x => k))
  (at level 100, c at next level, right associativity).
Notation "c ;;; k" := (bind c (fun _ => k))
  (at level 100, right associativity).

Definition _save_job (job_id : string) (job_data : Job.t) : M unit :=
  fun d => ({| files := <[ job_id := job_data ]> (files d);
               journal := journal d ++ [(job_id, job_data)] |}, inr tt).

Definition _load_job (job_id : string) : M (option Job.t) :=
  fun d => (d, inr (files d !! job_id)).

Definition _update_job (job_id : string) (updates : Upd.t) : M (option Job.t) :=
  job <- _load_job job_id ;;
  match job with
  | Some j =>
      let j' := job_update j updates in
      _save_job job_id j' ;;; ret (Some j')
  | None => ret None
  end.

Definition PIPELINE_STEPS : list string :=
  ["Fetching Polymarket event data...";
   "Fetching stock/asset data...";
   "Running probability models...";
   "Fetching sports odds (if applicable)...";
   "Searching Kalshi for cross-platform opportunities...";
   "Tracking whale wallets on Polygon...";
   "Fetching CLOB orderbook depth...";
   "Calculating Kelly sizing & strategy...";
   "Generating AI analysis report...";
   "Finalizing results..."]%string.

(** ** The Pipeline Orchestrator *)

(** [{"step": k, "step_label": PIPELINE_STEPS[k - 1]}] *)
Definition step_update (k : nat) : Upd.t :=
  {| Upd.status := None; Upd.step := Some k;
     Upd.step_label := Some (nth (k - 1) PIPELINE_STEPS ""%string);
     Upd.result := None; Upd.error := None; Upd.traceback := None |}.

(** [{"status": "error", "error": "Event not found"}] *)
Definition not_found_update : Upd.t :=
  {| Upd.status := Some Status.error; Upd.step := None; Upd.step_label := None;
     Upd.result := None; Upd.error := Some "Event not found"%string;
     Upd.traceback := None |}.

(** [{"status": "error", "error": str(e), "traceback": ...}] *)
Definition exception_update (e : string) : Upd.t :=
  {| Upd.status := Some Status.error; Upd.step := None; Upd.step_label := None;
     Upd.result := None; Upd.error := Some e;
     Upd.traceback := Some ("Traceback (most recent call last): " ++ e)%string |}.

(** [{"status": "completed", "step": 10, "step_label": "Analysis complete!",
      "result": result}] *)
Definition completed_update (result : Result.t) : Upd.t :=
  {| Upd.status := Some Status.completed; Upd.step := Some 10%nat;
     Upd.step_label := Some "Analysis complete!"%string;
     Upd.result := Some result; Upd.error := None; Upd.traceback := None |}.

(** An exception of step [k]'s own code, if the run has one. *)
Definition checkpoint (w : world) (k : nat) : M unit :=
  match fault w k with
  | Some e => raise e
  | None => ret tt
  end.

(** Days to expiry: [max(seconds / 86400, 0.01)], or 7 when the end time
    does not parse. *)
Definition days_to_expiry (w : world) (event : Event.t) : Q :=
  match seconds_until w (Event.event_end event) with
  | Some s => Py.max (s / 86400) 0.01
  | None => 7
  end.

(** The values computed by the steps of a run whose event was found. *)
Definition has_strikes (event : Event.t) : bool :=
  existsb (fun m => 0 <? Market.strike m) (Event.markets event).

Definition step2_stock (w : world) (event : Event.t) : option Stock.t :=
  match extract_ticker (Event.event_title event) with
  | Some ticker =>
      if negb (String.eqb ticker "") && has_strikes event
      then fetch_stock_data w ticker else None
  | None => None
  end.

Definition step2_spot (w : world) (event : Event.t) : Q :=
  match step2_stock w event with Some s => Stock.spot_price s | None => 0 end.

Definition step2_iv (w : world) (event : Event.t) : Q :=
  match step2_stock w event with Some s => Stock.implied_volatility s | None => 0.30 end.

Definition step3_analysis (w : world) (event : Event.t) (budget : Q)
  : list Analysis.t :=
  List.map (analyse_market w (has_strikes event) (step2_spot w event) (step2_iv w event)
                           (days_to_expiry w event) budget)
           (Event.markets event).

Definition step4_sports (w : world) (event : Event.t) : Sports.t :=
  if is_sports_event (Event.event_title event)
  then fetch_sports_odds w (Event.event_title event) else Sports.Empty.

Definition step5_kalshi (w : world) (event : Event.t) : Kalshi.t :=
  fetch_kalshi_markets w
    (search_kws (Event.event_title event) (extract_ticker (Event.event_title event))).

Definition step8_strategy (w : world) (event : Event.t) (budget : Q) : Strategy.t :=
  let all_analysis := step3_analysis w event budget in
  build_strategy budget all_analysis (select_best budget all_analysis).

Definition final_result (w : world) (event : Event.t) (budget : Q) : Result.t :=
  {| Result.event := event;
     Result.stock_data := step2_stock w event;
     Result.days_to_expiry := days_to_expiry w event;
     Result.strike_analysis := step3_analysis w event budget;
     Result.sports_odds := step4_sports w event;
     Result.kalshi_comparison := step5_kalshi w event;
     Result.whale_tracking := fetch_whale_activity w;
     Result.orderbook_depth := fetch_orderbook_depth w (Event.markets event);
     Result.strategy := step8_strategy w event budget;
     Result.claude_report := generate_claude_report w;
     Result.budget := budget;
     Result.ticker := extract_ticker (Event.event_title event);
     Result.is_sports := is_sports_event (Event.event_title event) |}.

(** The body of the [try] of [run_full_analysis]. *)
Definition run_steps (w : world) (job_id slug : string) (budget : Q) : M unit :=
  (* Step 1: Polymarket event *)
  _update_job job_id (step_update 1) ;;;
  match fetch_polymarket_event w slug with
  | None => _update_job job_id not_found_update ;;; ret tt
  | Some event =>
      checkpoint w 1 ;;;
      (* Step 2: Stock/Asset data *)
      _update_job job_id (step_update 2) ;;;
      checkpoint w 2 ;;;
      (* Step 3: Probability models *)
      _update_job job_id (step_update 3) ;;;
      checkpoint w 3 ;;;
      (* Step 4: Sports odds *)
      _update_job job_id (step_update 4) ;;;
      checkpoint w 4 ;;;
      (* Step 5: Kalshi comparison *)
      _update_job job_id (step_update 5) ;;;
      checkpoint w 5 ;;;
      (* Step 6: Whale tracking *)
      _update_job job_id (step_update 6) ;;;
      checkpoint w 6 ;;;
      (* Step 7: Orderbook depth *)
      _update_job job_id (step_update 7) ;;;
      checkpoint w 7 ;;;
      (* Step 8: Strategy calculations *)
      _update_job job_id (step_update 8) ;;;
      checkpoint w 8 ;;;
      (* Step 9: AI Report *)
      _update_job job_id (step_update 9) ;;;
      checkpoint w 9 ;;;
      (* Step 10: Finalize *)
      _update_job job_id (step_update 10) ;;;
      checkpoint w 10 ;;;
      _update_job job_id (completed_update (final_result w event budget)) ;;;
      ret tt
  end.

Definition run_full_analysis (w : world) (job_id slug : string) (budget : Q)
  : M unit :=
  try_except (run_steps w job_id slug budget)
             (fun e => _update_job job_id (exception_update e) ;;; ret tt).

(** The job record [api_analyze] creates before it starts the run. *)
Definition initial_job : Job.t :=
  {| Job.status := Status.running; Job.step := 0;
     Job.total_steps := List.length PIPELINE_STEPS;
     Job.step_label := "Starting..."; Job.result := None;
     Job.error := None; Job.traceback := None |}.

(** The second half of [api_analyze], with the identifier drawn for the
    job: the job is created, then the run is handed to its thread (whose
    writes follow the creation). *)
Definition start_analysis (w : world) (job_id slug : string) (budget : Q) : M unit :=
  _save_job job_id initial_job ;;;
  run_full_analysis w job_id slug budget.

(** [api_analyze], on the slug extracted from the request: no job is
    created for an empty slug (the reply is the 400 error), else the reply
    carries the job id. *)
Definition api_analyze (w : world) (job_id slug : string) (budget : Q)
  : M (option string) :=
  if String.eqb slug "" then ret None
  else start_analysis w job_id slug budget ;;; ret (Some job_id).

(** [api_analyze_result]: the result only when the job is completed. *)
Definition api_analyze_result (d : jobs_dir) (job_id : string)
  : option (string + option Result.t) :=
  match files d !! job_id with
  | None => None
  | Some job =>
      match Job.status job with
      | Status.completed => Some (inr (Job.result job))
      | _ => Some (inl "Job not ready"%string)
      end
  end.

(** The successive contents of the file of [job_id]. *)
Definition job_history (d : jobs_dir) (job_id : string) : list Job.t :=
  List.map snd (List.filter (fun e => String.eqb (fst e) job_id) (journal d)).

Definition empty_dir : jobs_dir := {| files := ∅; journal := [] |}.

(** *** The slug of a request

    [api_analyze] accepts a slug or the URL of an event:
    [[
      if "polymarket.com" in slug:
          parts = slug.split("/")
          for i, p in enumerate(parts):
              if p == "event" and i + 1 < len(parts):
                  slug = parts[i + 1].split("?")[0]
                  break
    ]] *)

(** [s.split(sep)] for a separator of one character. *)
Fixpoint split_on (sep : ascii) (s : string) : list string :=
  match s with
  | EmptyString => [EmptyString]
  | String c t =>
      if Ascii.eqb c sep then EmptyString :: split_on sep t
      else match split_on sep t with
           | x :: xs => String c x :: xs
           | [] => [String c EmptyString]
           end
  end.

(** The loop over the parts: the part after the first ["event"] that has
    a successor, up to its first ["?"]; [None] when the loop ends without
    a [break]. *)
Fixpoint slug_of_parts (parts : list string) : option string :=
  match parts with
  | [] => None
  | p :: rest =>
      match rest with
      | next :: _ =>
          if String.eqb p "event" then Some (hd EmptyString (split_on "?" next))
          else slug_of_parts rest
      | [] => None
      end
  end.

Definition request_slug (slug : string) : string :=
  if Text.contains "polymarket.com" slug
  then match slug_of_parts (split_on "/" slug) with
       | Some s => s
       | None => slug
       end
  else slug.

(** [api_analyze] on the body of a request: [slug] and [budget] are the
    keys of the JSON body, [None] when absent
    ([data.get("slug", "")], [data.get("budget", 1000)]). *)
Definition api_analyze_request (w : world) (job_id : string)
    (slug : option string) (budget : option Q) : M (option string) :=
  api_analyze w job_id (request_slug (default EmptyString slug)) (default 1000 budget).

(** The reply of [api_analyze_status]. *)
Module Poll.
Record t := mk {
  status : Status.t;
  step : nat;
  total_steps : nat;
  step_label : string;
  error : option string;
}.
End Poll.

(** [api_analyze_status]: [None] is the 404 reply. *)
Definition api_analyze_status (d : jobs_dir) (job_id : string) : option Poll.t :=
  match files d !! job_id with
  | None => None
  | Some job =>
      Some {| Poll.status := Job.status job;
              Poll.step := Job.step job;
              Poll.total_steps := Job.total_steps job;
              Poll.step_label := Job.step_label job;
              Poll.error := Job.error job |}
  end.

(** ** The Trending Score Engine *)

(** A raw market listing.  [outcomePrices] is [json.loads(prices_raw)]:
    [None] when the text does not parse (the [except] branch). *)
Module Listing.
Record t := mk {
  outcomePrices : option (list Q);
  volume : Q;
  volume24hr : Q;
  liquidity : Q;
  spread : Q;
  oneDayPriceChange : Q;
}.
End Listing.

Inductive trend := HOT | WARM | OBVIOUS | COOL.

(** [float(prices[0]) if prices else 0.5] *)
Definition listing_yes_price (prices : list Q) : Q :=
  match prices with p :: _ => p | [] => 0.5 end.

Definition cheap_side (yes_price : Q) : Q := Py.min yes_price (1 - yes_price).

Definition uncertainty_score (cheap_side : Q) : Q :=
  if cheap_side <=? 0.10 then cheap_side * 100
  else if cheap_side <=? 0.25 then 15 + (cheap_side - 0.10) * 100
  else if cheap_side <=? 0.40 then 25 + (0.40 - cheap_side) * 33
  else 20.

Definition potential_roi (cheap_side : Q) : Q :=
  (1 / Py.max cheap_side 0.05 - 1) * 100.

Definition roi_score (cheap_side : Q) : Q :=
  Py.min (potential_roi cheap_side / 300) 1 * 35.

Definition volatility_score (price_change : Q) : Q := Py.min (price_change * 100) 15.

Definition liq_score (liquidity : Q) : Q :=
  if liquidity <? 1000 then liquidity / 1000 * 5
  else if liquidity <? 10000 then 5 + (liquidity - 1000) / 9000 * 5
  else 10.

Definition activity_score (volume_24h volume : Q) : Q :=
  let activity_ratio := volume_24h / Py.max volume 1 in
  Py.min (activity_ratio * 100) 10.

Definition spread_penalty (spread : Q) : Q := Py.min (spread * 100) 10.

Definition sure_thing_penalty (cheap_side : Q) : Q :=
  if cheap_side <? 0.08 then 20
  else if cheap_side <? 0.12 then 10
  else 0.

(** [total_score] of [compute_polysnap_score], before the floor and the rounding. *)
Definition polysnap_total (market : Listing.t) (prices : list Q) : Q :=
  let yes_price := listing_yes_price prices in
  let price_change := Py.abs (Listing.oneDayPriceChange market) in
  let cheap_side := cheap_side yes_price in
  uncertainty_score cheap_side
  + roi_score cheap_side
  + volatility_score price_change
  + liq_score (Listing.liquidity market)
  + activity_score (Listing.volume24hr market) (Listing.volume market)
  - spread_penalty (Listing.spread market)
  - sure_thing_penalty cheap_side.

Definition compute_polysnap_score (market : Listing.t) : Q :=
  match Listing.outcomePrices market with
  | None => 0
  | Some prices => Py.round (Py.max (polysnap_total market prices) 0) 1
  end.

(** The verdict [get_trending_markets] gives a listing; [None] when the
    listing is skipped (the [except: continue]). *)
Definition trending_verdict (market : Listing.t) : option trend :=
  match Listing.outcomePrices market with
  | None => None
  | Some prices =>
      let yes_price := listing_yes_price prices in
      let volume_24h := Listing.volume24hr market in
      let price_change := Py.abs (Listing.oneDayPriceChange market) in
      let cheap_side := cheap_side yes_price in
      let potential_roi := potential_roi cheap_side in
      let is_uncertain := (0.12 <=? cheap_side) && (cheap_side <=? 0.42) in
      let is_high_roi := 150 <=? potential_roi in
      let is_volatile := 0.02 <=? price_change in
      let is_not_dead := 100 <=? volume_24h in
      Some (if is_uncertain && is_high_roi && is_not_dead then HOT
            else if is_uncertain && (is_high_roi || is_volatile) then WARM
            else if cheap_side <? 0.10 then OBVIOUS
            else COOL)
  end.

(** ** The cache

    [_cache] and [_cache_ttl]: the value stored under a key and the time
    ([datetime.now()], in seconds) at which it was stored. *)
Module Cache.
Record t (V : Type) := mk {
  _cache : gmap string V;
  _cache_ttl : gmap string Q;
}.
Arguments mk {V} _ _.
Arguments _cache {V} _.
Arguments _cache_ttl {V} _.
Definition empty {V} : t V := mk ∅ ∅.
End Cache.

(** [delta.seconds] of a time difference of [delta] seconds: the seconds
    field of the normalised [timedelta], between 0 and 86399 (the days are
    a field of their own). *)
Definition timedelta_seconds (delta : Q) : Z := (Qfloor delta mod 86400)%Z.

(** [get_cached(key, ttl)] at the time [now]. *)
Definition get_cached {V} (c : Cache.t V) (key : string) (ttl : Z) (now : Q) : option V :=
  match Cache._cache c !! key, Cache._cache_ttl c !! key with
  | Some value, Some stored =>
      if (timedelta_seconds (now - stored) <? ttl)%Z then Some value else None
  | _, _ => None
  end.

(** [set_cached(key, value)] at the time [now]. *)
Definition set_cached {V} (c : Cache.t V) (key : string) (value : V) (now : Q) : Cache.t V :=
  {| Cache._cache := <[ key := value ]> (Cache._cache c);
     Cache._cache_ttl := <[ key := now ]> (Cache._cache_ttl c) |}.

(** ** Trending markets *)

(** A market of a trending event: the listing with its labels. *)
Module TrendingMarket.
Record t := mk {
  id : string;
  question : string;
  endDate : string;
  listing : Listing.t;
}.
End TrendingMarket.

Module TrendingEvent.
Record t := mk {
  slug : string;
  title : string;
  image : string;
  markets : list TrendingMarket.t;
}.
End TrendingEvent.

(** [fetch_trending_events]: [reply] is what the request does ([None] for
    a status other than 200), [now] the time of the cache lookup and
    [later] the time at which the reply is stored. *)
Definition fetch_trending_events (reply : outcome (option (list TrendingEvent.t)))
    (now later : Q) (c : Cache.t (list TrendingEvent.t))
  : Cache.t (list TrendingEvent.t) * list TrendingEvent.t :=
  match get_cached c "trending_events" 60 now with
  | Some (e :: es) => (c, e :: es)
  | _ =>
      match reply with
      | Returned (Some events) => (set_cached c "trending_events" events later, events)
      | Returned None => (c, [])
      | Raised _ => (c, [])
      end
  end.

(** A row of the result of [get_trending_markets]. *)
Module TrendingRow.
Record t := mk {
  id : string;
  question : string;
  yes_price : Q;
  no_price : Q;
  volume : Q;
  volume_24h : Q;
  liquidity : Q;
  spread : Q;
  change_24h : Q;
  potential_roi : Q;
  polysnap_score : Q;
  verdict : trend;
  event_slug : string;
  event_title : string;
  event_image : string;
  end_date : string;
}.
End TrendingRow.

(** The body of the loop over the markets of an event; [None] when the
    market is skipped. *)
Definition trending_row (event : TrendingEvent.t) (market : TrendingMarket.t)
  : option TrendingRow.t :=
  let l := TrendingMarket.listing market in
  match Listing.outcomePrices l, trending_verdict l with
  | Some prices, Some verdict =>
      let yes_price := listing_yes_price prices in
      let no_price := match prices with _ :: p :: _ => p | _ => 1 - yes_price end in
      Some {| TrendingRow.id := TrendingMarket.id market;
              TrendingRow.question := TrendingMarket.question market;
              TrendingRow.yes_price := yes_price;
              TrendingRow.no_price := no_price;
              TrendingRow.volume := Listing.volume l;
              TrendingRow.volume_24h := Listing.volume24hr l;
              TrendingRow.liquidity := Listing.liquidity l;
              TrendingRow.spread := Listing.spread l;
              TrendingRow.change_24h := Py.abs (Listing.oneDayPriceChange l);
              TrendingRow.potential_roi := Py.round (potential_roi (cheap_side yes_price)) 1;
              TrendingRow.polysnap_score := compute_polysnap_score l;
              TrendingRow.verdict := verdict;
              TrendingRow.event_slug := TrendingEvent.slug event;
              TrendingRow.event_title := TrendingEvent.title event;
              TrendingRow.event_image := TrendingEvent.image event;
              TrendingRow.end_date := TrendingMarket.endDate market |}
  | _, _ => None
  end.

(** The [params] of [get_trending_markets]: a key is present or not. *)
Module Params.
Record t := mk {
  limit : option Z;
  min_volume : option Q;
  min_score : option Q;
  sort_by : option string;
}.
End Params.

(** [l[:n]] for an integer [n]: a negative [n] counts from the end. *)
Definition slice_to {A} (n : Z) (l : list A) : list A :=
  if (n <? 0)%Z then firstn (Z.to_nat (Z.of_nat (List.length l) + n)) l
  else firstn (Z.to_nat n) l.

(** [l.sort(key=key, reverse=True)] *)
Definition sort_descending {A} (key : A -> Q) (l : list A) : list A :=
  sorted_by (fun x y => key y <? key x) l.

(** [get_trending_markets] from the events fetched. *)
Definition trending_selection (events : list TrendingEvent.t) (params : Params.t)
  : list TrendingRow.t :=
  let markets :=
    flat_map (fun event =>
                flat_map (fun market => match trending_row event market with
                                        | Some row => [row]
                                        | None => []
                                        end)
                         (TrendingEvent.markets event))
             events in
  let min_vol := default 0 (Params.min_volume params) in
  let min_score := default 0 (Params.min_score params) in
  let markets :=
    if 0 <? min_vol then List.filter (fun m => min_vol <=? TrendingRow.volume m) markets
    else markets in
  let markets :=
    if 0 <? min_score then List.filter (fun m => min_score <=? TrendingRow.polysnap_score m) markets
    else markets in
  let sort_by := default "score"%string (Params.sort_by params) in
  let markets :=
    if String.eqb sort_by "score" then sort_descending TrendingRow.polysnap_score markets
    else if String.eqb sort_by "volume" then sort_descending TrendingRow.volume markets
    else if String.eqb sort_by "liquidity" then sort_descending TrendingRow.liquidity markets
    else markets in
  slice_to (default 50%Z (Params.limit params)) markets.

Definition get_trending_markets (reply : outcome (option (list TrendingEvent.t)))
    (now later : Q) (c : Cache.t (list TrendingEvent.t)) (params : Params.t)
  : Cache.t (list TrendingEvent.t) * list TrendingRow.t :=
  let '(c', events) := fetch_trending_events reply now later c in
  (c', trending_selection events params).

(** ** The quick analysis of the markets page ([fetch_event_analysis]) *)

Module Quick.
Record market := mkMarket {
  id : string;
  question : string;
  yes_price : Q;
  no_price : Q;
  volume : Q;
  liquidity : Q;
  true_prob : Q;
  kelly_yes : Q;
  kelly_no : Q;
  ev_yes : Q;
  ev_no : Q;
  recommended_side : side;
}.
(** The result, without the volume, liquidity and image copied from the
    event. *)
Record t := mk {
  title : string;
  markets : list market;
  total_markets : nat;
  best_ev : Q;
}.
End Quick.

(** The body of the loop of [fetch_event_analysis]. *)
Definition quick_market (m : Market.t) : Quick.market :=
  let yes_price := Market.yes_price m in
  let true_prob := yes_price in
  let kelly_yes :=
    if yes_price <? 1
    then Py.max 0 ((true_prob - yes_price) / (1 - yes_price)) * 100 else 0 in
  let kelly_no :=
    if 0 <? yes_price
    then Py.max 0 (((1 - true_prob) - (1 - yes_price)) / yes_price) * 100 else 0 in
  let ev_yes :=
    if 0 <? yes_price
    then (true_prob * (1 / yes_price - 1) - (1 - true_prob)) * 100 else 0 in
  let ev_no :=
    if yes_price <? 1
    then ((1 - true_prob) * (1 / (1 - yes_price) - 1) - true_prob) * 100 else 0 in
  {| Quick.id := Market.id m;
     Quick.question := Market.question m;
     Quick.yes_price := yes_price;
     Quick.no_price := Market.no_price m;
     Quick.volume := Market.volume m;
     Quick.liquidity := Market.liquidity m;
     Quick.true_prob := true_prob * 100;
     Quick.kelly_yes := kelly_yes;
     Quick.kelly_no := kelly_no;
     Quick.ev_yes := ev_yes;
     Quick.ev_no := ev_no;
     Quick.recommended_side := if ev_no <? ev_yes then YES else NO |}.

(** [max(l)] of a list of numbers, [default] when it is empty. *)
Definition max_of (l : list Q) (default : Q) : Q :=
  match l with
  | [] => default
  | x :: xs => fold_left Py.max xs x
  end.

Definition fetch_event_analysis (w : world) (slug : string) : option Quick.t :=
  match fetch_polymarket_event w slug with
  | None => None
  | Some event =>
      let markets := List.map quick_market (Event.markets event) in
      Some {| Quick.title := Event.event_title event;
              Quick.markets := markets;
              Quick.total_markets := List.length markets;
              Quick.best_ev :=
                max_of (List.map (fun m => Py.max (Quick.ev_yes m) (Quick.ev_no m)) markets)
                       0 |}
  end.

(** ** The Probability Model ([black_scholes_prob]), over the reals

    [np.log] and [np.sqrt] are [ln] and [sqrt]; [norm.cdf] is the
    distribution function of the standard normal law, built here as the
    area under the kernel [exp(-t^2/2)], normalised by half of its total
    mass (the least upper bound of the areas on the right of 0). *)

Module BlackScholes.
#[local] Open Scope R_scope.

Definition gauss (t : R) : R := exp (- (t * t) / 2).

Lemma gauss_derivable : derivable gauss.
Proof. unfold gauss. reg. Qed.

Lemma gauss_continuity : continuity gauss.
Proof. apply derivable_continuous. apply gauss_derivable. Qed.

Lemma gauss_pos t : 0 < gauss t.
Proof. apply exp_pos. Qed.

Lemma gauss_integrable (a b : R) : Riemann_integrable gauss a b.
Proof.
  destruct (Rle_dec a b) as [H|H].
  - apply continuity_implies_RiemannInt; [exact H|].
    intros x _. apply gauss_continuity.
  - apply RiemannInt_P1. apply continuity_implies_RiemannInt; [lra|].
    intros x _. apply gauss_continuity.
Qed.

(** The area under the kernel between 0 and [x]. *)
Definition gauss_area (x : R) : R := RiemannInt (gauss_integrable 0 x).

Lemma gauss_area_0 : gauss_area 0 = 0.
Proof. apply RiemannInt_P9. Qed.

(** A function above the kernel whose area is known: [exp(1/2 - t)],
    the derivative of [- exp(1/2 - t)]. *)
Definition tail (t : R) : R := exp (1 / 2 - t).
Definition Tail (t : R) : R := - exp (1 / 2 - t).

Lemma Tail_lim x : derivable_pt_lim Tail x (tail x).
Proof.
  unfold Tail, tail.
  change (fun t => - exp (1 / 2 - t)) with (- (comp exp (fct_cte (1 / 2) - Ranalysis1.id)))%F.
  replace (exp (1 / 2 - x)) with (- (exp ((fct_cte (1/2) - Ranalysis1.id)%F x) * (0 - 1))).
  2:{ unfold minus_fct, fct_cte, Ranalysis1.id. ring. }
  apply derivable_pt_lim_opp.
  apply derivable_pt_lim_comp.
  - apply derivable_pt_lim_minus; [apply derivable_pt_lim_const|apply derivable_pt_lim_id].
  - apply derivable_pt_lim_exp.
Qed.

Lemma Tail_derivable : derivable Tail.
Proof. intros x. exists (tail x). apply Tail_lim. Qed.

Lemma Tail_derive x : derive Tail Tail_derivable x = tail x.
Proof. unfold derive. apply derive_pt_eq_0. apply Tail_lim. Qed.

Lemma tail_continuity : continuity tail.
Proof. unfold tail. reg. Qed.

Lemma Tail_C1_cont : continuity (derive Tail Tail_derivable).
Proof.
  intros x. pose proof (tail_continuity x) as H.
  unfold continuity_pt, continue_in, limit1_in, limit_in in *.
  intros eps Heps. destruct (H eps Heps) as [a [Ha Hd]].
  exists a. split; [exact Ha|]. intros y Hy.
  rewrite !Tail_derive. now apply Hd.
Qed.

Definition Tail_C1 : C1_fun := mkC1 Tail_C1_cont.

Lemma gauss_le_tail t : gauss t <= tail t.
Proof.
  unfold gauss, tail.
  assert (Hsq : 0 <= (t - 1) * (t - 1)) by apply Rle_0_sqr.
  assert (Hle : - (t * t) / 2 <= 1 / 2 - t) by lra.
  destruct Hle as [Hlt|Heq]; [left; now apply exp_increasing|rewrite Heq; lra].
Qed.

Lemma gauss_area_bound x : 0 <= x -> gauss_area x <= 2.
Proof.
  intros Hx. unfold gauss_area.
  pose proof (RiemannInt_P32 Tail_C1 0 x) as pr.
  apply Rle_trans with (RiemannInt pr).
  - apply RiemannInt_P19; [exact Hx|].
    intros t _. cbn [c1 diff0 Tail_C1]. rewrite Tail_derive. apply gauss_le_tail.
  - rewrite (RiemannInt_P33 Tail_C1 pr Hx). cbn [c1 Tail_C1]. unfold Tail.
    replace (1 / 2 - 0) with (/ 2) by lra.
    assert (H1 : 0 < exp (1 / 2 - x)) by apply exp_pos.
    assert (H2 : exp (/ 2) <= 2).
    { assert (H3 : exp (/2) * exp (/2) <= 3).
      { rewrite <- exp_plus. replace (/2 + /2) with 1 by lra. apply exp_le_3. }
      assert (H4 : 0 < exp (/2)) by apply exp_pos. nra. }
    lra.
Qed.

(** The values of the area on the right of 0, and their least upper bound:
    half of the mass of the kernel. *)
Definition area_value (v : R) : Prop := exists x, 0 <= x /\ v = gauss_area x.

Lemma area_value_bound : bound area_value.
Proof. exists 2. intros v (x & Hx & ->). now apply gauss_area_bound. Qed.

Lemma area_value_inhabited : exists v, area_value v.
Proof. exists (gauss_area 0), 0. split; [lra|reflexivity]. Qed.

Definition half_mass : R :=
  proj1_sig (completeness area_value area_value_bound area_value_inhabited).

(** The distribution function of the standard normal law: the normalised
    area under the kernel [exp(-t^2/2)] on the left of [x]. *)
Definition norm_cdf (x : R) : R :=
  if Rle_dec 0 x
  then 1 / 2 + gauss_area x / (2 * half_mass)
  else 1 / 2 - gauss_area (- x) / (2 * half_mass).

(** Round half to even on the reals. *)
Definition round_half_even (x : R) : Z :=
  let f := Zfloor x in
  match total_order_T (x - IZR f) (1 / 2) with
  | inleft (left _) => f
  | inleft (right _) => if Z.even f then f else (f + 1)%Z
  | inright _ => (f + 1)%Z
  end.

(** [round(x, ndigits)] *)
Definition round (x : R) (ndigits : nat) : R :=
  IZR (round_half_even (x * 10 ^ ndigits)) / 10 ^ ndigits.

(** The keys the dictionary has only on valid inputs. *)
Record details := mkDetails {
  T_years : R;
  d1 : R;
  d2 : R;
  prob_above : R;
  prob_below : R;
  delta : R;
}.

Record t := mk {
  spot : R;
  strike : R;
  iv : R;
  days_to_expiry : R;
  computed : option details;
  true_probability : R;
  model : string;
}.

(** [T = max(days_to_expiry / 365.0, 0.001)] *)
Definition time_to_expiry (days_to_expiry : R) : R :=
  Rmax (days_to_expiry / 365) 0.001.

(** The divisor of [d1]: [iv * np.sqrt(T)]. *)
Definition volatility_term (iv days_to_expiry : R) : R :=
  iv * sqrt (time_to_expiry days_to_expiry).

Definition d1_of (spot strike iv days_to_expiry risk_free : R) : R :=
  let T := time_to_expiry days_to_expiry in
  (ln (spot / strike) + (risk_free + 0.5 * iv ^ 2) * T)
  / volatility_term iv days_to_expiry.

Definition d2_of (spot strike iv days_to_expiry risk_free : R) : R :=
  d1_of spot strike iv days_to_expiry risk_free - volatility_term iv days_to_expiry.

Definition black_scholes_prob (spot strike iv days_to_expiry : R)
    (direction : string) (risk_free : R) : t :=
  if Rle_dec spot 0 then
    mk spot strike iv days_to_expiry None 0.5 "Invalid inputs"
  else if Rle_dec strike 0 then
    mk spot strike iv days_to_expiry None 0.5 "Invalid inputs"
  else if Rle_dec iv 0 then
    mk spot strike iv days_to_expiry None 0.5 "Invalid inputs"
  else
    let T := time_to_expiry days_to_expiry in
    let d1 := d1_of spot strike iv days_to_expiry risk_free in
    let d2 := d2_of spot strike iv days_to_expiry risk_free in
    let prob_above := norm_cdf d2 in
    let prob_below := 1.0 - prob_above in
    let delta := norm_cdf d1 in
    mk spot strike iv days_to_expiry
       (Some (mkDetails T (round d1 4) (round d2 4) (round prob_above 6)
                        (round prob_below 6) (round delta 4)))
       (round (if String.eqb direction "above" then prob_above else prob_below) 6)
       "Black-Scholes".

(** The default of the parameter [risk_free]. *)
Definition risk_free_default : R := 0.045.

End BlackScholes.

(** ** Inputs used in the examples *)

(** An environment in which no external service answers. *)
Definition offline_world : world :=
  {| gamma_event := fun _ => Raised "offline";
     yfinance_available := false;
     yf_ticker := fun _ => Raised "offline";
     odds_api_key := false;
     odds_lookup := fun _ => Raised "offline";
     kalshi_events := Raised "offline";
     scan_api_key := false;
     transfer_scan := Raised "offline";
     clob_book := fun _ => Raised "offline";
     anthropic_configured := false;
     claude_reply := Raised "offline";
     seconds_until := fun _ => None;
     bs_true_probability := fun _ _ _ _ => 0.5;
     fault := fun _ => None |}.



Definition apple_title : string :=
  "Will Apple (AAPL) stock price finish above $200 on Friday?".

(** A listing priced 0.5 with no volume, liquidity, spread or price change. *)
Definition flat_listing (rest : list Q) : Listing.t :=
  {| Listing.outcomePrices := Some (0.5 :: rest);
     Listing.volume := 0; Listing.volume24hr := 0; Listing.liquidity := 0;
     Listing.spread := 0; Listing.oneDayPriceChange := 0 |}.

(** A transfer of [value] base units of a token with six decimals. *)
Definition transfer (value : Z) (from to : string) : Transfer.t :=
  {| Transfer.value := Returned value;
     Transfer.tokenDecimal := Returned 6%Z;
     Transfer.from := from;
     Transfer.to := to |}.

(** Two deposits of one wallet and a withdrawal to another. *)
Definition example_transfers : list Transfer.t :=
  [ transfer 1500000000 "0xaaa" EXCHANGE_PROXY;
    transfer 250000000 "0xaaa" EXCHANGE_PROXY;
    transfer 40000000 EXCHANGE_PROXY "0xbbb" ].

(** A transfer whose value is no integer. *)
Definition malformed_transfer : Transfer.t :=
  {| Transfer.value := Raised "invalid literal for int() with base 10";
     Transfer.tokenDecimal := Returned 6%Z;
     Transfer.from := "0xccc";
     Transfer.to := EXCHANGE_PROXY |}.

(** The offline environment with a scanner key and a reply of the scan. *)
Definition scan_world (reply : outcome scan_reply) : world :=
  {| gamma_event := fun _ => Raised "offline";
     yfinance_available := false;
     yf_ticker := fun _ => Raised "offline";
     odds_api_key := false;
     odds_lookup := fun _ => Raised "offline";
     kalshi_events := Raised "offline";
     scan_api_key := true;
     transfer_scan := reply;
     clob_book := fun _ => Raised "offline";
     anthropic_configured := false;
     claude_reply := Raised "offline";
     seconds_until := fun _ => None;
     bs_true_probability := fun _ _ _ _ => 0.5;
     fault := fun _ => None |}.

(** A listing on which every term of the score is at its maximum. *)
Definition top_listing : Listing.t :=
  {| Listing.outcomePrices := Some [0.25; 0.75];
     Listing.volume := 1000; Listing.volume24hr := 100; Listing.liquidity := 10000;
     Listing.spread := 0; Listing.oneDayPriceChange := 0.15 |}.

(** * Properties *)

(** ** Facts about the numeric primitives *)

Module PyFacts.

Lemma le_spec (x y : Q) : (x <=? y) = true <-> x <= y.
Proof. unfold Py.le. apply Qle_bool_iff. Qed.

Lemma le_false (x y : Q) : (x <=? y) = false <-> y < x.
Proof.
  unfold Py.le. split; intros H.
  - apply Qnot_le_lt. intros Hle. apply Qle_bool_iff in Hle. congruence.
  - destruct (Qle_bool x y) eqn:E; [|reflexivity].
    apply Qle_bool_iff in E. exfalso. apply (Qlt_not_le _ _ H E).
Qed.

Lemma lt_spec (x y : Q) : (x <? y) = true <-> x < y.
Proof.
  unfold Py.lt. rewrite negb_true_iff. apply (le_false y x).
Qed.

Lemma lt_false (x y : Q) : (x <? y) = false <-> y <= x.
Proof.
  unfold Py.lt. rewrite negb_false_iff. apply (le_spec y x).
Qed.

(** Case analysis on a test, keeping the order fact. *)
Lemma le_cases (x y : Q) :
  (x <= y /\ (x <=? y) = true) \/ (y < x /\ (x <=? y) = false).
Proof.
  destruct (x <=? y) eqn:E.
  - left. split; [now apply le_spec|reflexivity].
  - right. split; [now apply le_false|reflexivity].
Qed.

Lemma lt_cases (x y : Q) :
  (x < y /\ (x <? y) = true) \/ (y <= x /\ (x <? y) = false).
Proof.
  destruct (x <? y) eqn:E.
  - left. split; [now apply lt_spec|reflexivity].
  - right. split; [now apply lt_false|reflexivity].
Qed.

Lemma max_cases (a b : Q) :
  (a < b /\ Py.max a b = b) \/ (b <= a /\ Py.max a b = a).
Proof.
  unfold Py.max. destruct (lt_cases a b) as [[H E]|[H E]]; rewrite E; auto.
Qed.

Lemma min_cases (a b : Q) :
  (b < a /\ Py.min a b = b) \/ (a <= b /\ Py.min a b = a).
Proof.
  unfold Py.min. destruct (lt_cases b a) as [[H E]|[H E]]; rewrite E; auto.
Qed.

Lemma abs_cases (x : Q) :
  (x < 0 /\ Py.abs x = - x) \/ (0 <= x /\ Py.abs x = x).
Proof.
  unfold Py.abs. destruct (lt_cases x 0) as [[H E]|[H E]]; rewrite E; auto.
Qed.

Lemma abs_Qabs (x : Q) : Py.abs x == Qabs x.
Proof.
  destruct (abs_cases x) as [[H E]|[H E]]; rewrite E.
  - symmetry. apply Qabs_neg. lra.
  - symmetry. apply Qabs_pos. exact H.
Qed.

#[global] Instance le_proper : Proper (Qeq ==> Qeq ==> eq) Py.le.
Proof. intros x x' Hx y y' Hy. unfold Py.le. now rewrite Hx, Hy. Qed.

#[global] Instance lt_proper : Proper (Qeq ==> Qeq ==> eq) Py.lt.
Proof. intros x x' Hx y y' Hy. unfold Py.lt. now rewrite Hx, Hy. Qed.

#[global] Instance max_proper : Proper (Qeq ==> Qeq ==> Qeq) Py.max.
Proof.
  intros x x' Hx y y' Hy. unfold Py.max. rewrite Hx, Hy.
  destruct (x' <? y'); assumption.
Qed.

#[global] Instance min_proper : Proper (Qeq ==> Qeq ==> Qeq) Py.min.
Proof.
  intros x x' Hx y y' Hy. unfold Py.min. rewrite Hx, Hy.
  destruct (y' <? x'); assumption.
Qed.

(** Rounding to the nearest integer. *)

#[global] Instance round_half_even_proper : Proper (Qeq ==> eq) Py.round_half_even.
Proof.
  intros x y H. unfold Py.round_half_even.
  rewrite (Qfloor_comp _ _ H).
  assert (E : x - inject_Z (Qfloor y) == y - inject_Z (Qfloor y)) by now rewrite H.
  now rewrite (Qcompare_comp _ _ E (1#2) (1#2) (Qeq_refl _)).
Qed.

Lemma floor_bounds (x : Q) :
  inject_Z (Qfloor x) <= x /\ x < inject_Z (Qfloor x) + 1.
Proof.
  split; [apply Qfloor_le|].
  pose proof (Qlt_floor x) as H. rewrite inject_Z_plus in H. exact H.
Qed.

(** The rounded value is within one half of the argument. *)
Lemma round_half_even_near (x : Q) :
  x - (1#2) <= inject_Z (Py.round_half_even x) <= x + (1#2).
Proof.
  unfold Py.round_half_even.
  destruct (floor_bounds x) as [Hlo Hhi].
  destruct (Qcompare_spec (x - inject_Z (Qfloor x)) (1#2)) as [E|L|G].
  - destruct (Z.even (Qfloor x)); [|rewrite inject_Z_plus];
      change (inject_Z 1) with 1; lra.
  - lra.
  - rewrite inject_Z_plus. change (inject_Z 1) with 1. lra.
Qed.

(** An integer below the argument is below the rounded value, and dually. *)
Lemma round_half_even_lower (z : Z) (x : Q) :
  inject_Z z <= x -> (z <= Py.round_half_even x)%Z.
Proof.
  intros H.
  assert (Hf : (z <= Qfloor x)%Z).
  { rewrite <- (Qfloor_Z z). now apply Qfloor_resp_le. }
  unfold Py.round_half_even.
  destruct (Qcompare (x - inject_Z (Qfloor x)) (1#2));
    [destruct (Z.even (Qfloor x))| |]; lia.
Qed.

Lemma round_half_even_upper (z : Z) (x : Q) :
  x <= inject_Z z -> (Py.round_half_even x <= z)%Z.
Proof.
  intros H.
  destruct (floor_bounds x) as [Hlo Hhi].
  assert (Hf : (Qfloor x <= z)%Z).
  { rewrite Zle_Qle. lra. }
  unfold Py.round_half_even.
  destruct (Qcompare_spec (x - inject_Z (Qfloor x)) (1#2)) as [E|L|G].
  - destruct (Z.even (Qfloor x)); [exact Hf|].
    assert (Hlt : inject_Z (Qfloor x) < inject_Z z) by lra.
    rewrite <- Zlt_Qlt in Hlt. lia.
  - exact Hf.
  - assert (Hlt : inject_Z (Qfloor x) < inject_Z z) by lra.
    rewrite <- Zlt_Qlt in Hlt. lia.
Qed.

Lemma round_half_even_mono (x y : Q) :
  x <= y -> (Py.round_half_even x <= Py.round_half_even y)%Z.
Proof.
  intros H.
  assert (Hf : (Qfloor x <= Qfloor y)%Z) by now apply Qfloor_resp_le.
  destruct (floor_bounds x) as [Hxlo Hxhi].
  destruct (floor_bounds y) as [Hylo Hyhi].
  destruct (Z.eq_dec (Qfloor x) (Qfloor y)) as [Heq|Hne].
  - unfold Py.round_half_even. rewrite <- Heq.
    destruct (Qcompare_spec (x - inject_Z (Qfloor x)) (1#2)) as [E|L|G];
      destruct (Qcompare_spec (y - inject_Z (Qfloor x)) (1#2)) as [E'|L'|G'];
      try destruct (Z.even (Qfloor x)); try lia; lra.
  - transitivity (Qfloor y).
    + apply round_half_even_upper.
      assert (Hlt : (Qfloor x + 1 <= Qfloor y)%Z) by lia.
      rewrite Zle_Qle, inject_Z_plus in Hlt. change (inject_Z 1) with 1 in Hlt. lra.
    + apply round_half_even_lower. exact Hylo.
Qed.

Lemma round_half_even_Z (z : Z) : Py.round_half_even (inject_Z z) = z.
Proof.
  apply Z.le_antisymm.
  - apply round_half_even_upper. lra.
  - apply round_half_even_lower. lra.
Qed.

(** [round(x, n)] *)

Definition scale (n : nat) : Q := inject_Z (10 ^ Z.of_nat n).

Lemma scale_pos (n : nat) : 0 < scale n.
Proof.
  unfold scale. change 0 with (inject_Z 0). rewrite <- Zlt_Qlt.
  apply Z.pow_pos_nonneg; lia.
Qed.

Lemma round_unfold (x : Q) (n : nat) :
  Py.round x n = inject_Z (Py.round_half_even (x * scale n)) / scale n.
Proof. reflexivity. Qed.

#[global] Instance round_proper : Proper (Qeq ==> eq ==> Qeq) Py.round.
Proof.
  intros x y H n ? <-. rewrite !round_unfold.
  assert (E : x * scale n == y * scale n) by now rewrite H.
  now rewrite (round_half_even_proper _ _ E).
Qed.

Lemma round_mono (x y : Q) (n : nat) : x <= y -> Py.round x n <= Py.round y n.
Proof.
  intros H. rewrite !round_unfold.
  pose proof (scale_pos n) as Hs.
  assert (Hm : x * scale n <= y * scale n) by nra.
  apply round_half_even_mono in Hm. rewrite Zle_Qle in Hm.
  apply Qmult_le_r with (z := scale n); [exact Hs|].
  field_simplify; try lra.
Qed.

(** A multiple of the unit in the last place is left unchanged. *)
Lemma round_grid (z : Z) (n : nat) :
  Py.round (inject_Z z / scale n) n == inject_Z z / scale n.
Proof.
  rewrite round_unfold. pose proof (scale_pos n) as Hs.
  assert (E : inject_Z z / scale n * scale n == inject_Z z) by (field; lra).
  rewrite (round_half_even_proper _ _ E), round_half_even_Z. reflexivity.
Qed.

(** The error of a rounding is at most half a unit in the last place. *)
Lemma round_near (x : Q) (n : nat) :
  x - (1#2) / scale n <= Py.round x n <= x + (1#2) / scale n.
Proof.
  rewrite round_unfold. pose proof (scale_pos n) as Hs.
  destruct (round_half_even_near (x * scale n)) as [H1 H2].
  split.
  - apply Qmult_le_r with (z := scale n); [exact Hs|]. field_simplify; lra.
  - apply Qmult_le_r with (z := scale n); [exact Hs|]. field_simplify; lra.
Qed.

End PyFacts.

Import PyFacts.

(** ** The arbitrage detector *)

(** Replace every test of the goal by its two cases. *)
Ltac test_cases :=
  repeat match goal with
  | |- context [Py.le ?a ?b] =>
      let H := fresh "Hle" in destruct (le_cases a b) as [[H ->]|[H ->]]
  | |- context [Py.lt ?a ?b] =>
      let H := fresh "Hlt" in destruct (lt_cases a b) as [[H ->]|[H ->]]
  end.

(** Linear arithmetic after the divisions by a literal are made products. *)
Ltac qconst :=
  unfold Qdiv in *;
  repeat match goal with
  | |- context [Qinv (Qmake ?n ?d)] =>
      let v := eval vm_compute in (Qinv (Qmake n d)) in
      change (Qinv (Qmake n d)) with v
  | H : context [Qinv (Qmake ?n ?d)] |- _ =>
      let v := eval vm_compute in (Qinv (Qmake n d)) in
      change (Qinv (Qmake n d)) with v in H
  end.
Ltac qlra := qconst; lra.

Lemma arbitrage_edge_abs (price prob : Q) :
  arbitrage_edge price prob == Qabs (price - prob).
Proof. apply abs_Qabs. Qed.

(** Claim C4.  [detect_arbitrage] is a function of (price, probability)
    alone, with edge = |price - probability|: the verdict is ARBITRAGE when
    edge >= 0.08, FAIR when edge < 0.02, otherwise CHEAP when price <
    probability and EXPENSIVE when price >= probability; the recommendation
    is PASS when edge < 0.01, otherwise BUY YES when price < probability
    and BUY NO otherwise.  verdict(0.50, 0.50) = FAIR, and
    verdict(0.10, 0.50) = ARBITRAGE with recommendation BUY YES. *)
Theorem detect_arbitrage_verdict_and_recommendation (price prob : Q) :
  let r := detect_arbitrage price prob in
  let edge := Qabs (price - prob) in
  arbitrage_edge price prob == edge /\
  (0.08 <= edge -> Arb.verdict r = ARBITRAGE) /\
  (edge < 0.02 -> Arb.verdict r = FAIR) /\
  (0.02 <= edge -> edge < 0.08 -> price < prob -> Arb.verdict r = CHEAP) /\
  (0.02 <= edge -> edge < 0.08 -> prob <= price -> Arb.verdict r = EXPENSIVE) /\
  (edge < 0.01 -> Arb.recommendation r = PASS) /\
  (0.01 <= edge -> price < prob -> Arb.recommendation r = BUY_YES) /\
  (0.01 <= edge -> prob <= price -> Arb.recommendation r = BUY_NO) /\
  Arb.verdict (detect_arbitrage 0.50 0.50) = FAIR /\
  Arb.verdict (detect_arbitrage 0.10 0.50) = ARBITRAGE /\
  Arb.recommendation (detect_arbitrage 0.10 0.50) = BUY_YES.
Proof.
  intros r edge.
  pose proof (arbitrage_edge_abs price prob) as He. fold edge in He.
  subst r. unfold detect_arbitrage.
  set (e := arbitrage_edge price prob) in *.
  split; [exact He|].
  repeat split; try reflexivity; intros; test_cases; simpl; try reflexivity;
    exfalso; lra.
Qed.

(** ** Kelly sizing *)

(** The clamp of the bet. *)
Lemma clamped_bet_lower (bankroll pct : Q) : 5 <= clamped_bet bankroll pct.
Proof.
  unfold clamped_bet.
  destruct (max_cases 5.0 (Py.min (Py.round (bankroll * pct) 2) (bankroll * 0.35)))
    as [[H ->]|[H ->]]; lra.
Qed.

Lemma clamped_bet_upper (bankroll pct : Q) :
  5 <= 0.35 * bankroll -> clamped_bet bankroll pct <= 0.35 * bankroll.
Proof.
  intros Hb. unfold clamped_bet.
  destruct (min_cases (Py.round (bankroll * pct) 2) (bankroll * 0.35)) as [[H ->]|[H ->]];
  match goal with |- Py.max ?a ?b <= _ =>
    destruct (max_cases a b) as [[H' ->]|[H' ->]] end; lra.
Qed.

Lemma clamped_bet_small (bankroll pct : Q) :
  0.35 * bankroll < 5 -> clamped_bet bankroll pct = 5.0.
Proof.
  intros Hb. unfold clamped_bet.
  destruct (min_cases (Py.round (bankroll * pct) 2) (bankroll * 0.35)) as [[H ->]|[H ->]];
  match goal with |- Py.max ?a ?b = _ =>
    destruct (max_cases a b) as [[H' ->]|[H' ->]] end; try reflexivity; lra.
Qed.

(** The shape of a sized entry: what [kelly_side] stores when the guard passes. *)
Lemma kelly_side_sized (bankroll true_prob poly_price : Q) (sd : side) :
  0 < side_price sd poly_price -> side_price sd poly_price < 1 ->
  0 < side_prob sd true_prob ->
  exists s pct,
    kelly_side bankroll true_prob poly_price sd = Sized s /\
    Sizing.bet_amount s = Py.round (clamped_bet bankroll pct) 2 /\
    Sizing.position_pct s =
      Py.round ((if 0 <? bankroll then clamped_bet bankroll pct / bankroll else 0) * 100) 2 /\
    Sizing.price s = Py.round (side_price sd poly_price) 4 /\
    Sizing.ev_per_dollar s =
      Py.round (side_prob sd true_prob * (1.0 / side_price sd poly_price - 1)
                - (1.0 - side_prob sd true_prob)) 4 /\
    Sizing.roi_if_win s = Py.round ((1.0 / side_price sd poly_price - 1.0) * 100) 2.
Proof.
  intros Hp0 Hp1 Hq. unfold kelly_side.
  destruct (le_cases (side_price sd poly_price) 0) as [[H _]|[_ ->]]; [lra|].
  destruct (le_cases 1 (side_price sd poly_price)) as [[H _]|[_ ->]]; [lra|].
  destruct (le_cases (side_prob sd true_prob) 0) as [[H _]|[_ ->]]; [lra|].
  cbn [orb].
  match goal with |- context [position_fraction ?a ?b ?c] =>
    destruct (position_fraction a b c) as [pct conf] end.
  eexists _, pct. repeat split.
Qed.

Lemma five_grid : (5 : Q) == inject_Z 500 / scale 2.
Proof. reflexivity. Qed.

Lemma round2_five : Py.round 5 2 == 5.
Proof. rewrite five_grid at 1. rewrite round_grid. reflexivity. Qed.

(** Claim C2, as stated, fails: with a bankroll of 10 (price 0.5,
    probability 0.5) the bet is the $5 minimum, above 0.35 x bankroll =
    3.5. *)
Lemma kelly_bet_exceeds_cap_on_small_bankroll :
  exists s, kelly_side 10 0.5 0.5 YES = Sized s /\
            Sizing.bet_amount s == 5 /\
            0.35 * 10 < Sizing.bet_amount s.
Proof. eexists. split; [reflexivity|]. split; reflexivity. Qed.

(** Claim C2, amended.  For every bankroll > 0, every side price in (0,1)
    and every side probability > 0, the side is sized; the clamped bet is
    at least $5, at most 0.35 x bankroll when that is $5 or more, and the
    $5 minimum otherwise; [bet_amount] is the clamped bet rounded to cents,
    so it lies in [5, max(5, round(0.35 x bankroll, 2))]; and
    [position_pct] is recomputed from the clamped bet (as a percentage), so
    that position_pct / 100 x bankroll is within the two roundings of
    [bet_amount]. *)
Theorem kelly_bet_within_clamp (bankroll true_prob poly_price : Q) (sd : side) :
  0 < bankroll ->
  0 < side_price sd poly_price -> side_price sd poly_price < 1 ->
  0 < side_prob sd true_prob ->
  exists s bet,
    kelly_side bankroll true_prob poly_price sd = Sized s /\
    Sizing.bet_amount s = Py.round bet 2 /\
    Sizing.position_pct s = Py.round (bet / bankroll * 100) 2 /\
    5 <= bet /\
    (5 <= 0.35 * bankroll -> bet <= 0.35 * bankroll) /\
    (0.35 * bankroll < 5 -> bet = 5.0) /\
    5 <= Sizing.bet_amount s /\
    Sizing.bet_amount s <= Py.max 5 (Py.round (0.35 * bankroll) 2) /\
    Qabs (Sizing.position_pct s / 100 * bankroll - Sizing.bet_amount s)
      <= (1 # 200) + bankroll * (1 # 20000).
Proof.
  intros Hb Hp0 Hp1 Hq.
  destruct (kelly_side_sized bankroll true_prob poly_price sd Hp0 Hp1 Hq)
    as (s & pct & Hs & Hbet & Hpp & _).
  destruct (lt_cases 0 bankroll) as [[_ E]|[H _]]; [|lra].
  rewrite E in Hpp.
  exists s, (clamped_bet bankroll pct).
  pose proof (clamped_bet_lower bankroll pct) as Hlo.
  split; [exact Hs|]. split; [exact Hbet|]. split; [exact Hpp|].
  split; [exact Hlo|].
  split; [apply clamped_bet_upper|].
  split; [apply clamped_bet_small|].
  rewrite Hbet, Hpp.
  set (c := clamped_bet bankroll pct) in *.
  split; [|split].
  - rewrite <- round2_five. now apply round_mono.
  - destruct (Qlt_le_dec (0.35 * bankroll) 5) as [Hsmall|Hbig].
    + rewrite (clamped_bet_small bankroll pct Hsmall : c = 5.0).
      assert (E5 : Py.round 5.0 2 == 5) by reflexivity. rewrite E5.
      destruct (max_cases 5 (Py.round (0.35 * bankroll) 2)) as [[H ->]|[H ->]]; lra.
    + pose proof (clamped_bet_upper bankroll pct Hbig) as Hup. fold c in Hup.
      apply (round_mono _ _ 2%nat) in Hup.
      destruct (max_cases 5 (Py.round (0.35 * bankroll) 2)) as [[H ->]|[H ->]]; lra.
  - destruct (round_near c 2) as [A1 A2].
    destruct (round_near (c / bankroll * 100) 2) as [B1 B2].
    change (scale 2) with 100 in *.
    assert (Hu : c == c / bankroll * bankroll) by (field; lra).
    set (r := Py.round (c / bankroll * 100) 2) in *.
    set (u := c / bankroll) in *.
    clearbody r u c.
    apply Qabs_Qle_condition. split.
    + assert (0 <= (r - (u * 100 - (1#2) / 100)) * bankroll)
        by (apply Qmult_le_0_compat; qlra).
      qlra.
    + assert (0 <= (u * 100 + (1#2) / 100 - r) * bankroll)
        by (apply Qmult_le_0_compat; qlra).
      qlra.
Qed.

(** The amended bounds at a bankroll of 1000, price and probability 0.83. *)
Lemma kelly_bet_within_clamp_witness :
  exists s bet,
    kelly_side 1000 0.83 0.83 YES = Sized s /\
    Sizing.bet_amount s = Py.round bet 2 /\
    5 <= Sizing.bet_amount s.
Proof.
  destruct (kelly_bet_within_clamp 1000 0.83 0.83 YES)
    as (s & bet & H1 & H2 & _ & _ & _ & _ & H3 & _); try reflexivity.
  exists s, bet. repeat split; assumption.
Defined.

(** ** The selection loop *)

Section Selection.
Variable budget : Q.

Definition scan (sel : selection) (m : Analysis.t) : selection :=
  fold_left (consider budget m) [YES; NO] sel.

Lemma select_best_scan (l : list Analysis.t) :
  select_best budget l = fold_left scan l initial_selection.
Proof. unfold select_best, scan. reflexivity. Qed.

(** The winner recorded by a selection, with its score. *)
Definition records (sel : selection) (m : Analysis.t) (sd : side) : Prop :=
  best_market sel = Some m /\ best_side sel = sd /\
  best_score sel = market_score budget m sd.

Lemma consider_spec (m : Analysis.t) (sel : selection) (sd : side) :
  let sel' := consider budget m sel sd in
  market_score budget m sd <= best_score sel' /\
  best_score sel <= best_score sel' /\
  (sel' = sel \/ (best_score sel < best_score sel' /\ records sel' m sd)).
Proof.
  unfold consider.
  destruct (lt_cases (best_score sel) (market_score budget m sd)) as [[H ->]|[H ->]];
    cbn [best_score].
  - split; [lra|]. split; [lra|]. right. split; [exact H|]. repeat split.
  - split; [exact H|]. split; [lra|]. now left.
Qed.

(** What holds of the selection after the markets [seen]. *)
Definition selected (seen : list Analysis.t) (sel : selection) : Prop :=
  (forall m sd, In m seen -> market_score budget m sd <= best_score sel) /\
  ((best_market sel = None /\ best_score sel == -999) \/
   (exists m, In m seen /\ records sel m (best_side sel) /\ -999 < best_score sel)).

Lemma scan_selected (seen : list Analysis.t) (sel : selection) (m : Analysis.t) :
  selected seen sel -> selected (seen ++ [m]) (scan sel m).
Proof.
  intros [Hmax Hwin]. unfold scan. cbn [fold_left].
  pose proof (consider_spec m sel YES) as (Y1 & Y2 & Y3). cbn zeta in *.
  set (s1 := consider budget m sel YES) in *.
  pose proof (consider_spec m s1 NO) as (N1 & N2 & N3). cbn zeta in *.
  set (s2 := consider budget m s1 NO) in *.
  split.
  - intros m' sd Hin. apply in_app_or in Hin. destruct Hin as [Hin|[<-|[]]].
    + specialize (Hmax m' sd Hin). lra.
    + destruct sd; lra.
  - assert (Hs1 : (best_market s1 = None /\ best_score s1 == -999) \/
                  (exists m0, In m0 (seen ++ [m]) /\ records s1 m0 (best_side s1)
                              /\ -999 < best_score s1)).
    { destruct Y3 as [->|[Hlt Hrec]].
      - destruct Hwin as [Hnone|(m0 & Hin & Hrec & Hlow)]; [now left|].
        right. exists m0. split; [apply in_or_app; now left|]. now split.
      - right. exists m. split; [apply in_or_app; right; now left|].
        destruct Hrec as (R1 & R2 & R3). split; [|destruct Hwin as [[_ E]|(_&_&_&E)]; lra].
        unfold records. rewrite R2. repeat split; assumption. }
    destruct N3 as [->|[Hlt Hrec]]; [exact Hs1|].
    right. exists m. split; [apply in_or_app; right; now left|].
    destruct Hrec as (R1 & R2 & R3). split.
    + unfold records. rewrite R2. repeat split; assumption.
    + destruct Hs1 as [[_ E]|(_&_&_&E)]; lra.
Qed.

Lemma fold_scan_selected (l seen : list Analysis.t) (sel : selection) :
  selected seen sel -> selected (seen ++ l) (fold_left scan l sel).
Proof.
  revert seen sel. induction l as [|m l IH]; intros seen sel H; cbn [fold_left].
  - now rewrite app_nil_r.
  - replace (seen ++ m :: l) with ((seen ++ [m]) ++ l) by now rewrite <- app_assoc.
    apply IH. now apply scan_selected.
Qed.

Lemma select_best_selected (l : list Analysis.t) :
  selected l (select_best budget l).
Proof.
  rewrite select_best_scan. apply (fold_scan_selected l []).
  split; [intros ? ? []|]. left. split; reflexivity.
Qed.


End Selection.

(** ** Scores *)

Lemma min_lower (a b c : Q) : c <= a -> c <= b -> c <= Py.min a b.
Proof. intros. destruct (min_cases a b) as [[? ->]|[? ->]]; assumption. Qed.

Lemma min_le_r (a b : Q) : Py.min a b <= b.
Proof. destruct (min_cases a b) as [[? ->]|[? ->]]; lra. Qed.

Lemma max_ge_l (a b : Q) : a <= Py.max a b.
Proof. destruct (max_cases a b) as [[? ->]|[? ->]]; lra. Qed.

Lemma max_ge_r (a b : Q) : b <= Py.max a b.
Proof. destruct (max_cases a b) as [[? ->]|[? ->]]; lra. Qed.

Lemma div_nonneg (a c : Q) : 0 <= a -> 0 < c -> 0 <= a / c.
Proof. intros Ha Hc. apply Qle_shift_div_l; [exact Hc|]. lra. Qed.

(** The volume term lies between 0 and 8 for a volume that is not negative. *)
Definition vol_score (vol : Q) : Q :=
  if truthy vol then Py.min (vol / 3000) 8 else 0.




(** Rounding against a value that is already on the grid. *)
Lemma round_ge_grid (g x : Q) (n : nat) :
  Py.round g n == g -> g <= x -> g <= Py.round x n.
Proof. intros Hg Hx. rewrite <- Hg. now apply round_mono. Qed.

Lemma round_le_grid (g x : Q) (n : nat) :
  Py.round g n == g -> x <= g -> Py.round x n <= g.
Proof. intros Hg Hx. rewrite <- Hg. now apply round_mono. Qed.















(** ** Keywords of step 5 *)

Lemma search_ticker_nonempty (s r : string) :
  Text.search_ticker s = Some r -> r <> EmptyString.
Proof.
  induction s as [|c t IH]; cbn [Text.search_ticker]; [discriminate|].
  destruct (Ascii.eqb c "(").
  - destruct (Text.span Text.is_upper t) as [run rest].
    destruct rest as [|d rest'].
    + exact IH.
    + destruct (Ascii.eqb d ")" && (1 <=? String.length run)%nat
                && (String.length run <=? 5)%nat) eqn:E.
      * intros [= <-]. apply andb_prop in E as [E _]. apply andb_prop in E as [_ E].
        apply Nat.leb_le in E. destruct run; [cbn in E; lia|discriminate].
      * exact IH.
  - exact IH.
Qed.

Lemma title_keywords_length (title : string) :
  (List.length (title_keywords title) <= 5)%nat.
Proof. unfold title_keywords. apply firstn_le_length. Qed.

Lemma title_keywords_in (title w : string) :
  In w (title_keywords title) ->
  In w (Text.findall_words title) /\ in_words (Text.lower w) skip_words = false.
Proof.
  unfold title_keywords. intros H.
  assert (H' : In w (List.filter
                       (fun w => negb (in_words (Text.lower w) skip_words))
                       (Text.findall_words title))).
  { revert H. generalize 5%nat.
    generalize (List.filter (fun w => negb (in_words (Text.lower w) skip_words))
                            (Text.findall_words title)).
    intros l n. revert l. induction n as [|n IH]; intros [|x l]; cbn; try tauto.
    intros [->|H]; [now left|right; now apply IH]. }
  apply filter_In in H' as [H1 H2]. split; [exact H1|].
  now apply negb_true_iff in H2.
Qed.

(** Claim C8, as stated, fails: a title with a ticker and five other
    keywords gives six keywords, the ticker first (and once more in its
    place in the title). *)
Lemma search_kws_six_keywords :
  extract_ticker apple_title = Some "AAPL"%string /\
  search_kws apple_title (extract_ticker apple_title)
    = ["AAPL"; "Apple"; "AAPL"; "stock"; "price"; "finish"]%string /\
  List.length (search_kws apple_title (extract_ticker apple_title)) = 6%nat.
Proof. repeat split. Qed.

(** Claim C8, amended.  The keywords of step 5 are at most five words of
    the title (runs of three letters or more whose lower case is no
    stop-word), in the order of the title, preceded by the ticker when the
    title has one: at most six keywords in total, five without a ticker. *)
Theorem search_kws_ticker_first_then_five (title : string) :
  let kws := search_kws title (extract_ticker title) in
  (List.length kws <= 6)%nat /\
  (List.length (title_keywords title) <= 5)%nat /\
  (forall w, In w (title_keywords title) ->
     In w (Text.findall_words title) /\ in_words (Text.lower w) skip_words = false) /\
  (forall t, extract_ticker title = Some t -> kws = t :: title_keywords title) /\
  (extract_ticker title = None -> kws = title_keywords title).
Proof.
  intros kws. subst kws.
  pose proof (title_keywords_length title) as Hlen.
  split; [|split; [exact Hlen|split; [apply title_keywords_in|]]].
  - unfold search_kws. destruct (extract_ticker title) as [t|]; [|lia].
    destruct (String.eqb t ""); cbn [List.length]; lia.
  - split.
    + intros t Ht. rewrite Ht. unfold search_kws.
      destruct (String.eqb_spec t ""%string) as [->|_]; [|reflexivity].
      exfalso. now apply (search_ticker_nonempty title EmptyString Ht).
    + intros ->. reflexivity.
Qed.

(** ** Trending score *)

(** Claim C9, as stated, fails: the score of the flat listing is 31.7,
    the uncertainty term 20 plus the ROI-potential term 35/3. *)
Lemma flat_listing_score_is_not_20 :
  compute_polysnap_score (flat_listing [0.5]) == 31.7 /\
  uncertainty_score (cheap_side 0.5) == 20 /\
  roi_score (cheap_side 0.5) == 35 / 3 /\
  11 < compute_polysnap_score (flat_listing [0.5]) - 20.
Proof. repeat split. Qed.

(** Claim C9, amended.  For a listing with yes_price = 0.5 and zero
    volume, 24h volume, liquidity, spread and price change, the score is
    the uncertainty term (20) plus the ROI-potential term (35/3), rounded
    to one decimal: 31.7; every other term is 0, and the verdict is
    COOL. *)
Theorem flat_listing_score_and_verdict (rest : list Q) :
  let m := flat_listing rest in
  compute_polysnap_score m == 31.7 /\
  compute_polysnap_score m
    == Py.round (uncertainty_score (cheap_side 0.5) + roi_score (cheap_side 0.5)) 1 /\
  uncertainty_score (cheap_side 0.5) == 20 /\
  roi_score (cheap_side 0.5) == 35 / 3 /\
  volatility_score (Py.abs (Listing.oneDayPriceChange m)) == 0 /\
  liq_score (Listing.liquidity m) == 0 /\
  activity_score (Listing.volume24hr m) (Listing.volume m) == 0 /\
  spread_penalty (Listing.spread m) == 0 /\
  sure_thing_penalty (cheap_side 0.5) == 0 /\
  trending_verdict m = Some COOL.
Proof. repeat split. Qed.

(** ** The job store and the orchestrator *)

(** The directory after a file is written. *)
Definition write (d : jobs_dir) (job_id : string) (job : Job.t) : jobs_dir :=
  {| files := <[ job_id := job ]> (files d);
     journal := journal d ++ [(job_id, job)] |}.

Lemma write_lookup (d : jobs_dir) (job_id : string) (job : Job.t) :
  files (write d job_id job) !! job_id = Some job.
Proof. unfold write. cbn [files]. apply lookup_insert_eq. Qed.

Lemma write_journal (d : jobs_dir) (job_id : string) (job : Job.t) :
  journal (write d job_id job) = journal d ++ [(job_id, job)].
Proof. reflexivity. Qed.

Lemma bind_save {A} (job_id : string) (job : Job.t) (k : M A) (d : jobs_dir) :
  (_save_job job_id job ;;; k) d = k (write d job_id job).
Proof. reflexivity. Qed.

(** [_update_job] on a job that exists merges the fields and writes the file. *)
Lemma bind_update {A} (job_id : string) (u : Upd.t) (k : M A) (d : jobs_dir) (j : Job.t) :
  files d !! job_id = Some j ->
  (_update_job job_id u ;;; k) d = k (write d job_id (job_update j u)).
Proof.
  intros H. unfold bind, _update_job, _load_job, bind. rewrite H. reflexivity.
Qed.

(** On an unknown job id [_update_job] writes nothing. *)
Lemma update_unknown (job_id : string) (u : Upd.t) (d : jobs_dir) :
  files d !! job_id = None -> _update_job job_id u d = (d, inr None).
Proof.
  intros H. unfold _update_job, _load_job, bind. rewrite H. reflexivity.
Qed.

Lemma bind_checkpoint {A} (w : world) (n : nat) (k : M A) (d : jobs_dir) :
  (checkpoint w n ;;; k) d
  = match fault w n with Some e => (d, inl e) | None => k d end.
Proof. unfold bind, checkpoint. destruct (fault w n); reflexivity. Qed.

(** The record of the job after the update of step [n]. *)
Definition at_step (n : nat) : Job.t := job_update initial_job (step_update n).

(** The journal after the job was created and [js] was written to it. *)
Definition wrote (d0 d : jobs_dir) (job_id : string) (js : list Job.t) : Prop :=
  journal d = journal d0 ++ List.map (pair job_id) (initial_job :: js) /\
  files d !! job_id = Some (List.last js initial_job).

Lemma wrote_created (d0 : jobs_dir) (job_id : string) :
  wrote d0 (write d0 job_id initial_job) job_id [].
Proof. split; [reflexivity|apply write_lookup]. Qed.

Lemma wrote_write (d0 d : jobs_dir) (job_id : string) (js : list Job.t) (j : Job.t) :
  wrote d0 d job_id js -> wrote d0 (write d job_id j) job_id (js ++ [j]).
Proof.
  intros [Hj _]. split.
  - rewrite write_journal, Hj. cbn [List.map]. rewrite <- app_assoc.
    rewrite map_app. reflexivity.
  - rewrite last_last. apply write_lookup.
Qed.

(** An update of a job that [wrote] tracks. *)
Lemma wrote_update {A} (d0 d : jobs_dir) (job_id : string) (js : list Job.t)
    (u : Upd.t) (k : M A) :
  wrote d0 d job_id js ->
  (_update_job job_id u ;;; k) d
    = k (write d job_id (job_update (List.last js initial_job) u)).
Proof. intros H. apply bind_update. apply H. Qed.

(** Rewrite the next update of the run, and track the write. *)
Ltac advance H :=
  match type of H with
  | wrote ?d0 ?d ?id ?js =>
      rewrite (wrote_update d0 d id js _ _ H);
      cbn [List.last];
      match goal with
      | |- context [write d id ?j] =>
          let W := fresh "W" in
          pose proof (wrote_write d0 d id js j H) as W;
          cbn [app] in W;
          let d' := fresh "d" in
          set (d' := write d id j) in *; clearbody d'; clear H; rename W into H
      end
  end.

(** The records written by the first [n] steps. *)
Definition steps_written (n : nat) : list Job.t := List.map at_step (seq 1 n).

(** The case of a run cut short by an exception of step [n]. *)
Ltac faulty H n e Hf :=
  cbn iota; advance H; split; [reflexivity|]; eexists; split; [exact H|];
  right; left; eexists _, n, e; split; [reflexivity|]; split; [lia|];
  split; [exact Hf|]; split; [|reflexivity];
  intros i Hi;
  do 11 (destruct i as [|i]; [first [assumption | exfalso; lia]|]); exfalso; lia.

(** The run of a job, from its creation: the records written to the job,
    in the three ways a run can end. *)
Lemma start_analysis_writes (w : world) (job_id slug : string) (budget : Q) (d : jobs_dir) :
  let run := start_analysis w job_id slug budget d in
  snd run = inr tt /\
  exists js,
    wrote d (fst run) job_id js /\
    ((fetch_polymarket_event w slug = None /\
      js = [at_step 1; job_update (at_step 1) not_found_update]) \/
     (exists event n e,
        fetch_polymarket_event w slug = Some event /\
        (1 <= n <= 10)%nat /\ fault w n = Some e /\
        (forall i, (1 <= i < n)%nat -> fault w i = None) /\
        js = steps_written n ++ [job_update (at_step n) (exception_update e)]) \/
     (exists event,
        fetch_polymarket_event w slug = Some event /\
        (forall i, (1 <= i <= 10)%nat -> fault w i = None) /\
        js = steps_written 10
             ++ [job_update (at_step 10) (completed_update (final_result w event budget))])).
Proof.
  cbn zeta. unfold start_analysis. rewrite bind_save.
  pose proof (wrote_created d job_id) as H.
  set (d0 := write d job_id initial_job) in *. clearbody d0.
  unfold run_full_analysis, try_except, run_steps.
  advance H.
  destruct (fetch_polymarket_event w slug) as [event|] eqn:Hev.
  2:{ advance H. split; [reflexivity|]. eexists. split; [exact H|].
      left. split; reflexivity. }
  rewrite bind_checkpoint. destruct (fault w 1) as [e|] eqn:F1; [faulty H 1%nat e F1|].
  advance H.
  rewrite bind_checkpoint. destruct (fault w 2) as [e|] eqn:F2; [faulty H 2%nat e F2|].
  advance H.
  rewrite bind_checkpoint. destruct (fault w 3) as [e|] eqn:F3; [faulty H 3%nat e F3|].
  advance H.
  rewrite bind_checkpoint. destruct (fault w 4) as [e|] eqn:F4; [faulty H 4%nat e F4|].
  advance H.
  rewrite bind_checkpoint. destruct (fault w 5) as [e|] eqn:F5; [faulty H 5%nat e F5|].
  advance H.
  rewrite bind_checkpoint. destruct (fault w 6) as [e|] eqn:F6; [faulty H 6%nat e F6|].
  advance H.
  rewrite bind_checkpoint. destruct (fault w 7) as [e|] eqn:F7; [faulty H 7%nat e F7|].
  advance H.
  rewrite bind_checkpoint. destruct (fault w 8) as [e|] eqn:F8; [faulty H 8%nat e F8|].
  advance H.
  rewrite bind_checkpoint. destruct (fault w 9) as [e|] eqn:F9; [faulty H 9%nat e F9|].
  advance H.
  rewrite bind_checkpoint. destruct (fault w 10) as [e|] eqn:F10; [faulty H 10%nat e F10|].
  advance H. split; [reflexivity|]. eexists. split; [exact H|].
  right; right. exists event. split; [reflexivity|]. split; [|reflexivity].
  intros i Hi.
  do 11 (destruct i as [|i]; [first [assumption | exfalso; lia]|]); exfalso; lia.
Qed.

(** Claim C1.  For a job that [api_analyze] starts ([start_analysis]), the
    steps of the records written to the job never decrease (1 to 10 in
    order, then 10 again, on a complete run); every record but the last is running and
    the last one, which is the final content of the job file, is
    completed or error: one terminal transition, and no write after it.
    The run returns without an exception. *)
Theorem job_steps_monotone_one_terminal
    (w : world) (job_id slug : string) (budget : Q) (d : jobs_dir) :
  let run := start_analysis w job_id slug budget d in
  exists js,
    journal (fst run) = journal d ++ List.map (pair job_id) (initial_job :: js) /\
    files (fst run) !! job_id = Some (List.last js initial_job) /\
    snd run = inr tt /\
    StronglySorted le (List.map Job.step (initial_job :: js)) /\
    Forall (fun j => Job.status j = Status.running) (initial_job :: removelast js) /\
    (Job.status (List.last js initial_job) = Status.completed \/
     Job.status (List.last js initial_job) = Status.error) /\
    (Job.status (List.last js initial_job) = Status.completed ->
     List.map Job.step js = [1; 2; 3; 4; 5; 6; 7; 8; 9; 10; 10]%nat).
Proof.
  intros run. destruct (start_analysis_writes w job_id slug budget d) as [Hret (js & [Hj Hf] & Hcase)].
  fold run in Hret, Hj, Hf.
  exists js. split; [exact Hj|]. split; [exact Hf|]. split; [exact Hret|].
  destruct Hcase as [[_ ->]|[(event & n & e & _ & Hn & _ & _ & ->)|(event & _ & _ & ->)]].
  - cbn. repeat split; try (repeat constructor; lia); try (right; reflexivity).
    discriminate.
  - do 11 (destruct n as [|n]; [try (exfalso; lia);
           cbn; repeat split; try (repeat constructor; lia);
           try (right; reflexivity); discriminate|]).
    exfalso; lia.
  - cbn. repeat split; try (repeat constructor; lia); try (left; reflexivity).
Qed.


(** ** The probability model *)

Module BlackScholesFacts.
Import BlackScholes.
#[local] Open Scope R_scope.

Lemma gauss_le_1 t : gauss t <= 1.
Proof.
  unfold gauss. rewrite <- exp_0.
  assert (Hsq : 0 <= t * t) by apply Rle_0_sqr.
  assert (Hle : - (t * t) / 2 <= 0) by lra.
  destruct Hle as [Hlt|Heq]; [left; now apply exp_increasing|rewrite Heq; lra].
Qed.

Lemma gauss_decreasing s t : 0 <= s -> s <= t -> gauss t <= gauss s.
Proof.
  intros Hs Hst. unfold gauss.
  assert (Hle : - (t * t) / 2 <= - (s * s) / 2) by nra.
  destruct Hle as [Hlt|Heq]; [left; now apply exp_increasing|rewrite Heq; lra].
Qed.

(** The area between two points on the right of 0. *)
Lemma gauss_area_step (x y : R) :
  0 <= x -> x <= y ->
  gauss y * (y - x) <= gauss_area y - gauss_area x <= y - x.
Proof.
  intros Hx Hxy. unfold gauss_area.
  rewrite <- (RiemannInt_P26 (gauss_integrable 0 x) (gauss_integrable x y)
                             (gauss_integrable 0 y)).
  replace (RiemannInt (gauss_integrable 0 x) + RiemannInt (gauss_integrable x y)
           - RiemannInt (gauss_integrable 0 x))
    with (RiemannInt (gauss_integrable x y)) by ring.
  replace (y - x) with (1 * (y - x)) at 2 by ring.
  apply RiemannInt_const_bound; [exact Hxy|].
  intros t [Ht1 Ht2]. split; [apply gauss_decreasing; lra|apply gauss_le_1].
Qed.

Lemma gauss_area_nonneg x : 0 <= x -> 0 <= gauss_area x.
Proof.
  intros Hx. destruct (gauss_area_step 0 x (Rle_refl 0) Hx) as [H _].
  rewrite gauss_area_0 in H. pose proof (gauss_pos x). nra.
Qed.

Lemma gauss_area_mono x y : 0 <= x -> x <= y -> gauss_area x <= gauss_area y.
Proof.
  intros Hx Hxy. destruct (gauss_area_step x y Hx Hxy) as [H _].
  pose proof (gauss_pos y). nra.
Qed.

Lemma half_mass_lub : is_lub area_value half_mass.
Proof.
  unfold half_mass.
  destruct (completeness area_value area_value_bound area_value_inhabited) as [m Hm].
  exact Hm.
Qed.

Lemma gauss_area_le_half_mass x : 0 <= x -> gauss_area x <= half_mass.
Proof.
  intros Hx. destruct half_mass_lub as [Hub _]. apply Hub. now exists x.
Qed.

Lemma half_mass_le_2 : half_mass <= 2.
Proof.
  destruct half_mass_lub as [_ Hleast]. apply Hleast.
  intros v (x & Hx & ->). now apply gauss_area_bound.
Qed.

Lemma exp_half_le_2 : exp (/ 2) <= 2.
Proof.
  assert (H3 : exp (/2) * exp (/2) <= 3).
  { rewrite <- exp_plus. replace (/2 + /2) with 1 by lra. apply exp_le_3. }
  assert (H4 : 0 < exp (/2)) by apply exp_pos. nra.
Qed.

Lemma gauss_1_lower : / 2 <= gauss 1.
Proof.
  unfold gauss. replace (- (1 * 1) / 2) with (- / 2) by lra.
  rewrite exp_Ropp. pose proof exp_half_le_2 as H. pose proof (exp_pos (/2)) as Hp.
  apply Rinv_le_contravar; assumption.
Qed.

Lemma gauss_area_1_lower : / 2 <= gauss_area 1.
Proof.
  destruct (gauss_area_step 0 1 (Rle_refl 0) Rle_0_1) as [H _].
  rewrite gauss_area_0 in H. pose proof gauss_1_lower. lra.
Qed.

Lemma half_mass_pos : 0 < half_mass.
Proof.
  pose proof (gauss_area_le_half_mass 1 Rle_0_1). pose proof gauss_area_1_lower. lra.
Qed.

(** The area comes as close to its least upper bound as asked. *)
Lemma gauss_area_limit (eps : R) :
  0 < eps -> exists M, 0 <= M /\ forall x, M <= x -> half_mass - eps < gauss_area x.
Proof.
  intros Heps.
  destruct (classic (exists M, 0 <= M /\ half_mass - eps < gauss_area M))
    as [(M & HM & Hlt)|Hno].
  - exists M. split; [exact HM|]. intros x Hx.
    pose proof (gauss_area_mono M x HM Hx). lra.
  - exfalso. destruct half_mass_lub as [_ Hleast].
    assert (Hub : is_upper_bound area_value (half_mass - eps)).
    { intros v (x & Hx & ->). apply Rnot_lt_le. intros Hlt. apply Hno. now exists x. }
    specialize (Hleast _ Hub). lra.
Qed.

Lemma norm_cdf_0 : norm_cdf 0 = 1 / 2.
Proof.
  unfold norm_cdf. destruct (Rle_dec 0 0) as [_|H]; [|lra].
  rewrite gauss_area_0. unfold Rdiv. ring.
Qed.

Lemma ratio_bounds x : 0 <= x -> 0 <= gauss_area x / (2 * half_mass) <= 1 / 2.
Proof.
  intros Hx. pose proof half_mass_pos as Hc.
  pose proof (gauss_area_nonneg x Hx) as H0.
  pose proof (gauss_area_le_half_mass x Hx) as H1.
  split.
  - apply Rmult_le_pos; [exact H0|]. left. apply Rinv_0_lt_compat. lra.
  - apply Rmult_le_reg_r with (2 * half_mass); [lra|].
    unfold Rdiv. rewrite Rmult_assoc, Rinv_l; lra.
Qed.

Lemma norm_cdf_range x : 0 <= norm_cdf x <= 1.
Proof.
  unfold norm_cdf. destruct (Rle_dec 0 x) as [H|H].
  - pose proof (ratio_bounds x H). lra.
  - pose proof (ratio_bounds (- x) ltac:(lra)). lra.
Qed.

Lemma norm_cdf_ge_half x : 0 <= x -> 1 / 2 <= norm_cdf x.
Proof.
  intros H. unfold norm_cdf. destruct (Rle_dec 0 x) as [_|H']; [|lra].
  pose proof (ratio_bounds x H). lra.
Qed.

Lemma ratio_mono x y :
  0 <= x -> x <= y ->
  gauss_area x / (2 * half_mass) <= gauss_area y / (2 * half_mass).
Proof.
  intros Hx Hxy. pose proof half_mass_pos as Hc.
  apply Rmult_le_compat_r; [left; apply Rinv_0_lt_compat; lra|].
  now apply gauss_area_mono.
Qed.

Lemma norm_cdf_mono x y : x <= y -> norm_cdf x <= norm_cdf y.
Proof.
  intros Hxy. unfold norm_cdf.
  destruct (Rle_dec 0 x) as [Hx|Hx]; destruct (Rle_dec 0 y) as [Hy|Hy]; try lra.
  - pose proof (ratio_mono x y Hx Hxy). lra.
  - pose proof (ratio_bounds (- x) ltac:(lra)). pose proof (ratio_bounds y Hy). lra.
  - pose proof (ratio_mono (- y) (- x) ltac:(lra) ltac:(lra)). lra.
Qed.

Lemma norm_cdf_1_lower : 5 / 8 <= norm_cdf 1.
Proof.
  unfold norm_cdf. destruct (Rle_dec 0 1) as [_|H]; [|lra].
  pose proof half_mass_pos as Hc. pose proof half_mass_le_2 as Hc2.
  pose proof gauss_area_1_lower as Ha.
  assert (H : / 8 <= gauss_area 1 / (2 * half_mass)); [|lra].
  apply Rmult_le_reg_r with (2 * half_mass); [lra|].
  unfold Rdiv. rewrite Rmult_assoc, Rinv_l; lra.
Qed.

(** The distribution function tends to 1 on the right. *)
Lemma norm_cdf_limit (eps : R) :
  0 < eps -> exists M, 0 <= M /\ forall x, M <= x -> 1 - eps < norm_cdf x.
Proof.
  intros Heps. pose proof half_mass_pos as Hc.
  destruct (gauss_area_limit (2 * half_mass * eps)) as (M & HM & Hlim); [nra|].
  exists M. split; [exact HM|]. intros x Hx. specialize (Hlim x Hx).
  unfold norm_cdf. destruct (Rle_dec 0 x) as [_|H]; [|lra].
  assert (H : 1 / 2 - eps < gauss_area x / (2 * half_mass)); [|lra].
  apply Rmult_lt_reg_r with (2 * half_mass); [lra|].
  unfold Rdiv at 2. rewrite Rmult_assoc, Rinv_l; lra.
Qed.

Lemma Rfloor_bounds (x : R) : IZR (Zfloor x) <= x < IZR (Zfloor x) + 1.
Proof. apply Zfloor_bound. Qed.

Lemma Rround_half_even_lower (z : Z) (x : R) :
  IZR z - 1 / 2 < x -> (z <= round_half_even x)%Z.
Proof.
  intros H. destruct (Rfloor_bounds x) as [Hlo Hhi].
  assert (Hf : (z - 1 <= Zfloor x)%Z).
  { apply Zfloor_lub. rewrite minus_IZR. lra. }
  unfold round_half_even.
  destruct (total_order_T (x - IZR (Zfloor x)) (1 / 2)) as [[Hlt|Heq]|Hgt].
  - assert (IZR z < IZR (Zfloor x) + 1) by lra.
    rewrite <- plus_IZR in H0. apply lt_IZR in H0. lia.
  - assert (IZR z < IZR (Zfloor x) + 1) by lra.
    rewrite <- plus_IZR in H0. apply lt_IZR in H0.
    destruct (Z.even (Zfloor x)); lia.
  - lia.
Qed.

Lemma Rround_half_even_upper (z : Z) (x : R) :
  x < IZR z + 1 / 2 -> (round_half_even x <= z)%Z.
Proof.
  intros H. destruct (Rfloor_bounds x) as [Hlo Hhi].
  assert (Hf : (Zfloor x <= z)%Z).
  { assert (Hlt : IZR (Zfloor x) < IZR (z + 1)) by (rewrite plus_IZR; lra).
    apply lt_IZR in Hlt. lia. }
  unfold round_half_even.
  destruct (total_order_T (x - IZR (Zfloor x)) (1 / 2)) as [[Hlt|Heq]|Hgt].
  - exact Hf.
  - assert (IZR (Zfloor x) < IZR z) by lra. apply lt_IZR in H0.
    destruct (Z.even (Zfloor x)); lia.
  - assert (IZR (Zfloor x) < IZR z) by lra. apply lt_IZR in H0. lia.
Qed.

Lemma Rround_half_even_Z (z : Z) : round_half_even (IZR z) = z.
Proof.
  apply Z.le_antisymm.
  - apply Rround_half_even_upper. lra.
  - apply Rround_half_even_lower. lra.
Qed.

Lemma Rround_half_even_mono (x y : R) :
  x <= y -> (round_half_even x <= round_half_even y)%Z.
Proof.
  intros H.
  destruct (Rfloor_bounds x) as [Hxlo Hxhi]. destruct (Rfloor_bounds y) as [Hylo Hyhi].
  assert (Hf : (Zfloor x <= Zfloor y)%Z).
  { apply Zfloor_lub. lra. }
  destruct (Z.eq_dec (Zfloor x) (Zfloor y)) as [Heq|Hne].
  - unfold round_half_even. rewrite <- Heq.
    destruct (total_order_T (x - IZR (Zfloor x)) (1 / 2)) as [[?|?]|?];
      destruct (total_order_T (y - IZR (Zfloor x)) (1 / 2)) as [[?|?]|?];
      try destruct (Z.even (Zfloor x)); try lia; exfalso; lra.
  - transitivity (Zfloor y).
    + apply Rround_half_even_upper.
      assert (Hlt : (Zfloor x + 1 <= Zfloor y)%Z) by lia.
      apply IZR_le in Hlt. rewrite plus_IZR in Hlt. lra.
    + apply Rround_half_even_lower. lra.
Qed.

Lemma pow10_pos (n : nat) : 0 < 10 ^ n.
Proof. apply pow_lt. lra. Qed.

Lemma Rround_mono (x y : R) (n : nat) : x <= y -> round x n <= round y n.
Proof.
  intros H. unfold round. pose proof (pow10_pos n) as Hs.
  apply Rmult_le_compat_r; [left; now apply Rinv_0_lt_compat|].
  apply IZR_le, Rround_half_even_mono. nra.
Qed.

(** A multiple of the unit in the last place is left unchanged. *)
Lemma Rround_grid (z : Z) (n : nat) : round (IZR z / 10 ^ n) n = IZR z / 10 ^ n.
Proof.
  unfold round. pose proof (pow10_pos n) as Hs.
  replace (IZR z / 10 ^ n * 10 ^ n) with (IZR z) by (field; lra).
  now rewrite Rround_half_even_Z.
Qed.

Lemma round_between_grid (a b : Z) (x : R) (n : nat) :
  IZR a / 10 ^ n <= x <= IZR b / 10 ^ n ->
  IZR a / 10 ^ n <= round x n <= IZR b / 10 ^ n.
Proof.
  intros [Ha Hb]. split.
  - rewrite <- (Rround_grid a n). now apply Rround_mono.
  - rewrite <- (Rround_grid b n). now apply Rround_mono.
Qed.

(** Within half a unit in the last place of a grid value, the rounding is
    that value. *)
Lemma round_to_grid (z : Z) (x : R) (n : nat) :
  IZR z / 10 ^ n - / (2 * 10 ^ n) < x <= IZR z / 10 ^ n ->
  round x n = IZR z / 10 ^ n.
Proof.
  intros [Hlo Hhi]. unfold round. pose proof (pow10_pos n) as Hs. f_equal. f_equal.
  assert (H1 : IZR z - 1 / 2 < x * 10 ^ n).
  { apply Rmult_lt_compat_r with (r := 10 ^ n) in Hlo; [|exact Hs].
    replace ((IZR z / 10 ^ n - / (2 * 10 ^ n)) * 10 ^ n) with (IZR z - 1 / 2) in Hlo
      by (field; lra).
    exact Hlo. }
  assert (H2 : x * 10 ^ n <= IZR z).
  { apply Rmult_le_compat_r with (r := 10 ^ n) in Hhi; [|lra].
    replace (IZR z / 10 ^ n * 10 ^ n) with (IZR z) in Hhi by (field; lra).
    exact Hhi. }
  apply Z.le_antisymm.
  - apply Rround_half_even_upper. lra.
  - now apply Rround_half_even_lower.
Qed.

Lemma round_to_grid_from_above (z : Z) (x : R) (n : nat) :
  IZR z / 10 ^ n <= x < IZR z / 10 ^ n + / (2 * 10 ^ n) ->
  round x n = IZR z / 10 ^ n.
Proof.
  intros [Hlo Hhi]. unfold round. pose proof (pow10_pos n) as Hs. f_equal. f_equal.
  assert (H1 : x * 10 ^ n < IZR z + 1 / 2).
  { apply Rmult_lt_compat_r with (r := 10 ^ n) in Hhi; [|exact Hs].
    replace ((IZR z / 10 ^ n + / (2 * 10 ^ n)) * 10 ^ n) with (IZR z + 1 / 2) in Hhi
      by (field; lra).
    exact Hhi. }
  assert (H2 : IZR z <= x * 10 ^ n).
  { apply Rmult_le_compat_r with (r := 10 ^ n) in Hlo; [|lra].
    replace (IZR z / 10 ^ n * 10 ^ n) with (IZR z) in Hlo by (field; lra).
    exact Hlo. }
  apply Z.le_antisymm.
  - now apply Rround_half_even_upper.
  - apply Rround_half_even_lower. lra.
Qed.

Lemma time_to_expiry_pos days : 0 < time_to_expiry days.
Proof.
  unfold time_to_expiry. pose proof (Rmax_r (days / 365) 0.001). lra.
Qed.

Lemma volatility_term_pos iv days : 0 < iv -> 0 < volatility_term iv days.
Proof.
  intros H. unfold volatility_term. apply Rmult_lt_0_compat; [exact H|].
  apply sqrt_lt_R0. apply time_to_expiry_pos.
Qed.

Lemma round6_unit (p : R) : 0 <= p <= 1 -> 0 <= round p 6 <= 1.
Proof.
  intros H.
  pose proof (round_between_grid 0 (10 ^ 6) p 6) as Hg.
  replace (IZR 0 / 10 ^ 6) with 0 in Hg by (unfold Rdiv; ring).
  replace (IZR (10 ^ 6) / 10 ^ 6) with 1 in Hg.
  - now apply Hg.
  - change (IZR (10 ^ 6)) with (IZR 1000000). field_simplify; lra.
Qed.

(** Claim C6.  [black_scholes_prob] is total; when spot <= 0 or strike
    <= 0 or iv <= 0 it returns probability 0.5 with the marker
    "Invalid inputs" and computes nothing else; on valid inputs the
    divisors (strike, and iv * sqrt(T)) are not 0, the argument of the
    logarithm is positive, and the probability lies in [0,1]. *)
Theorem black_scholes_prob_guarded_and_bounded
    (spot strike iv days_to_expiry risk_free : R) (direction : string) :
  let r := black_scholes_prob spot strike iv days_to_expiry direction risk_free in
  ((spot <= 0 \/ strike <= 0 \/ iv <= 0) ->
   true_probability r = 0.5 /\ model r = "Invalid inputs"%string /\ computed r = None) /\
  ((0 < spot /\ 0 < strike /\ 0 < iv) ->
   0 <= true_probability r <= 1 /\
   model r = "Black-Scholes"%string /\
   strike <> 0 /\ volatility_term iv days_to_expiry <> 0 /\ 0 < spot / strike).
Proof.
  intros r. subst r. unfold black_scholes_prob. split.
  - intros H.
    destruct (Rle_dec spot 0); [repeat split|].
    destruct (Rle_dec strike 0); [repeat split|].
    destruct (Rle_dec iv 0); [repeat split|].
    exfalso. lra.
  - intros (Hs & Hk & Hv).
    destruct (Rle_dec spot 0); [lra|].
    destruct (Rle_dec strike 0); [lra|].
    destruct (Rle_dec iv 0); [lra|].
    cbn [true_probability model].
    split; [|split; [reflexivity|split; [lra|split]]].
    + apply round6_unit.
      pose proof (norm_cdf_range (d2_of spot strike iv days_to_expiry risk_free)).
      destruct (String.eqb direction "above"); lra.
    + pose proof (volatility_term_pos iv days_to_expiry Hv). lra.
    + apply Rdiv_lt_0_compat; assumption.
Qed.

(** *** At the money *)

Lemma d2_at_the_money (k iv days risk_free : R) :
  0 < k -> 0 < iv ->
  d2_of k k iv days risk_free
  = (risk_free - iv * iv / 2) * sqrt (time_to_expiry days) / iv.
Proof.
  intros Hk Hv. unfold d2_of, d1_of, volatility_term.
  pose proof (time_to_expiry_pos days) as HT.
  pose proof (sqrt_lt_R0 _ HT) as Hs.
  replace (k / k) with 1 by (field; lra). rewrite ln_1.
  rewrite <- (sqrt_sqrt (time_to_expiry days)) at 1 by lra.
  set (s := sqrt (time_to_expiry days)) in *. clearbody s.
  replace 0.5 with (/ 2) by lra. field. lra.
Qed.

Lemma d2_at_the_money_decreasing (k iv1 iv2 days risk_free : R) :
  0 < k -> 0 <= risk_free -> 0 < iv1 -> iv1 <= iv2 ->
  d2_of k k iv2 days risk_free <= d2_of k k iv1 days risk_free.
Proof.
  intros Hk Hr H1 H12. rewrite !d2_at_the_money by lra.
  pose proof (time_to_expiry_pos days) as HT.
  pose proof (sqrt_lt_R0 _ HT) as Hs.
  set (s := sqrt (time_to_expiry days)) in *.
  replace ((risk_free - iv2 * iv2 / 2) * s / iv2)
    with (s * (risk_free * / iv2 - iv2 / 2)) by (field; lra).
  replace ((risk_free - iv1 * iv1 / 2) * s / iv1)
    with (s * (risk_free * / iv1 - iv1 / 2)) by (field; lra).
  apply Rmult_le_compat_l; [lra|].
  assert (Hinv : / iv2 <= / iv1) by (apply Rinv_le_contravar; lra).
  nra.
Qed.

Lemma true_probability_above (k iv days risk_free : R) :
  0 < k -> 0 < iv ->
  true_probability (black_scholes_prob k k iv days "above" risk_free)
  = round (norm_cdf (d2_of k k iv days risk_free)) 6.
Proof.
  intros Hk Hv. unfold black_scholes_prob.
  destruct (Rle_dec k 0); [lra|]. destruct (Rle_dec iv 0); [lra|]. reflexivity.
Qed.

Lemma true_probability_below (k iv days risk_free : R) :
  0 < k -> 0 < iv ->
  true_probability (black_scholes_prob k k iv days "below" risk_free)
  = round (1.0 - norm_cdf (d2_of k k iv days risk_free)) 6.
Proof.
  intros Hk Hv. unfold black_scholes_prob.
  destruct (Rle_dec k 0); [lra|]. destruct (Rle_dec iv 0); [lra|]. reflexivity.
Qed.

Lemma round6_half : round (1 / 2) 6 = 1 / 2.
Proof.
  replace (1 / 2) with (IZR 500000 / 10 ^ 6) by (field_simplify; lra).
  apply Rround_grid.
Qed.

Lemma round6_lower (z : Z) (p : R) : IZR z / 10 ^ 6 <= p -> IZR z / 10 ^ 6 <= round p 6.
Proof. intros H. rewrite <- (Rround_grid z 6). now apply Rround_mono. Qed.

(** Small volatilities push [d2] beyond any bound. *)
Lemma d2_at_the_money_unbounded (k days M : R) :
  0 < k ->
  exists delta, 0 < delta /\
    forall iv, 0 < iv < delta -> M <= d2_of k k iv days risk_free_default.
Proof.
  intros Hk.
  pose proof (time_to_expiry_pos days) as HT.
  pose proof (sqrt_lt_R0 _ HT) as Hs.
  set (s := sqrt (time_to_expiry days)) in *.
  set (B := Rmax M 0 + 1).
  assert (HB : 0 < B) by (unfold B; pose proof (Rmax_r M 0); lra).
  assert (HBM : M <= B) by (unfold B; pose proof (Rmax_l M 0); lra).
  exists (Rmin 0.1 (0.04 * s / B)). split.
  - apply Rmin_glb_lt; [lra|]. apply Rdiv_lt_0_compat; lra.
  - intros iv [Hv0 Hv].
    assert (Hv1 : iv < 0.1) by (pose proof (Rmin_l 0.1 (0.04 * s / B)); lra).
    assert (Hv2 : iv < 0.04 * s / B) by (pose proof (Rmin_r 0.1 (0.04 * s / B)); lra).
    rewrite d2_at_the_money by lra. fold s. unfold risk_free_default.
    apply Rle_trans with B; [exact HBM|].
    apply Rmult_le_reg_r with iv; [exact Hv0|].
    replace ((0.045 - iv * iv / 2) * s / iv * iv) with ((0.045 - iv * iv / 2) * s)
      by (field; lra).
    assert (Hiv : B * iv < 0.04 * s).
    { apply Rmult_lt_compat_l with (r := B) in Hv2; [|exact HB].
      replace (B * (0.04 * s / B)) with (0.04 * s) in Hv2 by (field; lra). exact Hv2. }
    assert (0.04 <= 0.045 - iv * iv / 2) by nra.
    nra.
Qed.

(** Claim C7, as stated, fails.  At the money, with one year to expiry,
    the output does not tend to 0.5 as iv tends to 0: it stays at distance
    at least 0.1 from 0.5 for volatilities as small as one likes. *)
Lemma at_the_money_probability_leaves_one_half :
  exists eps, 0 < eps /\
    forall delta, 0 < delta ->
      exists iv, 0 < iv < delta /\
        eps <= Rabs (true_probability
                       (black_scholes_prob 100 100 iv 365 "above" risk_free_default)
                     - 0.5).
Proof.
  exists 0.1. split; [lra|]. intros delta Hd.
  exists (Rmin (delta / 2) 0.04).
  assert (H0 : 0 < Rmin (delta / 2) 0.04) by (apply Rmin_glb_lt; lra).
  assert (H1 : Rmin (delta / 2) 0.04 <= delta / 2) by apply Rmin_l.
  assert (H2 : Rmin (delta / 2) 0.04 <= 0.04) by apply Rmin_r.
  set (iv := Rmin (delta / 2) 0.04) in *.
  split; [lra|].
  rewrite true_probability_above by lra.
  assert (Hd2 : 1 <= d2_of 100 100 iv 365 risk_free_default).
  { rewrite d2_at_the_money by lra. unfold time_to_expiry, risk_free_default.
    replace (365 / 365) with 1 by lra. rewrite Rmax_left by lra. rewrite sqrt_1.
    apply Rmult_le_reg_r with iv; [exact H0|].
    replace ((0.045 - iv * iv / 2) * 1 / iv * iv) with (0.045 - iv * iv / 2)
      by (field; lra).
    nra. }
  pose proof (norm_cdf_mono _ _ Hd2) as Hm. pose proof norm_cdf_1_lower as H58.
  assert (Hr : IZR 625000 / 10 ^ 6
               <= round (norm_cdf (d2_of 100 100 iv 365 risk_free_default)) 6).
  { apply round6_lower. replace (IZR 625000 / 10 ^ 6) with (5 / 8) by (field_simplify; lra).
    lra. }
  replace (IZR 625000 / 10 ^ 6) with (5 / 8) in Hr by (field_simplify; lra).
  rewrite Rabs_right; lra.
Qed.

(** Claim C7, amended.  At the money (spot = strike), with the default
    risk-free rate and direction "above", the output does not increase
    with iv, is 0.5 at iv = 0.30 and at least 0.5 below it; [d2] grows
    beyond any bound as iv tends to 0 from above, and the output is 1 for
    every small enough iv (0 for direction "below"): it moves away from
    0.5, towards 1. *)
Theorem at_the_money_probability_tends_to_one (k days : R) :
  0 < k ->
  let p := fun iv =>
    true_probability (black_scholes_prob k k iv days "above" risk_free_default) in
  (forall iv1 iv2, 0 < iv1 -> iv1 <= iv2 -> p iv2 <= p iv1) /\
  p 0.3 = 0.5 /\
  (forall iv, 0 < iv -> iv <= 0.3 -> 0.5 <= p iv) /\
  (forall M, exists delta, 0 < delta /\
     forall iv, 0 < iv < delta -> M <= d2_of k k iv days risk_free_default) /\
  (exists delta, 0 < delta /\ forall iv, 0 < iv < delta -> p iv = 1) /\
  (exists delta, 0 < delta /\ forall iv, 0 < iv < delta ->
     true_probability (black_scholes_prob k k iv days "below" risk_free_default) = 0).
Proof.
  intros Hk p.
  assert (Hmono : forall iv1 iv2, 0 < iv1 -> iv1 <= iv2 -> p iv2 <= p iv1).
  { intros iv1 iv2 H1 H12. unfold p. rewrite !true_probability_above by lra.
    apply Rround_mono, norm_cdf_mono, d2_at_the_money_decreasing;
      unfold risk_free_default; lra. }
  assert (Hhalf : p 0.3 = 0.5).
  { unfold p. rewrite true_probability_above by lra.
    rewrite d2_at_the_money by lra. unfold risk_free_default.
    replace ((0.045 - 0.3 * 0.3 / 2) * sqrt (time_to_expiry days) / 0.3) with 0
      by (field_simplify; lra).
    rewrite norm_cdf_0. rewrite round6_half. lra. }
  split; [exact Hmono|]. split; [exact Hhalf|]. split.
  { intros iv H0 H3. rewrite <- Hhalf. now apply Hmono. }
  split; [intros M; now apply d2_at_the_money_unbounded|].
  destruct (norm_cdf_limit (/ (4 * 10 ^ 6))) as (M & HM & Hlim).
  { apply Rinv_0_lt_compat. pose proof (pow10_pos 6). lra. }
  destruct (d2_at_the_money_unbounded k days M Hk) as (delta & Hd & Hd2).
  assert (Hgrid : / (4 * 10 ^ 6) < / (2 * 10 ^ 6)).
  { pose proof (pow10_pos 6). apply Rinv_lt_contravar; nra. }
  assert (Hone : IZR (10 ^ 6) / 10 ^ 6 = 1).
  { change (IZR (10 ^ 6)) with (IZR 1000000). field_simplify; lra. }
  split.
  - exists delta. split; [exact Hd|]. intros iv Hiv. unfold p.
    rewrite true_probability_above by lra.
    specialize (Hlim _ (Hd2 iv Hiv)).
    pose proof (norm_cdf_range (d2_of k k iv days risk_free_default)) as [_ Hle].
    rewrite <- Hone. apply round_to_grid. rewrite Hone. lra.
  - exists delta. split; [exact Hd|]. intros iv Hiv.
    rewrite true_probability_below by lra.
    specialize (Hlim _ (Hd2 iv Hiv)).
    pose proof (norm_cdf_range (d2_of k k iv days risk_free_default)) as [_ Hle].
    set (v := norm_cdf (d2_of k k iv days risk_free_default)) in *.
    assert (Hzero : IZR 0 / 10 ^ 6 = 0) by (unfold Rdiv; ring).
    rewrite <- Hzero. apply round_to_grid_from_above. rewrite Hzero. lra.
Qed.

(** At a strike of 100 with one year to expiry. *)
Lemma at_the_money_probability_tends_to_one_witness :
  true_probability (black_scholes_prob 100 100 0.3 365 "above" risk_free_default) = 0.5.
Proof.
  destruct (at_the_money_probability_tends_to_one 100 365) as (_ & H & _);
    [lra|exact H].
Defined.

(** *** Complement, monotonicity and the floor of the time to expiry *)

(** Rounding commutes with the reflection in an even integer. *)
Lemma Rround_half_even_reflect (N : Z) (y : R) :
  Z.even N = true ->
  round_half_even (IZR N - y) = (N - round_half_even y)%Z.
Proof.
  intros HN. destruct (Rfloor_bounds y) as [Hlo Hhi].
  set (f := Zfloor y) in *.
  assert (Hrhe : round_half_even y =
                 match total_order_T (y - IZR f) (1 / 2) with
                 | inleft (left _) => f
                 | inleft (right _) => if Z.even f then f else (f + 1)%Z
                 | inright _ => (f + 1)%Z
                 end) by reflexivity.
  destruct (total_order_T (y - IZR f) (1 / 2)) as [[Hlt|Heq]|Hgt]; rewrite Hrhe.
  - destruct (Req_dec y (IZR f)) as [E|E].
    + rewrite E, <- minus_IZR. apply Rround_half_even_Z.
    + apply Z.le_antisymm.
      * apply Rround_half_even_upper. rewrite minus_IZR. lra.
      * apply Rround_half_even_lower. rewrite minus_IZR. lra.
  - assert (Ey : IZR N - y = IZR (N - f - 1) + 1 / 2).
    { rewrite !minus_IZR. lra. }
    assert (Hfl : Zfloor (IZR N - y) = (N - f - 1)%Z).
    { apply Zfloor_eq. rewrite Ey. lra. }
    unfold round_half_even. rewrite Hfl.
    destruct (total_order_T (IZR N - y - IZR (N - f - 1)) (1 / 2)) as [[H|H]|H];
      try (exfalso; lra).
    rewrite !Z.even_sub, HN. change (Z.even 1) with false.
    destruct (Z.even f); cbn; lia.
  - apply Z.le_antisymm.
    + apply Rround_half_even_upper. rewrite minus_IZR, plus_IZR. lra.
    + apply Rround_half_even_lower. rewrite minus_IZR, plus_IZR. lra.
Qed.

Lemma round6_complement (p : R) : round p 6 + round (1.0 - p) 6 = 1.
Proof.
  unfold round.
  replace ((1.0 - p) * 10 ^ 6) with (IZR 1000000 - p * 10 ^ 6) by lra.
  rewrite Rround_half_even_reflect by reflexivity.
  rewrite minus_IZR. lra.
Qed.

Lemma black_scholes_prob_valid (spot strike iv days risk_free : R) (direction : string) :
  0 < spot -> 0 < strike -> 0 < iv ->
  black_scholes_prob spot strike iv days direction risk_free
  = let d1 := d1_of spot strike iv days risk_free in
    let d2 := d2_of spot strike iv days risk_free in
    mk spot strike iv days
       (Some (mkDetails (time_to_expiry days) (round d1 4) (round d2 4)
                        (round (norm_cdf d2) 6) (round (1.0 - norm_cdf d2) 6)
                        (round (norm_cdf d1) 4)))
       (round (if String.eqb direction "above" then norm_cdf d2 else 1.0 - norm_cdf d2) 6)
       "Black-Scholes".
Proof.
  intros Hs Hk Hv. unfold black_scholes_prob.
  destruct (Rle_dec spot 0); [lra|].
  destruct (Rle_dec strike 0); [lra|].
  destruct (Rle_dec iv 0); [lra|]. reflexivity.
Qed.

(** Property X28.  On valid inputs (spot, strike and volatility positive)
    the two directions of [black_scholes_prob] are complementary after
    rounding too: the reported probability of "above" plus that of "below"
    is exactly 1, as are prob_above plus prob_below; and every direction
    other than the text "above" is read as "below". *)
Theorem black_scholes_sides_sum_to_one (spot strike iv days risk_free : R) :
  0 < spot -> 0 < strike -> 0 < iv ->
  let above := black_scholes_prob spot strike iv days "above" risk_free in
  true_probability above
  + true_probability (black_scholes_prob spot strike iv days "below" risk_free) = 1 /\
  (exists dt, computed above = Some dt /\
              prob_above dt + prob_below dt = 1 /\
              true_probability above = prob_above dt) /\
  (forall direction, direction <> "above"%string ->
     true_probability (black_scholes_prob spot strike iv days direction risk_free)
     = true_probability (black_scholes_prob spot strike iv days "below" risk_free)).
Proof.
  intros Hs Hk Hv above. subst above.
  rewrite !(black_scholes_prob_valid _ _ _ _ _ _ Hs Hk Hv).
  cbn [true_probability computed String.eqb Ascii.eqb Bool.eqb].
  split; [apply round6_complement|]. split.
  - eexists. split; [reflexivity|]. cbn [prob_above prob_below].
    split; [apply round6_complement|reflexivity].
  - intros direction Hd. rewrite (black_scholes_prob_valid _ _ _ _ _ _ Hs Hk Hv).
    cbn [true_probability]. apply String.eqb_neq in Hd. now rewrite Hd.
Qed.

Lemma d2_of_monotone (spot1 strike1 spot2 strike2 iv days risk_free : R) :
  0 < spot1 -> 0 < strike1 -> 0 < spot2 -> 0 < strike2 -> 0 < iv ->
  spot1 / strike1 <= spot2 / strike2 ->
  d2_of spot1 strike1 iv days risk_free <= d2_of spot2 strike2 iv days risk_free.
Proof.
  intros H1 K1 H2 K2 Hv Hle. unfold d2_of, d1_of.
  pose proof (volatility_term_pos iv days Hv) as Hvt.
  set (vt := volatility_term iv days) in *. clearbody vt.
  set (c := (risk_free + 0.5 * iv ^ 2) * time_to_expiry days). clearbody c.
  assert (Hln : ln (spot1 / strike1) <= ln (spot2 / strike2)).
  { assert (0 < spot1 / strike1) by (apply Rdiv_lt_0_compat; assumption).
    destruct Hle as [Hlt|Heq]; [left; now apply ln_increasing|rewrite Heq; lra]. }
  apply Rplus_le_compat_r. apply Rmult_le_compat_r; [left; now apply Rinv_0_lt_compat|lra].
Qed.

(** At the money, 30 days, volatility 0.3. *)
Lemma black_scholes_sides_sum_to_one_witness :
  true_probability (black_scholes_prob 100 100 0.3 30 "above" risk_free_default)
  + true_probability (black_scholes_prob 100 100 0.3 30 "below" risk_free_default) = 1.
Proof.
  destruct (black_scholes_sides_sum_to_one 100 100 0.3 30 risk_free_default) as [H _];
    [lra|lra|lra|exact H].
Defined.

(** Property X29.  On valid inputs, with the volatility, the days and the
    rate fixed, the reported probability of finishing above the strike
    does not decrease when spot / strike increases (a higher spot, or a
    lower strike), and the probability of finishing below does not
    increase. *)
Theorem black_scholes_monotone_in_moneyness
    (spot1 strike1 spot2 strike2 iv days risk_free : R) :
  0 < spot1 -> 0 < strike1 -> 0 < spot2 -> 0 < strike2 -> 0 < iv ->
  spot1 / strike1 <= spot2 / strike2 ->
  true_probability (black_scholes_prob spot1 strike1 iv days "above" risk_free)
  <= true_probability (black_scholes_prob spot2 strike2 iv days "above" risk_free) /\
  true_probability (black_scholes_prob spot2 strike2 iv days "below" risk_free)
  <= true_probability (black_scholes_prob spot1 strike1 iv days "below" risk_free).
Proof.
  intros H1 K1 H2 K2 Hv Hle.
  rewrite !black_scholes_prob_valid by assumption.
  cbn [true_probability String.eqb Ascii.eqb Bool.eqb].
  pose proof (d2_of_monotone _ _ _ _ iv days risk_free H1 K1 H2 K2 Hv Hle) as Hd.
  apply norm_cdf_mono in Hd.
  split; apply Rround_mono; lra.
Qed.

(** A strike of 110 against a strike of 100, for a spot of 100. *)
Lemma black_scholes_monotone_in_moneyness_witness :
  true_probability (black_scholes_prob 100 110 0.3 30 "above" risk_free_default)
  <= true_probability (black_scholes_prob 100 100 0.3 30 "above" risk_free_default).
Proof.
  destruct (black_scholes_monotone_in_moneyness 100 110 100 100 0.3 30 risk_free_default)
    as [H _]; [lra|lra|lra|lra|lra|lra|exact H].
Defined.

(** Property X30.  The time to expiry has a floor of 0.001 year: for every
    number of days up to 0.365, negative ones included, [black_scholes_prob]
    computes with T = 0.001 and reports the same probability and the same
    details as for 0.365 days. *)
Theorem black_scholes_expiry_floor (spot strike iv days risk_free : R) (direction : string) :
  days <= 0.365 ->
  time_to_expiry days = 0.001 /\
  true_probability (black_scholes_prob spot strike iv days direction risk_free)
  = true_probability (black_scholes_prob spot strike iv 0.365 direction risk_free) /\
  computed (black_scholes_prob spot strike iv days direction risk_free)
  = computed (black_scholes_prob spot strike iv 0.365 direction risk_free).
Proof.
  intros Hd.
  assert (HT : forall d, d <= 0.365 -> time_to_expiry d = 0.001).
  { intros d H. unfold time_to_expiry. apply Rmax_right. lra. }
  assert (E : time_to_expiry days = time_to_expiry 0.365)
    by (rewrite !HT; [reflexivity|lra|exact Hd]).
  split; [now apply HT|].
  unfold black_scholes_prob, d2_of, d1_of, volatility_term. rewrite E.
  destruct (Rle_dec spot 0); [split; reflexivity|].
  destruct (Rle_dec strike 0); [split; reflexivity|].
  destruct (Rle_dec iv 0); split; reflexivity.
Qed.

(** An event that expired ten days ago. *)
Lemma black_scholes_expiry_floor_witness :
  true_probability (black_scholes_prob 100 110 0.3 (-10) "above" risk_free_default)
  = true_probability (black_scholes_prob 100 110 0.3 0.365 "above" risk_free_default).
Proof.
  destruct (black_scholes_expiry_floor 100 110 0.3 (-10) risk_free_default "above")
    as (_ & H & _); [lra|exact H].
Defined.

End BlackScholesFacts.

(** * Further properties of the code *)

(** ** The return calculator *)

Lemma round2_integer (x : Q) : exists z : Z, Py.round x 2 == inject_Z z / 100.
Proof. exists (Py.round_half_even (x * scale 2)). rewrite round_unfold. reflexivity. Qed.

(** Amounts on the cent grid that are less than two cents apart are at
    most one cent apart. *)
Lemma cents_apart (a b c : Z) :
  Qabs (inject_Z a / 100 - (inject_Z b / 100 - inject_Z c / 100)) < (2 # 100) ->
  Qabs (inject_Z a / 100 - (inject_Z b / 100 - inject_Z c / 100)) <= (1 # 100).
Proof.
  intros H.
  assert (E : inject_Z a / 100 - (inject_Z b / 100 - inject_Z c / 100)
              == inject_Z (a - b + c) / 100).
  { unfold Z.sub. rewrite !inject_Z_plus, inject_Z_opp. field. }
  rewrite E in *. set (k := (a - b + c)%Z) in *. clearbody k.
  apply Qabs_Qlt_condition in H. destruct H as [H1 H2].
  apply Qabs_Qle_condition.
  assert (K1 : (-2 < k)%Z).
  { rewrite Zlt_Qlt. change (inject_Z (-2)) with (-2). qlra. }
  assert (K2 : (k < 2)%Z).
  { rewrite Zlt_Qlt. change (inject_Z 2) with 2. qlra. }
  assert (K3 : (-1 <= k)%Z) by lia. assert (K4 : (k <= 1)%Z) by lia.
  rewrite Zle_Qle in K3, K4. change (inject_Z (-1)) with (-1) in K3.
  change (inject_Z 1) with 1 in K4. split; qlra.
Qed.

(** Property X1.  [polyscalping_roi]: for a positive buy price and a
    positive number of shares the ROI percentage is
    round((sell/buy - 1) x 100, 2), whatever the number of shares; when the
    cost is not positive it is 0 (no division); selling at or above the buy
    price never gives a negative net profit; and the three rounded amounts
    agree up to one cent: net_profit is within 0.01 of sell_revenue -
    buy_cost. *)
Theorem polyscalping_roi_price_ratio (buy_price sell_price num_shares : Q) :
  let r := polyscalping_roi buy_price sell_price num_shares in
  (0 < buy_price -> 0 < num_shares ->
     Roi.roi_percent r == Py.round ((sell_price / buy_price - 1) * 100) 2) /\
  (buy_price * num_shares <= 0 -> Roi.roi_percent r == 0) /\
  (0 <= num_shares -> buy_price <= sell_price -> 0 <= Roi.net_profit r) /\
  Qabs (Roi.net_profit r - (Roi.sell_revenue r - Roi.buy_cost r)) <= (1 # 100).
Proof.
  intros r. subst r. unfold polyscalping_roi.
  cbn [Roi.roi_percent Roi.net_profit Roi.sell_revenue Roi.buy_cost].
  split; [|split; [|split]].
  - intros Hb Hn.
    assert (Hc : 0 < buy_price * num_shares) by (apply Qmult_lt_0_compat; assumption).
    destruct (lt_cases 0 (buy_price * num_shares)) as [[_ ->]|[H _]]; [|lra].
    apply round_proper; [|reflexivity]. field. split; lra.
  - intros Hc.
    destruct (lt_cases 0 (buy_price * num_shares)) as [[H _]|[_ ->]]; [lra|].
    reflexivity.
  - intros Hn Hp. apply round_ge_grid; [reflexivity|].
    assert (0 <= (sell_price - buy_price) * num_shares)
      by (apply Qmult_le_0_compat; lra).
    lra.
  - set (c := buy_price * num_shares). set (s := sell_price * num_shares).
    destruct (round_near c 2) as [C1 C2]. destruct (round_near s 2) as [S1 S2].
    destruct (round_near (s - c) 2) as [N1 N2].
    change (scale 2) with 100 in *.
    destruct (round2_integer c) as [zc Ec]. destruct (round2_integer s) as [zs Es].
    destruct (round2_integer (s - c)) as [zn En].
    rewrite Ec, Es, En in *.
    apply cents_apart. apply Qabs_Qlt_condition. clearbody c s. split; qlra.
Qed.

(** ** The arbitrage detector: the fields of a result *)

Lemma abs_nonneg (x : Q) : 0 <= Py.abs x.
Proof. destruct (abs_cases x) as [[H ->]|[H ->]]; lra. Qed.

(** Property X2.  The fields of a result of [detect_arbitrage] agree with
    one another: PASS comes only with FAIR, CHEAP only with BUY YES,
    EXPENSIVE only with BUY NO, and ARBITRAGE never with PASS; the
    mispricing label is fair, underpriced or overpriced exactly when the
    recommendation is PASS, BUY YES or BUY NO; the colour is purple,
    yellow, green or red exactly when the verdict is ARBITRAGE, FAIR,
    CHEAP or EXPENSIVE; the two edge figures are never negative, and the
    edge percentage is 0 when the probability is not positive (no
    division). *)
Theorem detect_arbitrage_fields_agree (price prob : Q) :
  let r := detect_arbitrage price prob in
  (Arb.recommendation r = PASS -> Arb.verdict r = FAIR) /\
  (Arb.verdict r = CHEAP -> Arb.recommendation r = BUY_YES) /\
  (Arb.verdict r = EXPENSIVE -> Arb.recommendation r = BUY_NO) /\
  (Arb.verdict r = ARBITRAGE -> Arb.recommendation r <> PASS) /\
  (Arb.mispricing r = fair <-> Arb.recommendation r = PASS) /\
  (Arb.mispricing r = underpriced <-> Arb.recommendation r = BUY_YES) /\
  (Arb.mispricing r = overpriced <-> Arb.recommendation r = BUY_NO) /\
  (Arb.color r = "purple"%string <-> Arb.verdict r = ARBITRAGE) /\
  (Arb.color r = "yellow"%string <-> Arb.verdict r = FAIR) /\
  (Arb.color r = "green"%string <-> Arb.verdict r = CHEAP) /\
  (Arb.color r = "red"%string <-> Arb.verdict r = EXPENSIVE) /\
  0 <= Arb.edge_absolute r /\
  0 <= Arb.edge_percent r /\
  (prob <= 0 -> Arb.edge_percent r == 0).
Proof.
  intros r. subst r. unfold detect_arbitrage.
  pose proof (abs_nonneg (price - prob)) as He. fold (arbitrage_edge price prob) in He.
  set (e := arbitrage_edge price prob) in *. clearbody e.
  assert (Hpct : 0 <= (if 0 <? prob then e / prob * 100 else 0)).
  { destruct (lt_cases 0 prob) as [[H ->]|[H ->]]; [|lra].
    assert (0 <= e / prob) by (apply div_nonneg; assumption). lra. }
  assert (Hr4 : 0 <= Py.round e 4) by (apply round_ge_grid; [reflexivity|exact He]).
  assert (Hr2 : 0 <= Py.round (if 0 <? prob then e / prob * 100 else 0) 2)
    by (apply round_ge_grid; [reflexivity|exact Hpct]).
  assert (Hz : prob <= 0 -> Py.round (if 0 <? prob then e / prob * 100 else 0) 2 == 0).
  { intros H. destruct (lt_cases 0 prob) as [[H' _]|[_ ->]]; [lra|reflexivity]. }
  destruct (0.08 <=? e) eqn:E1; destruct (e <? 0.02) eqn:E2;
    destruct (e <? 0.01) eqn:E3; destruct (price <? prob) eqn:E4;
    cbn [Arb.verdict Arb.recommendation Arb.mispricing Arb.color
         Arb.edge_absolute Arb.edge_percent];
    try (apply le_spec in E1); try (apply le_false in E1);
    try (apply lt_spec in E2); try (apply lt_false in E2);
    try (apply lt_spec in E3); try (apply lt_false in E3);
    try (exfalso; lra);
    repeat split; try assumption; try discriminate; try reflexivity;
    intros; try discriminate; try reflexivity.
Qed.

(** ** Kelly sizing: the signal and the rejected sides *)

(** The exact full-Kelly fraction and expected value of a side that passes
    the guard. *)
Lemma kelly_side_full_kelly (bankroll true_prob poly_price : Q) (sd : side) :
  let price := side_price sd poly_price in
  let p := side_prob sd true_prob in
  0 < price -> price < 1 -> 0 < p ->
  exists s,
    kelly_side bankroll true_prob poly_price sd = Sized s /\
    Sizing.full_kelly_pct s
      == Py.round (Py.max 0 (Py.min ((p - price) / (1 - price)) 0.35) * 100) 2 /\
    Sizing.ev_per_dollar s == Py.round (p / price - 1) 4.
Proof.
  intros price p Hp0 Hp1 Hq. unfold kelly_side. fold price p.
  destruct (le_cases price 0) as [[H _]|[_ ->]]; [lra|].
  destruct (le_cases 1 price) as [[H _]|[_ ->]]; [lra|].
  destruct (le_cases p 0) as [[H _]|[_ ->]]; [lra|].
  cbn [orb].
  match goal with |- context [position_fraction ?a ?b ?c] =>
    destruct (position_fraction a b c) as [pct conf] end.
  eexists. split; [reflexivity|].
  cbn [Sizing.full_kelly_pct Sizing.ev_per_dollar].
  assert (Hb : 0 < 1.0 / price - 1.0).
  { assert (E : 1.0 / price * price == 1) by (field; lra).
    assert (0 < 1.0 / price) by (apply Qlt_shift_div_l; lra).
    assert (0 < (1 - price) * (1.0 / price)) by (apply Qmult_lt_0_compat; lra).
    lra. }
  destruct (lt_cases 0 (1.0 / price - 1.0)) as [[_ ->]|[H _]]; [|lra].
  split.
  - apply round_proper; [|reflexivity].
    assert (E : ((1.0 / price - 1.0) * p - (1.0 - p)) / (1.0 / price - 1.0)
                == (p - price) / (1 - price)).
    { field. split; lra. }
    rewrite E. reflexivity.
  - apply round_proper; [|reflexivity]. field. lra.
Qed.

Lemma round_zero (n : nat) : Py.round 0 n == 0.
Proof.
  rewrite round_unfold. assert (E : 0 * scale n == inject_Z 0) by (unfold inject_Z; ring).
  rewrite E, round_half_even_Z. unfold Qdiv, inject_Z. ring.
Qed.

Lemma capped_fraction_zero (f : Q) : f <= 0 -> Py.max 0 (Py.min f 0.35) == 0.
Proof.
  intros Hf. destruct (max_cases 0 (Py.min f 0.35)) as [[H ->]|[_ ->]]; [|reflexivity].
  destruct (min_cases f 0.35) as [[G E]|[G E]]; rewrite E in H; lra.
Qed.

(** Property X3.  For a side that passes the guard of [kelly_sizing]
    (price in (0,1), probability p > 0), full_kelly_pct is
    round(100 x max(0, min((p - price) / (1 - price), 0.35)), 2), between 0
    and 35, and ev_per_dollar is round(p / price - 1, 4): there is no Kelly
    signal and no positive expected value unless the probability exceeds
    the price, and the expected value is not negative when it does. *)
Theorem kelly_side_signal_follows_edge (bankroll true_prob poly_price : Q) (sd : side) :
  let price := side_price sd poly_price in
  let p := side_prob sd true_prob in
  0 < price -> price < 1 -> 0 < p ->
  exists s,
    kelly_side bankroll true_prob poly_price sd = Sized s /\
    Sizing.full_kelly_pct s
      == Py.round (Py.max 0 (Py.min ((p - price) / (1 - price)) 0.35) * 100) 2 /\
    Sizing.ev_per_dollar s == Py.round (p / price - 1) 4 /\
    0 <= Sizing.full_kelly_pct s /\ Sizing.full_kelly_pct s <= 35 /\
    (p <= price -> Sizing.full_kelly_pct s == 0 /\ Sizing.ev_per_dollar s <= 0) /\
    (price <= p -> 0 <= Sizing.ev_per_dollar s).
Proof.
  intros price p Hp0 Hp1 Hq.
  destruct (kelly_side_full_kelly bankroll true_prob poly_price sd Hp0 Hp1 Hq)
    as (s & Hs & Hfk & Hev).
  fold price p in Hfk, Hev.
  exists s. split; [exact Hs|]. split; [exact Hfk|]. split; [exact Hev|].
  rewrite Hfk, Hev.
  set (f := (p - price) / (1 - price)).
  pose proof (max_ge_l 0 (Py.min f 0.35)) as M1.
  assert (M2 : Py.max 0 (Py.min f 0.35) <= 0.35).
  { destruct (max_cases 0 (Py.min f 0.35)) as [[_ ->]|[_ ->]]; [apply min_le_r|lra]. }
  assert (Hr : p / price * price == p) by (field; lra).
  split; [apply round_ge_grid; [reflexivity|lra]|].
  split; [apply round_le_grid; [reflexivity|lra]|].
  split.
  - intros Hle. split.
    + assert (Hf : f <= 0).
      { unfold f. apply Qle_shift_div_r; lra. }
      rewrite (capped_fraction_zero f Hf). apply round_zero.
    + apply round_le_grid; [reflexivity|].
      assert (p / price <= 1) by (apply Qle_shift_div_r; lra). lra.
  - intros Hle. apply round_ge_grid; [reflexivity|].
    assert (1 <= p / price) by (apply Qle_shift_div_l; lra). lra.
Qed.

(** A probability of 0.6 against a price of 0.5. *)
Lemma kelly_side_signal_follows_edge_witness :
  exists s, kelly_side 1000 0.6 0.5 YES = Sized s /\
            0 <= Sizing.full_kelly_pct s /\ Sizing.full_kelly_pct s <= 35 /\
            0 <= Sizing.ev_per_dollar s.
Proof.
  destruct (kelly_side_signal_follows_edge 1000 0.6 0.5 YES)
    as (s & H1 & _ & _ & H2 & H3 & _ & H4); try reflexivity.
  exists s. split; [exact H1|]. split; [exact H2|]. split; [exact H3|].
  apply H4. cbn. discriminate.
Defined.

(** Property X4.  When the price and the probability are both strictly
    between 0 and 1, [kelly_sizing] sizes both sides, and at most one of
    them has a Kelly signal or a positive expected value: full_kelly_pct is
    0 on YES when the probability does not exceed the price, and 0 on NO
    when the price does not exceed the probability. *)
Theorem kelly_sizing_signal_on_one_side (bankroll true_prob poly_price : Q) :
  0 < poly_price -> poly_price < 1 -> 0 < true_prob -> true_prob < 1 ->
  exists sy sn,
    Kelly.yes (kelly_sizing bankroll true_prob poly_price) = Sized sy /\
    Kelly.no (kelly_sizing bankroll true_prob poly_price) = Sized sn /\
    (Sizing.full_kelly_pct sy == 0 \/ Sizing.full_kelly_pct sn == 0) /\
    (Sizing.ev_per_dollar sy <= 0 \/ Sizing.ev_per_dollar sn <= 0) /\
    (true_prob <= poly_price -> Sizing.full_kelly_pct sy == 0) /\
    (poly_price <= true_prob -> Sizing.full_kelly_pct sn == 0).
Proof.
  intros Hy0 Hy1 Hp0 Hp1.
  destruct (kelly_side_full_kelly bankroll true_prob poly_price YES)
    as (sy & Hsy & Hfy & Hey); cbn [side_price side_prob]; try lra.
  destruct (kelly_side_full_kelly bankroll true_prob poly_price NO)
    as (sn & Hsn & Hfn & Hen); cbn [side_price side_prob]; try lra.
  cbn [side_price side_prob] in *.
  exists sy, sn. split; [exact Hsy|]. split; [exact Hsn|].
  assert (Zy : true_prob <= poly_price ->
               Sizing.full_kelly_pct sy == 0 /\ Sizing.ev_per_dollar sy <= 0).
  { intros Hle. rewrite Hfy, Hey. split.
    - assert (Hf : (true_prob - poly_price) / (1 - poly_price) <= 0)
        by (apply Qle_shift_div_r; lra).
      rewrite (capped_fraction_zero _ Hf). apply round_zero.
    - apply round_le_grid; [reflexivity|].
      assert (true_prob / poly_price <= 1) by (apply Qle_shift_div_r; lra). lra. }
  assert (Zn : poly_price <= true_prob ->
               Sizing.full_kelly_pct sn == 0 /\ Sizing.ev_per_dollar sn <= 0).
  { intros Hle. rewrite Hfn, Hen. split.
    - assert (Hf : (1.0 - true_prob - (1.0 - poly_price)) / (1 - (1.0 - poly_price)) <= 0)
        by (apply Qle_shift_div_r; lra).
      rewrite (capped_fraction_zero _ Hf). apply round_zero.
    - apply round_le_grid; [reflexivity|].
      assert ((1.0 - true_prob) / (1.0 - poly_price) <= 1) by (apply Qle_shift_div_r; lra).
      lra. }
  destruct (Qlt_le_dec poly_price true_prob) as [Hlt|Hle].
  - destruct (Zn ltac:(lra)) as [Z1 Z2].
    split; [now right|]. split; [now right|]. split; [intros; apply Zy; assumption|].
    intros _. exact Z1.
  - destruct (Zy Hle) as [Z1 Z2].
    split; [now left|]. split; [now left|]. split; [intros _; exact Z1|].
    intros H. apply Zn. exact H.
Qed.

(** A probability of 0.6 against a price of 0.5: the signal is on YES. *)
Lemma kelly_sizing_signal_on_one_side_witness :
  exists sy sn,
    Kelly.yes (kelly_sizing 1000 0.6 0.5) = Sized sy /\
    Kelly.no (kelly_sizing 1000 0.6 0.5) = Sized sn /\
    Sizing.full_kelly_pct sn == 0.
Proof.
  destruct (kelly_sizing_signal_on_one_side 1000 0.6 0.5)
    as (sy & sn & H1 & H2 & _ & _ & _ & H3); try reflexivity.
  exists sy, sn. split; [exact H1|]. split; [exact H2|].
  apply H3. cbn. discriminate.
Defined.

(** The confidence tier of a sized side is never ["none"]. *)
Lemma position_fraction_confidence (full_kelly price edge : Q) :
  snd (position_fraction full_kelly price edge) <> conf_none.
Proof.
  unfold position_fraction, edge_boost, ladder.
  repeat match goal with
  | |- context [if ?b then _ else _] => destruct b
  end; cbn; discriminate.
Qed.

(** Property X5.  The sides [kelly_sizing] rejects: with a price that is
    not strictly between 0 and 1 both sides are rejected and both bets are
    0; with a price in (0,1), YES is rejected exactly when the probability
    is <= 0 and NO exactly when it is >= 1, so at least one side is sized;
    and the confidence of a side reads "none" exactly when the side is
    rejected. *)
Theorem kelly_sizing_rejections (bankroll true_prob poly_price : Q) :
  let r := kelly_sizing bankroll true_prob poly_price in
  (poly_price <= 0 \/ 1 <= poly_price ->
     Kelly.yes r = Invalid /\ Kelly.no r = Invalid /\
     get_bet_amount (Kelly.yes r) 0 = 0 /\ get_bet_amount (Kelly.no r) 0 = 0) /\
  (0 < poly_price -> poly_price < 1 ->
     (Kelly.yes r = Invalid <-> true_prob <= 0) /\
     (Kelly.no r = Invalid <-> 1 <= true_prob) /\
     (Kelly.yes r <> Invalid \/ Kelly.no r <> Invalid)) /\
  (forall sd, get_confidence (Kelly.get r sd) conf_low = conf_none
              <-> Kelly.get r sd = Invalid).
Proof.
  intros r. subst r. unfold kelly_sizing. cbn [Kelly.yes Kelly.no].
  assert (Hguard : forall sd,
    kelly_side bankroll true_prob poly_price sd = Invalid <->
    (side_price sd poly_price <= 0 \/ 1 <= side_price sd poly_price
     \/ side_prob sd true_prob <= 0)).
  { intros sd. unfold kelly_side.
    destruct (le_cases (side_price sd poly_price) 0) as [[H1 ->]|[H1 ->]];
    destruct (le_cases 1 (side_price sd poly_price)) as [[H2 ->]|[H2 ->]];
    destruct (le_cases (side_prob sd true_prob) 0) as [[H3 ->]|[H3 ->]];
    cbn [orb]; try (split; [intros _; tauto|reflexivity]).
    match goal with |- context [position_fraction ?a ?b ?c] =>
      destruct (position_fraction a b c) as [pct conf] end.
    split; [discriminate|]. intros [H|[H|H]]; lra. }
  split; [|split].
  - intros H.
    assert (Y : kelly_side bankroll true_prob poly_price YES = Invalid).
    { apply Hguard. cbn [side_price]. destruct H; [left|right; left]; lra. }
    assert (N : kelly_side bankroll true_prob poly_price NO = Invalid).
    { apply Hguard. cbn [side_price]. destruct H; [right; left|left]; lra. }
    rewrite Y, N. repeat split.
  - intros H0 H1.
    pose proof (Hguard YES) as Y. pose proof (Hguard NO) as N.
    cbn [side_price side_prob] in Y, N.
    split; [|split].
    + rewrite Y. split; [intros [H|[H|H]]; lra|intros; right; right; lra].
    + rewrite N. split; [intros [H|[H|H]]; lra|intros; right; right; lra].
    + destruct (Qlt_le_dec 0 true_prob) as [Hp|Hp].
      * left. rewrite Y. intros [H|[H|H]]; lra.
      * right. rewrite N. intros [H|[H|H]]; lra.
  - intros sd.
    assert (E : Kelly.get {| Kelly.yes := kelly_side bankroll true_prob poly_price YES;
                             Kelly.no := kelly_side bankroll true_prob poly_price NO |} sd
                = kelly_side bankroll true_prob poly_price sd) by (destruct sd; reflexivity).
    rewrite E. unfold kelly_side.
    destruct ((side_price sd poly_price <=? 0) || (1 <=? side_price sd poly_price)
              || (side_prob sd true_prob <=? 0)); [split; reflexivity|].
    match goal with |- context [position_fraction ?a ?b ?c] =>
      pose proof (position_fraction_confidence a b c) as Hc;
      destruct (position_fraction a b c) as [pct conf] end.
    cbn [snd] in Hc. cbn [get_confidence Sizing.confidence].
    split; [intros H; contradiction|discriminate].
Qed.

(** ** The selection loop: the winner is a best candidate *)

(** Property X6.  The selection loop of step 8 returns a best candidate:
    no (market, side) of the list scores more than the recorded best
    score; a recorded winner is a market of the list, the best score is
    its score on the recorded side, and it is above -999; there is no
    winner exactly when no candidate scores more than -999; and for an
    empty list there is no winner, no side and a position of 0. *)
Theorem select_best_is_argmax (budget : Q) (all_analysis : list Analysis.t) :
  let sel := select_best budget all_analysis in
  (forall m sd, In m all_analysis -> market_score budget m sd <= best_score sel) /\
  (forall m, best_market sel = Some m ->
     In m all_analysis /\
     best_score sel = market_score budget m (best_side sel) /\
     -999 < best_score sel) /\
  (best_market sel = None <->
   forall m sd, In m all_analysis -> market_score budget m sd <= -999) /\
  (all_analysis = [] -> best_market sel = None /\
     Strategy.recommended_position (build_strategy budget all_analysis sel) = 0 /\
     Strategy.best_side (build_strategy budget all_analysis sel) = None).
Proof.
  intros sel. destruct (select_best_selected budget all_analysis) as [Hmax Hwin].
  fold sel in Hmax, Hwin.
  split; [exact Hmax|]. split; [|split].
  - intros m Hm. destruct Hwin as [[E _]|(m0 & Hin & (R1 & _ & R3) & Hlow)]; [congruence|].
    rewrite Hm in R1. injection R1 as <-. repeat split; assumption.
  - split.
    + intros Hnone m sd Hin.
      destruct Hwin as [[_ E]|(m0 & _ & (R1 & _) & _)]; [|congruence].
      specialize (Hmax m sd Hin). lra.
    + intros Hall. destruct Hwin as [[E _]|(m0 & Hin & (R1 & _ & R3) & Hlow)]; [exact E|].
      exfalso. specialize (Hall m0 (best_side sel) Hin). rewrite R3 in Hlow. lra.
  - intros ->. repeat split.
Qed.

(** ** The trending score: range and verdict zones *)

Lemma uncertainty_score_le (c : Q) : uncertainty_score c <= 30.
Proof. unfold uncertainty_score. test_cases; lra. Qed.

Lemma roi_score_le (c : Q) : roi_score c <= 35.
Proof.
  unfold roi_score.
  pose proof (min_le_r (potential_roi c / 300) 1). lra.
Qed.

Lemma sure_thing_penalty_nonneg (c : Q) : 0 <= sure_thing_penalty c.
Proof. unfold sure_thing_penalty. test_cases; lra. Qed.

Lemma spread_penalty_nonneg (s : Q) : 0 <= s -> 0 <= spread_penalty s.
Proof. intros H. unfold spread_penalty. apply min_lower; lra. Qed.

Lemma compute_polysnap_score_nonneg (market : Listing.t) :
  0 <= compute_polysnap_score market.
Proof.
  unfold compute_polysnap_score.
  destruct (Listing.outcomePrices market) as [prices|]; [|lra].
  apply round_ge_grid; [reflexivity|]. apply max_ge_r.
Qed.

(** Property X7.  [compute_polysnap_score] is never negative, it is 0
    when the prices of the listing do not parse, and it is at most 100
    when the spread is not negative; 100 is reached (cheap side 0.25,
    price change 0.15, liquidity 10000, a tenth of the volume in the last
    24 hours, no spread). *)
Theorem compute_polysnap_score_range (market : Listing.t) :
  0 <= compute_polysnap_score market /\
  (0 <= Listing.spread market -> compute_polysnap_score market <= 100) /\
  (Listing.outcomePrices market = None -> compute_polysnap_score market = 0) /\
  compute_polysnap_score top_listing == 100.
Proof.
  split; [apply compute_polysnap_score_nonneg|].
  split; [|split; [|reflexivity]].
  - unfold compute_polysnap_score.
    destruct (Listing.outcomePrices market) as [prices|]; [|intros; lra].
    intros Hs. apply round_le_grid; [reflexivity|].
    unfold polysnap_total.
    set (c := cheap_side (listing_yes_price prices)).
    pose proof (uncertainty_score_le c). pose proof (roi_score_le c).
    pose proof (sure_thing_penalty_nonneg c).
    pose proof (spread_penalty_nonneg _ Hs).
    pose proof (min_le_r (Py.abs (Listing.oneDayPriceChange market) * 100) 15) as Hv.
    fold (volatility_score (Py.abs (Listing.oneDayPriceChange market))) in Hv.
    assert (Hl : liq_score (Listing.liquidity market) <= 10).
    { unfold liq_score. test_cases; try lra; qlra. }
    assert (Ha : activity_score (Listing.volume24hr market) (Listing.volume market) <= 10)
      by (unfold activity_score; apply min_le_r).
    match goal with |- Py.max ?t 0 <= _ =>
      destruct (max_cases t 0) as [[_ ->]|[_ ->]] end; lra.
  - unfold compute_polysnap_score. now intros ->.
Qed.

(** In the uncertain zone the return potential is high exactly up to a
    cheap side of 0.40. *)
Lemma high_roi_zone (c : Q) :
  0.12 <= c -> ((150 <=? potential_roi c) = true <-> c <= 0.40).
Proof.
  intros Hc. rewrite le_spec. unfold potential_roi.
  destruct (max_cases c 0.05) as [[H _]|[_ ->]]; [lra|].
  assert (E : 1 / c * c == 1) by (field; lra).
  assert (Hx : 0 < 1 / c) by (apply Qlt_shift_div_l; lra).
  set (x := 1 / c) in *. clearbody x.
  split; intros H.
  - destruct (Qlt_le_dec 0.40 c) as [Hlt|]; [exfalso|assumption].
    assert (0 < (c - 0.40) * x) by (apply Qmult_lt_0_compat; lra). lra.
  - assert (0 <= (0.40 - c) * x) by (apply Qmult_le_0_compat; lra). lra.
Qed.

(** Property X8.  The verdict [get_trending_markets] gives a listing whose
    prices parse, by its cheap side c = min(yes, 1 - yes), its 24h volume
    and its absolute price change: HOT exactly when 0.12 <= c <= 0.40 and
    the 24h volume is at least 100 (the bound 0.42 of the uncertain zone
    never applies to HOT, since the return potential is below 150% above
    0.40); WARM exactly when 0.12 <= c <= 0.42 and either c <= 0.40 with a
    24h volume below 100, or c > 0.40 with a price change of at least
    0.02; OBVIOUS exactly when c < 0.10; COOL in the other cases. *)
Theorem trending_verdict_zones (market : Listing.t) (prices : list Q) :
  Listing.outcomePrices market = Some prices ->
  let c := cheap_side (listing_yes_price prices) in
  let change := Py.abs (Listing.oneDayPriceChange market) in
  let volume_24h := Listing.volume24hr market in
  let v := trending_verdict market in
  (v = Some HOT <-> 0.12 <= c /\ c <= 0.40 /\ 100 <= volume_24h) /\
  (v = Some WARM <->
     0.12 <= c /\ c <= 0.42 /\
     ((c <= 0.40 /\ volume_24h < 100) \/ (0.40 < c /\ 0.02 <= change))) /\
  (v = Some OBVIOUS <-> c < 0.10) /\
  (v = Some COOL <->
     (0.10 <= c /\ c < 0.12) \/ 0.42 < c \/ (0.40 < c /\ change < 0.02)).
Proof.
  intros Hp c change volume_24h v. subst v. unfold trending_verdict. rewrite Hp.
  fold c change volume_24h.
  pose proof (high_roi_zone c) as Hroi.
  destruct (le_cases 0.12 c) as [[U1 ->]|[U1 ->]];
  destruct (le_cases c 0.42) as [[U2 ->]|[U2 ->]];
  destruct (150 <=? potential_roi c) eqn:R;
  destruct (le_cases 0.02 change) as [[V ->]|[V ->]];
  destruct (le_cases 100 volume_24h) as [[D ->]|[D ->]];
  destruct (lt_cases c 0.10) as [[O ->]|[O ->]];
  cbn [andb orb];
  try (assert (R' : c <= 0.40) by (apply Hroi; [assumption|reflexivity]));
  try (assert (R' : 0.40 < c)
         by (apply Qnot_le_lt; intros Hle; apply Hroi in Hle; [congruence|assumption]));
  clear Hroi R;
  (split; [|split; [|split]]); (split; intros H); try discriminate H; try reflexivity;
  try (exfalso; lra);
  try (exfalso; destruct H as (H1 & H2 & H3); lra);
  try (exfalso; destruct H as [H|[H|H]]; lra);
  try (exfalso; destruct H as (H1 & H2 & [H3|H3]); lra);
  try (split; [lra|split; lra]);
  try (split; [lra|split; [lra|first [left; lra | right; lra]]]);
  try (left; lra); try (right; left; lra); try (right; right; lra);
  try assumption.
Qed.

(** The flat listing: a cheap side of 0.5 is outside every zone but COOL. *)
Lemma trending_verdict_zones_witness :
  trending_verdict (flat_listing []) = Some COOL <->
  (0.10 <= cheap_side 0.5 /\ cheap_side 0.5 < 0.12) \/ 0.42 < cheap_side 0.5
  \/ (0.40 < cheap_side 0.5 /\ Py.abs 0 < 0.02).
Proof.
  exact (proj2 (proj2 (proj2 (trending_verdict_zones (flat_listing []) [0.5] eq_refl)))).
Defined.

(** ** Text: sports titles, tickers and the slug of a request *)

Lemma append_nil (b : string) : ("" ++ b)%string = b.
Proof. reflexivity. Qed.

Lemma append_cons (c : ascii) (a b : string) :
  (String c a ++ b)%string = String c (a ++ b).
Proof. reflexivity. Qed.

Lemma append_assoc (a b c : string) : ((a ++ b) ++ c)%string = (a ++ (b ++ c))%string.
Proof.
  induction a as [|x a IH]; [reflexivity|].
  rewrite !append_cons. now rewrite IH.
Qed.

Lemma lower_app (a b : string) :
  Text.lower (a ++ b) = (Text.lower a ++ Text.lower b)%string.
Proof.
  induction a as [|c a IH]; [reflexivity|].
  rewrite append_cons. cbn [Text.lower]. rewrite append_cons. now rewrite IH.
Qed.

Lemma prefix_app (n b : string) : String.prefix n (n ++ b) = true.
Proof.
  induction n as [|c n IH]; [now destruct b|].
  rewrite append_cons. cbn [String.prefix].
  destruct (ascii_dec c c); [exact IH|contradiction].
Qed.

Lemma prefix_mono (n a b : string) :
  String.prefix n a = true -> String.prefix n (a ++ b) = true.
Proof.
  revert a. induction n as [|x n IH]; intros a; [now destruct (a ++ b)%string|].
  destruct a as [|c a]; [discriminate|].
  rewrite append_cons. cbn [String.prefix].
  destruct (ascii_dec x c); [apply IH|discriminate].
Qed.

Lemma contains_here (n h : string) : String.prefix n h = true -> Text.contains n h = true.
Proof. intros H. destruct h; cbn [Text.contains]; now rewrite H. Qed.

Lemma contains_cons (n : string) (c : ascii) (h : string) :
  Text.contains n h = true -> Text.contains n (String c h) = true.
Proof. intros H. cbn [Text.contains]. rewrite H. apply orb_true_r. Qed.

Lemma contains_app (n a b : string) : Text.contains n (a ++ n ++ b) = true.
Proof.
  induction a as [|c a IH].
  - rewrite append_nil. apply contains_here, prefix_app.
  - rewrite append_cons. now apply contains_cons.
Qed.

Lemma contains_prefix (n a b : string) :
  Text.contains n a = true -> Text.contains n (a ++ b) = true.
Proof.
  induction a as [|c a IH].
  - cbn [Text.contains]. rewrite orb_false_r. intros H. apply contains_here.
    now apply prefix_mono.
  - rewrite append_cons. cbn [Text.contains]. intros H. apply orb_prop in H as [H|H].
    + rewrite <- append_cons. rewrite (prefix_mono _ _ b H). reflexivity.
    + rewrite (IH H). apply orb_true_r.
Qed.

(** Property X9.  [is_sports_event] matches its keywords as substrings
    and without regard to letter case: a title that contains, anywhere
    (inside a longer word too), a text whose lower case is one of the
    keywords is a sports event. *)
Theorem is_sports_event_substring (kw s a b : string) :
  In kw sports_keywords -> Text.lower s = kw ->
  is_sports_event (a ++ s ++ b) = true.
Proof.
  intros Hin Hs. unfold is_sports_event. cbn zeta.
  rewrite !lower_app, Hs. apply existsb_exists. exists kw. split; [exact Hin|].
  apply contains_app.
Qed.

(** The keyword "nets" inside "PLANETS". *)
Lemma is_sports_event_substring_witness :
  is_sports_event ("Will the PLA" ++ "NETS" ++ " align?") = true.
Proof.
  apply (is_sports_event_substring "nets" "NETS" "Will the PLA" " align?");
    [|reflexivity].
  do 17 right. left. reflexivity.
Defined.

(** The texts made of capitals, and the texts without a character. *)
Definition all_upper (s : string) : bool :=
  forallb Text.is_upper (list_ascii_of_string s).

Definition no_char (c : ascii) (s : string) : Prop :=
  ~ In c (list_ascii_of_string s).

Lemma span_spec (p : ascii -> bool) (s r rest : string) :
  Text.span p s = (r, rest) ->
  s = (r ++ rest)%string /\ forallb p (list_ascii_of_string r) = true.
Proof.
  revert r rest. induction s as [|c s IH]; intros r rest; cbn [Text.span].
  - intros [= <- <-]. split; reflexivity.
  - destruct (p c) eqn:E.
    + destruct (Text.span p s) as [r' rest'] eqn:E'.
      intros [= <- <-]. destruct (IH r' rest' eq_refl) as [-> H].
      split; [reflexivity|]. cbn. now rewrite E, H.
    + intros [= <- <-]. split; reflexivity.
Qed.

Lemma span_run (p : ascii -> bool) (t : string) (d : ascii) (rest : string) :
  forallb p (list_ascii_of_string t) = true -> p d = false ->
  Text.span p (t ++ String d rest) = (t, String d rest).
Proof.
  intros Ht Hd. induction t as [|c t IH].
  - rewrite append_nil. cbn [Text.span]. now rewrite Hd.
  - rewrite append_cons. cbn [Text.span]. cbn in Ht. apply andb_prop in Ht as [Hc Ht].
    rewrite Hc, (IH Ht). reflexivity.
Qed.

Lemma search_ticker_sound (title t : string) :
  Text.search_ticker title = Some t ->
  (1 <= String.length t <= 5)%nat /\ all_upper t = true /\
  Text.contains ("(" ++ t ++ ")") title = true.
Proof.
  induction title as [|c s IH]; cbn [Text.search_ticker]; [discriminate|].
  assert (Hrec : Text.search_ticker s = Some t ->
                 (1 <= String.length t <= 5)%nat /\ all_upper t = true /\
                 Text.contains ("(" ++ t ++ ")") (String c s) = true).
  { intros H. destruct (IH H) as (H1 & H2 & H3). split; [exact H1|]. split; [exact H2|].
    now apply contains_cons. }
  destruct (Ascii.eqb_spec c "("%char) as [->|Hc]; [|exact Hrec].
  destruct (Text.span Text.is_upper s) as [run rest] eqn:Es.
  destruct (span_spec _ _ _ _ Es) as [-> Hup].
  destruct rest as [|d rest']; [exact Hrec|].
  destruct (Ascii.eqb_spec d ")"%char) as [->|Hd]; cbn [andb]; [|exact Hrec].
  destruct (1 <=? String.length run)%nat eqn:L1; cbn [andb]; [|exact Hrec].
  destruct (String.length run <=? 5)%nat eqn:L2; [|exact Hrec].
  intros [= <-]. apply Nat.leb_le in L1, L2.
  split; [lia|]. split; [exact Hup|].
  apply contains_here.
  replace (String "(" (run ++ String ")" rest'))
    with (("(" ++ run ++ ")") ++ rest')%string.
  - apply prefix_app.
  - rewrite append_cons, append_nil, append_cons, append_assoc. reflexivity.
Qed.

Lemma search_ticker_first_group (pre t post : string) :
  no_char "(" pre -> all_upper t = true -> (1 <= String.length t <= 5)%nat ->
  Text.search_ticker (pre ++ "(" ++ t ++ ")" ++ post) = Some t.
Proof.
  intros Hpre Hup Hlen.
  induction pre as [|c pre IH].
  - rewrite append_nil, append_cons, append_nil. cbn [Text.search_ticker].
    cbn [Ascii.eqb Bool.eqb].
    rewrite append_cons, append_nil.
    rewrite (span_run Text.is_upper t ")" post Hup eq_refl).
    cbn [Ascii.eqb Bool.eqb andb].
    destruct Hlen as [L1 L2]. apply Nat.leb_le in L1, L2. now rewrite L1, L2.
  - rewrite append_cons. cbn [Text.search_ticker].
    destruct (Ascii.eqb_spec c "("%char) as [->|Hc].
    + exfalso. apply Hpre. now left.
    + apply IH. intros Hin. apply Hpre. now right.
Qed.

(** Property X10.  [extract_ticker]: a ticker that is returned is made of
    one to five capital letters and stands between parentheses in the
    title; and when the first opening parenthesis of the title is followed
    by one to five capitals and a closing parenthesis, these capitals are
    the ticker returned. *)
Theorem extract_ticker_parenthesised_capitals (title : string) :
  (forall t, extract_ticker title = Some t ->
     (1 <= String.length t <= 5)%nat /\ all_upper t = true /\
     Text.contains ("(" ++ t ++ ")") title = true) /\
  (forall pre t post,
     title = (pre ++ "(" ++ t ++ ")" ++ post)%string ->
     no_char "(" pre -> all_upper t = true -> (1 <= String.length t <= 5)%nat ->
     extract_ticker title = Some t).
Proof.
  unfold extract_ticker. split.
  - intros t. apply search_ticker_sound.
  - intros pre t post ->. apply search_ticker_first_group.
Qed.

Lemma split_on_nonempty (sep : ascii) (s : string) :
  exists x xs, split_on sep s = x :: xs.
Proof.
  induction s as [|c s (x & xs & IH)]; cbn [split_on]; [now eexists _, _|].
  destruct (Ascii.eqb c sep); [now eexists _, _|]. rewrite IH. now eexists _, _.
Qed.

(** Splitting at a separator. *)
Lemma split_on_sep (sep : ascii) (a b : string) :
  split_on sep (a ++ String sep b) = (split_on sep a ++ split_on sep b)%list.
Proof.
  induction a as [|c a IH].
  - rewrite append_nil. cbn [split_on]. now rewrite Ascii.eqb_refl.
  - rewrite append_cons. cbn [split_on]. destruct (Ascii.eqb c sep).
    + now rewrite IH.
    + rewrite IH. destruct (split_on_nonempty sep a) as (x & xs & ->). reflexivity.
Qed.

(** A text without the separator is one part. *)
Lemma split_on_whole (sep : ascii) (s : string) :
  no_char sep s -> split_on sep s = [s].
Proof.
  induction s as [|c s IH]; intros H; [reflexivity|].
  cbn [split_on]. destruct (Ascii.eqb_spec c sep) as [->|Hc].
  - exfalso. apply H. now left.
  - rewrite IH; [reflexivity|]. intros Hin. apply H. now right.
Qed.

(** The first part of a text that starts with a run free of the separator. *)
Lemma split_on_run (sep : ascii) (a b : string) :
  no_char sep a ->
  split_on sep (a ++ b)
  = match split_on sep b with
    | x :: xs => (a ++ x)%string :: xs
    | [] => [a]
    end.
Proof.
  induction a as [|c a IH]; intros H.
  - rewrite append_nil. destruct (split_on_nonempty sep b) as (x & xs & ->). reflexivity.
  - rewrite append_cons. cbn [split_on]. destruct (Ascii.eqb_spec c sep) as [->|Hc].
    + exfalso. apply H. now left.
    + rewrite IH; [|intros Hin; apply H; now right].
      destruct (split_on_nonempty sep b) as (x & xs & ->). reflexivity.
Qed.

Lemma slug_of_parts_skip (l1 : list string) (next : string) (l2 : list string) :
  ~ In "event"%string l1 ->
  slug_of_parts (l1 ++ "event"%string :: next :: l2)%list
  = Some (hd EmptyString (split_on "?" next)).
Proof.
  induction l1 as [|p l1 IH]; intros H.
  - reflexivity.
  - cbn [app slug_of_parts].
    destruct (l1 ++ "event"%string :: next :: l2)%list as [|q l] eqn:E.
    + destruct l1; discriminate.
    + destruct (String.eqb_spec p "event") as [->|Hp].
      * exfalso. apply H. now left.
      * apply IH. intros Hin. apply H. now right.
Qed.

(** The first part at ["?"] of a slug followed by nothing, or by a query. *)
Lemma slug_before_query (s q : string) :
  no_char "?" s -> (q = EmptyString \/ exists r, q = String "?" r) ->
  hd EmptyString (split_on "?" (s ++ q)) = s.
Proof.
  intros Hs [->|[r ->]].
  - assert (E : (s ++ "")%string = s).
    { clear Hs. induction s as [|c s IH]; [reflexivity|]. now rewrite append_cons, IH. }
    rewrite E, split_on_whole; [reflexivity|exact Hs].
  - rewrite split_on_sep, split_on_whole; [reflexivity|exact Hs].
Qed.

(** Property X11.  The slug [api_analyze] takes from the URL of an event:
    for a text [pre/event/s] followed by nothing, by a query [?...] or by
    a further path [/...], where [pre] contains "polymarket.com" and has no
    path segment "event", and [s] has no "/" and no "?", the slug is
    [s]. *)
Theorem request_slug_of_event_url (pre s rest : string) :
  Text.contains "polymarket.com" pre = true ->
  ~ In "event"%string (split_on "/" pre) ->
  no_char "/" s -> no_char "?" s ->
  (rest = EmptyString \/ (exists r, rest = String "?" r) \/ (exists r, rest = String "/" r)) ->
  request_slug (pre ++ "/event/" ++ s ++ rest) = s.
Proof.
  intros Hc Hpre Hs1 Hs2 Hrest. unfold request_slug.
  rewrite (contains_prefix _ _ _ Hc).
  change ("/event/" ++ s ++ rest)%string
    with (String "/" ("event" ++ String "/" (s ++ rest)))%string.
  rewrite split_on_sep, split_on_sep.
  rewrite (split_on_whole "/" "event") by (intros [H|[H|[H|[H|[H|[]]]]]]; discriminate).
  cbn [app].
  rewrite (split_on_run "/" s rest Hs1).
  destruct (split_on_nonempty "/" rest) as (x & xs & Ex). rewrite Ex.
  rewrite slug_of_parts_skip by exact Hpre.
  rewrite slug_before_query; [reflexivity|exact Hs2|].
  destruct Hrest as [->|[[r ->]|[r ->]]].
  - left. cbn in Ex. now injection Ex as <- <-.
  - right. cbn [split_on] in Ex. cbn [Ascii.eqb Bool.eqb] in Ex.
    destruct (split_on_nonempty "/" r) as (y & ys & Ey). rewrite Ey in Ex.
    injection Ex as <- <-. now exists y.
  - left. cbn [split_on] in Ex. cbn [Ascii.eqb Bool.eqb] in Ex. now injection Ex as <- <-.
Qed.

(** The address of an event page, with a query. *)
Lemma request_slug_of_event_url_witness :
  request_slug ("https://polymarket.com" ++ "/event/" ++ "fed-decision" ++ "?tid=17")
  = "fed-decision"%string.
Proof.
  apply (request_slug_of_event_url "https://polymarket.com" "fed-decision" "?tid=17").
  - reflexivity.
  - cbn. intros [H|[H|[H|[]]]]; discriminate H.
  - unfold no_char. cbn. intros H.
    repeat (destruct H as [H|H]; [discriminate H|]). exact H.
  - unfold no_char. cbn. intros H.
    repeat (destruct H as [H|H]; [discriminate H|]). exact H.
  - right. left. now eexists.
Defined.

(** ** The job files *)

(** Property X12.  The job files: a job that [_save_job] wrote is what
    [_load_job] returns and what [api_analyze_status] reports, and the
    other files are what they were; [_update_job] on that job returns the
    merged record and writes it, keeps [total_steps], and with no key it
    changes nothing of the record; on a job id without a file it returns
    [None] and writes nothing. *)
Theorem job_store_round_trip (job_id other : string) (job : Job.t) (u : Upd.t)
    (d : jobs_dir) :
  let d1 := fst (_save_job job_id job d) in
  let d2 := fst (_update_job job_id u d1) in
  _load_job job_id d1 = (d1, inr (Some job)) /\
  api_analyze_status d1 job_id
  = Some (Poll.mk (Job.status job) (Job.step job) (Job.total_steps job)
                  (Job.step_label job) (Job.error job)) /\
  (other <> job_id -> _load_job other d1 = (d1, inr (files d !! other))) /\
  snd (_update_job job_id u d1) = inr (Some (job_update job u)) /\
  _load_job job_id d2 = (d2, inr (Some (job_update job u))) /\
  journal d2 = journal d ++ [(job_id, job); (job_id, job_update job u)] /\
  Job.total_steps (job_update job u) = Job.total_steps job /\
  job_update job Upd.empty = job /\
  (files d !! other = None -> _update_job other u d = (d, inr None)).
Proof.
  cbn zeta.
  assert (E1 : fst (_save_job job_id job d) = write d job_id job) by reflexivity.
  rewrite E1.
  assert (E2 : _update_job job_id u (write d job_id job)
               = (write (write d job_id job) job_id (job_update job u),
                  inr (Some (job_update job u)))).
  { unfold _update_job, _load_job, bind. rewrite write_lookup. reflexivity. }
  rewrite E2. cbn [fst snd]. unfold _load_job, api_analyze_status.
  rewrite !write_lookup.
  split; [reflexivity|]. split; [reflexivity|]. split.
  { intros Hne. unfold write. cbn [files]. now rewrite lookup_insert_ne by congruence. }
  split; [reflexivity|]. split; [reflexivity|]. split.
  { rewrite !write_journal, <- app_assoc. reflexivity. }
  split; [reflexivity|]. split; [now destruct job|].
  apply update_unknown.
Qed.

(** [_update_job] on an unknown job, followed by anything. *)
Lemma bind_update_unknown {A} (job_id : string) (u : Upd.t) (k : M A) (d : jobs_dir) :
  files d !! job_id = None -> (_update_job job_id u ;;; k) d = k d.
Proof. intros H. unfold bind. now rewrite (update_unknown job_id u d H). Qed.

(** Property X13.  [run_full_analysis] never creates a job file: run on a
    job id that has no file, it writes nothing, whatever the event fetch
    returns and wherever a step raises, and it returns without an
    exception. *)
Theorem run_without_job_writes_nothing
    (w : world) (job_id slug : string) (budget : Q) (d : jobs_dir) :
  files d !! job_id = None ->
  run_full_analysis w job_id slug budget d = (d, inr tt).
Proof.
  intros H. unfold run_full_analysis, try_except, run_steps.
  rewrite (bind_update_unknown _ _ _ _ H).
  destruct (fetch_polymarket_event w slug) as [event|].
  2:{ now rewrite (bind_update_unknown _ _ _ _ H). }
  do 10 (rewrite bind_checkpoint;
         match goal with |- context [fault w ?n] => destruct (fault w n) end;
         [now rewrite (bind_update_unknown _ _ _ _ H)|];
         rewrite (bind_update_unknown _ _ _ _ H)).
  reflexivity.
Qed.

(** A run on an empty job directory. *)
Lemma run_without_job_writes_nothing_witness :
  run_full_analysis offline_world "job" "slug" 1000 empty_dir = (empty_dir, inr tt).
Proof.
  apply (run_without_job_writes_nothing offline_world "job" "slug" 1000 empty_dir).
  reflexivity.
Defined.

(** *** A run writes its own job file only *)

(** The computations that leave every file but that of [job_id] as it was. *)
Definition only_writes {A} (job_id : string) (c : M A) : Prop :=
  forall d id, id <> job_id -> files (fst (c d)) !! id = files d !! id.

Lemma only_writes_ret {A} (job_id : string) (a : A) : only_writes job_id (ret a).
Proof. intros d id _. reflexivity. Qed.

Lemma only_writes_raise {A} (job_id e : string) : only_writes job_id (raise e : M A).
Proof. intros d id _. reflexivity. Qed.

Lemma only_writes_bind {A B} (job_id : string) (c : M A) (k : A -> M B) :
  only_writes job_id c -> (forall a, only_writes job_id (k a)) ->
  only_writes job_id (bind c k).
Proof.
  intros Hc Hk d id Hid. unfold bind. specialize (Hc d id Hid).
  destruct (c d) as [d' [e|a]]; cbn [fst] in *; [exact Hc|].
  rewrite (Hk a d' id Hid). exact Hc.
Qed.

Lemma only_writes_try {A} (job_id : string) (c : M A) (h : string -> M A) :
  only_writes job_id c -> (forall e, only_writes job_id (h e)) ->
  only_writes job_id (try_except c h).
Proof.
  intros Hc Hh d id Hid. unfold try_except. specialize (Hc d id Hid).
  destruct (c d) as [d' [e|a]]; cbn [fst] in *; [|exact Hc].
  rewrite (Hh e d' id Hid). exact Hc.
Qed.

Lemma only_writes_save (job_id : string) (job : Job.t) :
  only_writes job_id (_save_job job_id job).
Proof. intros d id Hid. cbn. now rewrite lookup_insert_ne. Qed.

Lemma only_writes_update (job_id : string) (u : Upd.t) :
  only_writes job_id (_update_job job_id u).
Proof.
  unfold _update_job. apply only_writes_bind.
  - intros d id _. reflexivity.
  - intros [j|]; [|apply only_writes_ret].
    apply only_writes_bind; [apply only_writes_save|intros; apply only_writes_ret].
Qed.

Lemma only_writes_checkpoint (job_id : string) (w : world) (n : nat) :
  only_writes job_id (checkpoint w n).
Proof.
  unfold checkpoint. destruct (fault w n); [apply only_writes_raise|apply only_writes_ret].
Qed.

Ltac only_writes_steps :=
  repeat first
    [ apply only_writes_ret
    | apply only_writes_update
    | apply only_writes_checkpoint
    | apply only_writes_save
    | apply only_writes_bind; [|intros ?] ].

(** Property X14.  A run touches the file of its own job only: after a
    job is created and run, the file of every other job id is what it was,
    and so are the replies of the status and result endpoints for it. *)
Theorem run_writes_only_its_job
    (w : world) (job_id slug : string) (budget : Q) (d : jobs_dir) (other : string) :
  other <> job_id ->
  files (fst (start_analysis w job_id slug budget d)) !! other = files d !! other /\
  api_analyze_status (fst (start_analysis w job_id slug budget d)) other
  = api_analyze_status d other /\
  api_analyze_result (fst (start_analysis w job_id slug budget d)) other
  = api_analyze_result d other.
Proof.
  intros Hne.
  assert (H : only_writes job_id (start_analysis w job_id slug budget)).
  { unfold start_analysis. apply only_writes_bind; [apply only_writes_save|intros _].
    unfold run_full_analysis. apply only_writes_try.
    - unfold run_steps. apply only_writes_bind; [apply only_writes_update|intros _].
      destruct (fetch_polymarket_event w slug); only_writes_steps.
    - intros e. only_writes_steps. }
  specialize (H d other Hne).
  unfold api_analyze_status, api_analyze_result. rewrite H. repeat split.
Qed.

(** A second job in an empty directory. *)
Lemma run_writes_only_its_job_witness :
  api_analyze_status (fst (start_analysis offline_world "b" "slug" 1000 empty_dir)) "a"
  = api_analyze_status empty_dir "a".
Proof.
  apply (run_writes_only_its_job offline_world "b" "slug" 1000 empty_dir "a").
  discriminate.
Defined.

(** *** The records of a run, as a poll sees them *)

Definition consistent_record (j : Job.t) : Prop :=
  Job.total_steps j = 10%nat /\
  (Job.step j <= Job.total_steps j)%nat /\
  (Job.status j = Status.running -> (1 <= Job.step j)%nat ->
     Job.step_label j = nth (Job.step j - 1) PIPELINE_STEPS ""%string) /\
  (Job.status j = Status.error <-> Job.error j <> None) /\
  (Job.status j = Status.completed <-> Job.result j <> None) /\
  (Job.status j = Status.completed -> Job.step_label j = "Analysis complete!"%string).

Ltac consistent_concrete :=
  unfold consistent_record; cbv -[Nat.le not iff];
  repeat split; try lia; try discriminate; try reflexivity;
  try (intros E; exfalso; apply E; reflexivity);
  try (intros E; discriminate E); try (intros E _; discriminate E).

Lemma consistent_at_step (n : nat) : (n <= 10)%nat -> consistent_record (at_step n).
Proof.
  intros H. do 11 (destruct n as [|n]; [consistent_concrete|]).
  exfalso; lia.
Qed.

Lemma consistent_steps_written (n : nat) :
  (n <= 10)%nat -> List.Forall consistent_record (steps_written n).
Proof.
  intros H. unfold steps_written. apply Lists.List.Forall_forall. intros j Hj.
  apply in_map_iff in Hj as (k & <- & Hk). apply in_seq in Hk.
  apply consistent_at_step. lia.
Qed.

Lemma consistent_exception (n : nat) (e : string) :
  (n <= 10)%nat -> consistent_record (job_update (at_step n) (exception_update e)).
Proof.
  intros H. do 11 (destruct n as [|n]; [consistent_concrete|]).
  exfalso; lia.
Qed.

Lemma last_in {A} (l : list A) (d : A) : In (List.last l d) (d :: l).
Proof.
  destruct l as [|x l]; [now left|]. right.
  revert x. induction l as [|y l IH]; intros x; [now left|].
  right. apply (IH y).
Qed.

(** Property X15.  Every record a run writes to its job, from the record
    [api_analyze] creates to the last, is consistent: total_steps is 10 and
    step never exceeds it; while the status is running and a step has
    started, step_label is the label of that step in PIPELINE_STEPS; the
    status is error exactly when an error message is present and completed
    exactly when a result is present, with the label "Analysis
    complete!".  After the run the status endpoint finds the job, in a
    terminal status, with a step of at most 10. *)
Theorem run_records_are_consistent
    (w : world) (job_id slug : string) (budget : Q) (d : jobs_dir) :
  let run := start_analysis w job_id slug budget d in
  exists js,
    journal (fst run) = journal d ++ List.map (pair job_id) (initial_job :: js) /\
    List.Forall consistent_record (initial_job :: js) /\
    (exists p, api_analyze_status (fst run) job_id = Some p /\
       Poll.total_steps p = 10%nat /\ (Poll.step p <= 10)%nat /\
       Status.terminal (Poll.status p) = true /\
       (Poll.status p = Status.error <-> Poll.error p <> None)).
Proof.
  intros run.
  destruct (start_analysis_writes w job_id slug budget d) as [_ (js & [Hj Hf] & Hcase)].
  fold run in Hj, Hf.
  exists js. split; [exact Hj|].
  assert (Hall : List.Forall consistent_record (initial_job :: js) /\
                 Status.terminal (Job.status (List.last js initial_job)) = true).
  { destruct Hcase as [[_ ->]|[(event & n & e & _ & Hn & _ & _ & ->)|(event & _ & _ & ->)]].
    - split; [|reflexivity].
      repeat (apply List.Forall_cons); try (now constructor); consistent_concrete.
    - split.
      + apply List.Forall_cons; [consistent_concrete|].
        apply List.Forall_app; split; [apply consistent_steps_written; lia|].
        apply List.Forall_cons; [apply consistent_exception; lia|constructor].
      + rewrite last_last. reflexivity.
    - split; [|rewrite last_last; reflexivity].
      apply List.Forall_cons; [consistent_concrete|].
      apply List.Forall_app; split; [apply consistent_steps_written; lia|].
      apply List.Forall_cons; [|constructor].
      unfold consistent_record. cbn.
      repeat split; try lia; try discriminate; try reflexivity;
        try (intros E; exfalso; apply E; reflexivity);
        try (intros E; discriminate E). }
  destruct Hall as [Hall Hterm]. split; [exact Hall|].
  unfold api_analyze_status. rewrite Hf. eexists. split; [reflexivity|].
  cbn [Poll.total_steps Poll.step Poll.status Poll.error].
  assert (Hlast : consistent_record (List.last js initial_job)).
  { apply (proj1 (Lists.List.Forall_forall _ _) Hall). apply last_in. }
  destruct Hlast as (L1 & L2 & _ & L4 & _).
  split; [exact L1|]. split; [rewrite <- L1; exact L2|]. split; [exact Hterm|exact L4].
Qed.

(** Property X16.  [api_analyze] on the body of a request: without a slug,
    or when the slug extracted is empty, nothing is written and the reply
    is the error (no job id); otherwise the job is created and run on the
    extracted slug with the budget of the request, 1000 when the request
    has none, the reply carries the job id, and the job file ends in a
    terminal status, with a result whenever it is completed. *)
Theorem api_analyze_request_outcome
    (w : world) (job_id : string) (slug : option string) (budget : option Q)
    (d : jobs_dir) :
  let s := request_slug (default EmptyString slug) in
  let run := api_analyze_request w job_id slug budget d in
  (slug = None -> run = (d, inr None)) /\
  (s = EmptyString -> run = (d, inr None)) /\
  (s <> EmptyString ->
     run = (fst (start_analysis w job_id s (default 1000 budget) d), inr (Some job_id)) /\
     exists job, files (fst run) !! job_id = Some job /\
                 Status.terminal (Job.status job) = true /\
                 (Job.status job = Status.completed -> Job.result job <> None)).
Proof.
  intros s run. subst run. unfold api_analyze_request, api_analyze. fold s.
  split; [|split].
  - intros ->. reflexivity.
  - intros ->. reflexivity.
  - intros Hs. destruct (String.eqb_spec s EmptyString) as [E|_]; [contradiction|].
    destruct (start_analysis_writes w job_id s (default 1000 budget) d)
      as [Hret (js & [Hj Hf] & Hcase)].
    unfold bind.
    destruct (start_analysis w job_id s (default 1000 budget) d) as [d' r] eqn:Er.
    cbn [fst snd] in *. subst r. split; [reflexivity|].
    cbn [fst ret]. eexists. split; [exact Hf|].
    destruct Hcase as [[_ ->]|[(event & n & e & _ & _ & _ & _ & ->)|(event & _ & _ & ->)]].
    + split; [reflexivity|discriminate].
    + rewrite last_last. split; [reflexivity|discriminate].
    + rewrite last_last. split; [reflexivity|]. intros _. discriminate.
Qed.

(** ** The collectors

    *** Sorting *)

Lemma insert_sorted_perm {A} (before : A -> A -> bool) (x : A) (l : list A) :
  Permutation (insert_sorted before x l) (x :: l).
Proof.
  induction l as [|y l IH]; cbn [insert_sorted]; [reflexivity|].
  destruct (before x y); [reflexivity|].
  rewrite IH. apply perm_swap.
Qed.

Lemma sorted_by_perm {A} (before : A -> A -> bool) (l : list A) :
  Permutation (sorted_by before l) l.
Proof.
  unfold sorted_by.
  assert (H : forall acc,
    Permutation (fold_left (fun acc x => insert_sorted before x acc) l acc) (acc ++ l)).
  { induction l as [|x l IH]; intros acc; cbn [fold_left].
    - now rewrite app_nil_r.
    - rewrite IH, insert_sorted_perm. apply Permutation_middle. }
  apply (H []).
Qed.

Section SortedBy.
Context {A : Type} (before : A -> A -> bool) (ord : A -> A -> Prop).
Hypothesis ord_trans : forall x y z, ord x y -> ord y z -> ord x z.
Hypothesis before_true : forall x y, before x y = true -> ord x y.
Hypothesis before_false : forall x y, before x y = false -> ord y x.

Lemma insert_sorted_sorted (x : A) (l : list A) :
  StronglySorted ord l -> StronglySorted ord (insert_sorted before x l).
Proof.
  induction l as [|y l IH]; intros Hs; cbn [insert_sorted].
  - repeat constructor.
  - apply StronglySorted_inv in Hs as [Hl Hy].
    destruct (before x y) eqn:E.
    + constructor; [constructor; assumption|].
      constructor; [now apply before_true|].
      eapply List.Forall_impl; [|exact Hy]. intros z Hz.
      eapply ord_trans; [apply before_true; exact E|exact Hz].
    + constructor; [now apply IH|].
      eapply Permutation_Forall; [symmetry; apply insert_sorted_perm|].
      constructor; [now apply before_false|exact Hy].
Qed.

Lemma sorted_by_sorted (l : list A) : StronglySorted ord (sorted_by before l).
Proof.
  unfold sorted_by.
  assert (H : forall acc, StronglySorted ord acc ->
    StronglySorted ord (fold_left (fun acc x => insert_sorted before x acc) l acc)).
  { induction l as [|x l IH]; intros acc Hacc; cbn [fold_left]; [exact Hacc|].
    apply IH. now apply insert_sorted_sorted. }
  apply H. constructor.
Qed.

End SortedBy.

Lemma in_firstn {A} (x : A) (n : nat) (l : list A) : In x (firstn n l) -> In x l.
Proof.
  revert l. induction n as [|n IH]; intros [|y l]; cbn; try tauto.
  intros [->|H]; [now left|right; now apply IH].
Qed.

Lemma existsb_perm {A} (f : A -> bool) (l l' : list A) :
  Permutation l l' -> existsb f l = existsb f l'.
Proof.
  induction 1 as [|x l l' _ IH|x y l|l l' l'' _ IH1 _ IH2]; cbn.
  - reflexivity.
  - now rewrite IH.
  - destruct (f x), (f y); reflexivity.
  - now rewrite IH1.
Qed.

Lemma StronglySorted_firstn {A} (R : A -> A -> Prop) (n : nat) (l : list A) :
  StronglySorted R l -> StronglySorted R (firstn n l).
Proof.
  revert n. induction l as [|x l IH]; intros n Hs; destruct n; cbn; try constructor.
  - apply IH. now apply StronglySorted_inv in Hs.
  - apply StronglySorted_inv in Hs as [_ Hx].
    apply Lists.List.Forall_forall. intros y Hy.
    apply (proj1 (Lists.List.Forall_forall _ _) Hx). eapply in_firstn; eauto.
Qed.

Lemma StronglySorted_map {A B} (R : A -> A -> Prop) (S : B -> B -> Prop) (f : A -> B)
    (l : list A) :
  (forall x y, R x y -> S (f x) (f y)) ->
  StronglySorted R l -> StronglySorted S (List.map f l).
Proof.
  intros HRS. induction l as [|x l IH]; intros Hs; cbn; [constructor|].
  apply StronglySorted_inv in Hs as [Hl Hx]. constructor; [now apply IH|].
  apply Lists.List.Forall_forall. intros y Hy. apply in_map_iff in Hy as (z & <- & Hz).
  apply HRS. exact (proj1 (Lists.List.Forall_forall _ _) Hx z Hz).
Qed.

(** *** The event fetch *)

(** Property X17.  [fetch_polymarket_event] returns the markets of the
    reply sorted by strike (ascending), none lost and none added: the
    markets are a permutation of the parsed ones, so that the event has a
    strike-based market exactly when the reply has one; the title and the
    end date are those of the reply; and the result is [None] exactly when
    the service replies with no event or the request raises. *)
Theorem fetch_polymarket_event_sorts_markets (w : world) (slug : string) :
  (forall e, fetch_polymarket_event w slug = Some e ->
     exists raw, gamma_event w slug = Returned (Some raw) /\
       Permutation (Event.markets e) (Event.markets raw) /\
       StronglySorted (fun a b => Market.strike a <= Market.strike b) (Event.markets e) /\
       Event.event_title e = Event.event_title raw /\
       Event.event_end e = Event.event_end raw /\
       has_strikes e = has_strikes raw) /\
  (fetch_polymarket_event w slug = None <->
   gamma_event w slug = Returned None \/ exists msg, gamma_event w slug = Raised msg).
Proof.
  unfold fetch_polymarket_event.
  destruct (gamma_event w slug) as [[raw|]|msg].
  - split.
    + intros e [= <-]. exists raw. split; [reflexivity|]. cbn [Event.markets].
      split; [apply sorted_by_perm|]. split.
      * apply (sorted_by_sorted _ (fun a b => Market.strike a <= Market.strike b)).
        -- intros x y z. apply Qle_trans.
        -- intros x y H. apply lt_spec in H. lra.
        -- intros x y H. now apply lt_false in H.
      * split; [reflexivity|]. split; [reflexivity|].
        unfold has_strikes. cbn [Event.markets].
        apply existsb_perm, sorted_by_perm.
    + split; [discriminate|]. intros [H|[msg H]]; discriminate.
  - split; [discriminate|]. split; [now left|reflexivity].
  - split; [discriminate|]. split; [right; now exists msg|reflexivity].
Qed.

(** *** Whale tracking *)

Definition excluded_wallet (address : string) : bool :=
  in_words (Text.lower address) [Text.lower EXCHANGE_PROXY; Text.lower CTF_ADDRESS].

Definition displayed_volume_order (a b : Whale.row) : Prop :=
  Whale.total_volume_usd b <= Whale.total_volume_usd a.

Lemma round2_1000 : Py.round 1000 2 == 1000.
Proof. reflexivity. Qed.

Lemma whale_row_tag (wallet : string) (info : Whale.activity) :
  let row := whale_row wallet info in
  (Whale.is_whale row = true -> 1000 <= Whale.total_volume_usd row) /\
  (1000 < Whale.total_volume_usd row -> Whale.is_whale row = true) /\
  (Whale.net_direction row = "NET BUYER"%string
   <-> Whale.withdrawals info < Whale.deposits info) /\
  (Whale.net_direction row = "NET SELLER"%string
   <-> Whale.deposits info <= Whale.withdrawals info).
Proof.
  unfold whale_row. cbn [Whale.is_whale Whale.total_volume_usd Whale.net_direction].
  split; [|split; [|split]].
  - intros H. apply lt_spec in H. apply round_ge_grid; [exact round2_1000|lra].
  - intros H. apply lt_spec. apply Qnot_le_lt. intros Hle.
    apply (round_le_grid 1000 _ 2 round2_1000) in Hle. lra.
  - destruct (lt_cases (Whale.withdrawals info) (Whale.deposits info)) as [[H ->]|[H ->]];
      split; intros H'; try discriminate; try reflexivity; try assumption; lra.
  - destruct (lt_cases (Whale.withdrawals info) (Whale.deposits info)) as [[H ->]|[H ->]];
      split; intros H'; try discriminate; try reflexivity; try assumption; lra.
Qed.

Lemma whale_summary_shape (wallet_activity : list (string * Whale.activity)) :
  let r := whale_summary wallet_activity in
  (List.length (Whale.whale_wallets r) <= 20)%nat /\
  (List.length (Whale.whale_wallets r) <= Whale.wallets_analyzed r)%nat /\
  (Whale.wallets_analyzed r <= List.length wallet_activity)%nat /\
  Whale.whale_count r = List.length (List.filter Whale.is_whale (Whale.whale_wallets r)) /\
  (exists t, Whale.summary r = Some t /\
     Whale.summary_whale_count t = Whale.whale_count r /\
     (Whale.whale_count r + Whale.fish_count t)%nat
       = List.length (Whale.whale_wallets r)) /\
  Whale.error r = None /\
  (forall row, In row (Whale.whale_wallets r) ->
     excluded_wallet (Whale.address row) = false /\
     exists info, In (Whale.address row, info) wallet_activity /\
                  row = whale_row (Whale.address row) info) /\
  StronglySorted displayed_volume_order (Whale.whale_wallets r).
Proof.
  unfold whale_summary.
  set (keep := fun wv : string * Whale.activity =>
                 negb (in_words (Text.lower (fst wv))
                         [Text.lower EXCHANGE_PROXY; Text.lower CTF_ADDRESS])).
  set (before := fun x y : string * Whale.activity =>
                   Whale.total_volume (snd y) <? Whale.total_volume (snd x)).
  set (sorted_wallets := sorted_by before (List.filter keep wallet_activity)).
  cbn zeta.
  cbn [Whale.whale_wallets Whale.wallets_analyzed Whale.whale_count Whale.summary
       Whale.error].
  pose proof (sorted_by_perm before (List.filter keep wallet_activity)) as Hperm.
  fold sorted_wallets in Hperm.
  assert (Hlen : List.length sorted_wallets = List.length (List.filter keep wallet_activity))
    by (apply Permutation_length; exact Hperm).
  pose proof (filter_length_le keep wallet_activity) as Hfl.
  rewrite !Lists.List.length_map, !Lists.List.length_firstn.
  pose proof (filter_length_le Whale.is_whale
                (List.map (fun wv => whale_row (fst wv) (snd wv)) (firstn 20 sorted_wallets)))
    as Hwl.
  rewrite !Lists.List.length_map, !Lists.List.length_firstn in Hwl.
  split; [lia|]. split; [lia|]. split; [lia|]. split; [reflexivity|].
  split.
  { eexists. split; [reflexivity|].
    cbn [Whale.summary_whale_count Whale.fish_count].
    split; [reflexivity|]. lia. }
  split; [reflexivity|]. split.
  - intros row Hrow. apply in_map_iff in Hrow as ([wallet info] & <- & Hin).
    cbn [fst snd whale_row Whale.address].
    apply in_firstn in Hin.
    apply (Permutation_in _ Hperm) in Hin. apply filter_In in Hin as [Hin Hk].
    split.
    + unfold keep in Hk. cbn [fst] in Hk. apply negb_true_iff in Hk. exact Hk.
    + exists info. split; [exact Hin|reflexivity].
  - apply (StronglySorted_map
             (fun x y : string * Whale.activity =>
                Whale.total_volume (snd y) <= Whale.total_volume (snd x))).
    + intros x y H. unfold displayed_volume_order, whale_row.
      cbn [Whale.total_volume_usd]. now apply round_mono.
    + apply StronglySorted_firstn. apply (sorted_by_sorted before).
      * intros x y z H1 H2. lra.
      * intros x y H. apply lt_spec in H. lra.
      * intros x y H. now apply lt_false in H.
Qed.

Lemma whale_failure_shape (e : string) :
  let r := whale_failure e in
  Whale.whale_wallets r = [] /\ Whale.wallets_analyzed r = 0%nat /\
  Whale.whale_count r = 0%nat /\ Whale.summary r = None /\ Whale.error r = Some e.
Proof. repeat split. Qed.

(** The result of [fetch_whale_activity] is a failure or a summary. *)
Lemma fetch_whale_activity_cases (w : world) :
  (exists e, fetch_whale_activity w = whale_failure e) \/
  (exists data txs wallet_activity,
     scan_api_key w = true /\ transfer_scan w = Returned data /\
     scan_result data = Some txs /\ txs <> [] /\
     wallet_activity_of txs [] = inr wallet_activity /\
     fetch_whale_activity w = whale_summary wallet_activity).
Proof.
  unfold fetch_whale_activity.
  destruct (scan_api_key w); cbn [negb]; [|left; now eexists].
  destruct (transfer_scan w) as [data|e]; [|left; now eexists].
  destruct (scan_result data) as [[|tx txs]|] eqn:Er; try (left; now eexists).
  destruct (wallet_activity_of (tx :: txs) []) as [e|wa] eqn:Ew; [left; now eexists|].
  right. exists data, (tx :: txs), wa. repeat split; try assumption; discriminate.
Qed.

(** Property X18.  The result of [fetch_whale_activity] always has at most
    20 rows, never more than the wallets analysed; whale_count is the
    number of rows tagged as whales; when a summary is present there is no
    error, its whale count is whale_count, and whales plus fish are the
    rows; when an error is present there is no row, no wallet analysed and
    no summary; no row is the exchange proxy or the token contract (in any
    letter case); a row tagged as a whale displays a volume of at least
    1000, and a row that displays more than 1000 is tagged; and the rows
    are in descending order of displayed volume. *)
Theorem fetch_whale_activity_rows (w : world) :
  let r := fetch_whale_activity w in
  (List.length (Whale.whale_wallets r) <= 20)%nat /\
  (List.length (Whale.whale_wallets r) <= Whale.wallets_analyzed r)%nat /\
  Whale.whale_count r = List.length (List.filter Whale.is_whale (Whale.whale_wallets r)) /\
  (forall t, Whale.summary r = Some t ->
     Whale.error r = None /\
     Whale.summary_whale_count t = Whale.whale_count r /\
     (Whale.whale_count r + Whale.fish_count t)%nat
       = List.length (Whale.whale_wallets r)) /\
  (forall e, Whale.error r = Some e ->
     Whale.whale_wallets r = [] /\ Whale.wallets_analyzed r = 0%nat /\
     Whale.summary r = None) /\
  (forall row, In row (Whale.whale_wallets r) ->
     excluded_wallet (Whale.address row) = false /\
     (Whale.is_whale row = true -> 1000 <= Whale.total_volume_usd row) /\
     (1000 < Whale.total_volume_usd row -> Whale.is_whale row = true)) /\
  StronglySorted displayed_volume_order (Whale.whale_wallets r).
Proof.
  intros r. subst r.
  destruct (fetch_whale_activity_cases w) as [[e ->]|(data & txs & wa & _ & _ & _ & _ & _ & ->)].
  - cbn. repeat split; try lia; try discriminate; try tauto; try constructor.
    all: try (intros ? [= <-]; reflexivity).
  - destruct (whale_summary_shape wa) as (S1 & S2 & _ & S4 & (t & St & S5 & S6) & S7 & S8 & S9).
    cbn zeta in *.
    split; [exact S1|]. split; [exact S2|]. split; [exact S4|]. split; [|split; [|split]].
    + intros t' Ht'. rewrite St in Ht'. injection Ht' as <-. repeat split; assumption.
    + intros e He. rewrite S7 in He. discriminate.
    + intros row Hrow. destruct (S8 row Hrow) as [Hex (info & _ & Hr)].
      split; [exact Hex|]. rewrite Hr.
      destruct (whale_row_tag (Whale.address row) info) as (T1 & T2 & _). cbn zeta in *.
      split; assumption.
    + exact S9.
Qed.

(** The first loop: one activity record per wallet. *)

Definition tx_total (wallet_activity : list (string * Whale.activity)) : nat :=
  fold_right (fun wv n => (Whale.tx_count (snd wv) + n)%nat) 0%nat wallet_activity.

Definition balanced (wv : string * Whale.activity) : Prop :=
  Whale.total_volume (snd wv) == Whale.deposits (snd wv) + Whale.withdrawals (snd wv) /\
  (1 <= Whale.tx_count (snd wv))%nat.

Lemma record_transfer_keys (wallet : string) (deposit : bool) (v : Q)
    (wa : list (string * Whale.activity)) :
  List.map fst (record_transfer wallet deposit v wa)
  = if in_words wallet (List.map fst wa) then List.map fst wa
    else (List.map fst wa ++ [wallet])%list.
Proof.
  induction wa as [|[w0 a] wa IH]; cbn [record_transfer List.map fst in_words existsb].
  - reflexivity.
  - rewrite (String.eqb_sym wallet w0).
    destruct (String.eqb w0 wallet) eqn:E; cbn [orb List.map fst]; [reflexivity|].
    unfold in_words in IH. rewrite IH.
    destruct (existsb (String.eqb wallet) (List.map fst wa)); reflexivity.
Qed.

Lemma in_words_spec (w : string) (ws : list string) : in_words w ws = true <-> In w ws.
Proof.
  unfold in_words. rewrite existsb_exists. split.
  - intros (x & Hx & E). apply String.eqb_eq in E. now subst.
  - intros H. exists w. split; [exact H|apply String.eqb_refl].
Qed.

Lemma record_transfer_nodup (wallet : string) (deposit : bool) (v : Q)
    (wa : list (string * Whale.activity)) :
  List.NoDup (List.map fst wa) ->
  List.NoDup (List.map fst (record_transfer wallet deposit v wa)).
Proof.
  intros H. rewrite record_transfer_keys.
  destruct (in_words wallet (List.map fst wa)) eqn:E; [exact H|].
  apply (Permutation_NoDup (l := wallet :: List.map fst wa));
    [apply Permutation_cons_append|].
  constructor; [|exact H].
  intros Hin. apply in_words_spec in Hin. congruence.
Qed.

Lemma record_transfer_total (wallet : string) (deposit : bool) (v : Q)
    (wa : list (string * Whale.activity)) :
  tx_total (record_transfer wallet deposit v wa) = S (tx_total wa).
Proof.
  induction wa as [|[w0 a] wa IH]; cbn [record_transfer tx_total fold_right snd].
  - cbn. lia.
  - destruct (String.eqb w0 wallet); cbn [tx_total fold_right snd Whale.tx_count].
    + fold (tx_total wa). lia.
    + fold (tx_total (record_transfer wallet deposit v wa)). fold (tx_total wa). lia.
Qed.

Lemma record_transfer_balanced (wallet : string) (deposit : bool) (v : Q)
    (wa : list (string * Whale.activity)) :
  List.Forall balanced wa -> List.Forall balanced (record_transfer wallet deposit v wa).
Proof.
  induction wa as [|[w0 a] wa IH]; intros H; cbn [record_transfer].
  - constructor; [|constructor]. unfold balanced. cbn. split; [|lia].
    destruct deposit; ring.
  - apply List.Forall_cons_iff in H as [[Ha Hn] Hwa]. cbn [snd] in *.
    destruct (String.eqb w0 wallet).
    + constructor; [|exact Hwa]. unfold balanced. cbn. split; [|lia].
      destruct deposit; rewrite Ha; ring.
    + constructor; [split; assumption|now apply IH].
Qed.

Lemma tx_total_length (wa : list (string * Whale.activity)) :
  List.Forall balanced wa -> (List.length wa <= tx_total wa)%nat.
Proof.
  induction 1 as [|[w0 a] wa [_ H1] _ IH]; cbn [tx_total fold_right List.length snd] in *.
  - lia.
  - fold (tx_total wa). lia.
Qed.

Lemma wallet_activity_of_invariant (txs : list Transfer.t)
    (acc wa : list (string * Whale.activity)) :
  wallet_activity_of txs acc = inr wa ->
  (List.NoDup (List.map fst acc) -> List.NoDup (List.map fst wa)) /\
  tx_total wa = (tx_total acc + List.length txs)%nat /\
  (List.Forall balanced acc -> List.Forall balanced wa) /\
  List.Forall (fun tx => exists v dcm, Transfer.value tx = Returned v
                                   /\ Transfer.tokenDecimal tx = Returned dcm) txs.
Proof.
  revert acc. induction txs as [|tx txs IH]; intros acc; cbn [wallet_activity_of].
  - intros [= <-]. repeat split; try tauto; [cbn; lia|constructor].
  - destruct (Transfer.value tx) as [v|e] eqn:Ev; [|discriminate].
    destruct (Transfer.tokenDecimal tx) as [dcm|e] eqn:Ed; [|discriminate].
    intros H. destruct (IH _ H) as (I1 & I2 & I3 & I4).
    split; [|split; [|split]].
    + intros Hn. apply I1. now apply record_transfer_nodup.
    + rewrite I2, record_transfer_total. cbn [List.length]. lia.
    + intros Hb. apply I3. now apply record_transfer_balanced.
    + constructor; [now exists v, dcm|exact I4].
Qed.

(** Property X19.  The first loop of [fetch_whale_activity], when every
    transfer parses: each wallet has one activity record; the transaction
    counts of the records add up to the number of transfers; in each
    record the total volume is the deposits plus the withdrawals and the
    count is at least 1; so the wallets, and the wallets reported as
    analysed, are at most as many as the transfers. *)
Theorem wallet_activity_accounts_every_transfer (txs : list Transfer.t)
    (wallet_activity : list (string * Whale.activity)) :
  wallet_activity_of txs [] = inr wallet_activity ->
  List.NoDup (List.map fst wallet_activity) /\
  tx_total wallet_activity = List.length txs /\
  List.Forall balanced wallet_activity /\
  (List.length wallet_activity <= List.length txs)%nat /\
  (Whale.wallets_analyzed (whale_summary wallet_activity) <= List.length txs)%nat.
Proof.
  intros H. destruct (wallet_activity_of_invariant txs [] wallet_activity H)
    as (I1 & I2 & I3 & _).
  assert (Hb : List.Forall balanced wallet_activity) by (apply I3; constructor).
  pose proof (tx_total_length wallet_activity Hb) as Hl.
  cbn in I2.
  split; [apply I1; constructor|]. split; [exact I2|]. split; [exact Hb|].
  split; [lia|].
  destruct (whale_summary_shape wallet_activity) as (_ & _ & S3 & _). cbn zeta in S3. lia.
Qed.

(** A transfer whose numbers do not parse makes the first loop fail. *)
(** The three transfers of the example: two wallets. *)
Lemma wallet_activity_accounts_every_transfer_witness :
  exists wallet_activity,
    wallet_activity_of example_transfers [] = inr wallet_activity /\
    tx_total wallet_activity = 3%nat /\
    (List.length wallet_activity <= 3)%nat.
Proof.
  eexists. split; [reflexivity|].
  destruct (wallet_activity_accounts_every_transfer example_transfers _ eq_refl)
    as (_ & H1 & _ & H2 & _).
  split; [exact H1|exact H2].
Defined.

Lemma wallet_activity_of_malformed (txs : list Transfer.t) (tx : Transfer.t)
    (acc : list (string * Whale.activity)) :
  In tx txs ->
  (exists e, Transfer.value tx = Raised e) \/ (exists e, Transfer.tokenDecimal tx = Raised e) ->
  exists e, wallet_activity_of txs acc = inl e.
Proof.
  intros Hin Hbad. revert acc. induction txs as [|t txs IH]; intros acc; [destruct Hin|].
  cbn [wallet_activity_of].
  destruct (Transfer.value t) as [v|e] eqn:Ev; [|now exists e].
  destruct (Transfer.tokenDecimal t) as [dcm|e] eqn:Ed; [|now exists e].
  destruct Hin as [->|Hin]; [|now apply IH].
  destruct Hbad as [[e H]|[e H]]; congruence.
Qed.

(** Property X20.  One transfer of the reply whose value or decimals are
    no integer discards the whole scan: [fetch_whale_activity] returns the
    initial result with the error, without any row, even when every other
    transfer is well formed. *)
Theorem malformed_transfer_discards_scan (w : world) (data : scan_reply)
    (txs : list Transfer.t) (tx : Transfer.t) :
  scan_api_key w = true -> transfer_scan w = Returned data ->
  scan_result data = Some txs -> In tx txs ->
  (exists e, Transfer.value tx = Raised e) \/ (exists e, Transfer.tokenDecimal tx = Raised e) ->
  exists e, fetch_whale_activity w = whale_failure e /\
            Whale.error (fetch_whale_activity w) = Some e /\
            Whale.whale_wallets (fetch_whale_activity w) = [].
Proof.
  intros Hk Hr Hs Hin Hbad. unfold fetch_whale_activity. rewrite Hk, Hr, Hs. cbn [negb].
  destruct txs as [|t txs']; [destruct Hin|].
  destruct (wallet_activity_of_malformed (t :: txs') tx [] Hin Hbad) as [e He].
  rewrite He. exists e. repeat split.
Qed.

(** A reply with one transfer that is no number among the three of the
    example. *)
Lemma malformed_transfer_discards_scan_witness :
  exists e,
    Whale.error
      (fetch_whale_activity
         (scan_world (Returned (mkScanReply (Some (example_transfers ++ [malformed_transfer]))
                                            None))))
    = Some e.
Proof.
  destruct (malformed_transfer_discards_scan
              (scan_world (Returned (mkScanReply (Some (example_transfers ++ [malformed_transfer]))
                                                 None)))
              (mkScanReply (Some (example_transfers ++ [malformed_transfer])) None)
              (example_transfers ++ [malformed_transfer]) malformed_transfer)
    as (e & _ & He & _).
  - reflexivity.
  - reflexivity.
  - reflexivity.
  - do 3 right. left. reflexivity.
  - left. now eexists.
  - exists e. exact He.
Defined.

(** *** Kalshi *)

(** Property X21.  [fetch_kalshi_markets]: matching_markets_found is true
    exactly when matching_markets is not empty; every matching market is an
    event of the reply whose title or ticker contains, in lower case, the
    lower case of one of the keywords; an empty keyword list matches
    nothing; without an error the conclusion is the count sentence when
    something matched and the "No matching markets" sentence otherwise;
    and an error is present exactly when the request raised, with its
    message. *)
Theorem fetch_kalshi_markets_matches (w : world) (search_keywords : list string) :
  let r := fetch_kalshi_markets w search_keywords in
  (Kalshi.matching_markets_found r = true <-> Kalshi.matching_markets r <> []) /\
  (forall e, In e (Kalshi.matching_markets r) ->
     exists events kw,
       kalshi_events w = Returned (Some events) /\ In e events /\
       In kw search_keywords /\
       (Text.contains (Text.lower kw) (Text.lower (Kalshi.title e)) = true \/
        Text.contains (Text.lower kw) (Text.lower (Kalshi.event_ticker e)) = true)) /\
  (search_keywords = [] -> Kalshi.matching_markets r = []) /\
  (Kalshi.error r = None ->
     Kalshi.conclusion r
     = if Kalshi.matching_markets_found r
       then ("Found " ++ pretty (List.length (Kalshi.matching_markets r))
             ++ " related markets on Kalshi.")%string
       else "No matching markets found on Kalshi. Polymarket is the only venue."%string) /\
  (forall msg, Kalshi.error r = Some msg <-> kalshi_events w = Raised msg).
Proof.
  intros r. subst r. unfold fetch_kalshi_markets.
  destruct (kalshi_events w) as [reply|msg].
  - cbn zeta.
    cbn [Kalshi.matching_markets_found Kalshi.matching_markets Kalshi.conclusion Kalshi.error].
    set (events := match reply with Some es => es | None => [] end).
    set (matching := List.filter (kalshi_matches (List.map Text.lower search_keywords)) events).
    split; [|split; [|split; [|split]]].
    + destruct matching; cbn; split; congruence.
    + intros e He. apply filter_In in He as [Hin Hm].
      destruct reply as [es|]; [|destruct Hin].
      unfold kalshi_matches in Hm.
      destruct (List.map Text.lower search_keywords) as [|k ks] eqn:Ek; [discriminate|].
      rewrite <- Ek in Hm. apply existsb_exists in Hm as (kwl & Hkw & Hc).
      apply in_map_iff in Hkw as (kw & <- & Hkw).
      exists es, kw. split; [reflexivity|]. split; [exact Hin|]. split; [exact Hkw|].
      now apply orb_prop in Hc.
    + intros ->. cbn [List.map] in matching. subst matching.
      induction events as [|e es IH]; [reflexivity|exact IH].
    + intros _. unfold kalshi_conclusion. destruct matching; reflexivity.
    + intros m. split; [discriminate|discriminate].
  - cbn. split; [split; [discriminate|congruence]|].
    split; [intros e []|]. split; [reflexivity|]. split; [discriminate|].
    intros m. split; congruence.
Qed.

(** *** Order books *)

Definition book_of (w : world) (m : Market.t) (yes_id no_id : string) : Book.t :=
  {| Book.question := Market.question m;
     Book.strike := Market.strike m;
     Book.yes := book_entry w yes_id;
     Book.no := book_entry w no_id |}.

Definition add_book (w : world) (all_books : gmap string Book.t) (m : Market.t)
  : gmap string Book.t :=
  match Market.clobTokenIds m with
  | Some (yes_id :: no_id :: _) => <[ market_key m := book_of w m yes_id no_id ]> all_books
  | _ => all_books
  end.

Lemma fetch_orderbook_depth_fold (w : world) (markets : list Market.t) :
  fetch_orderbook_depth w markets = fold_left (add_book w) markets ∅.
Proof. reflexivity. Qed.

Lemma fold_add_book_lookup (w : world) (markets : list Market.t)
    (acc : gmap string Book.t) (key : string) (b : Book.t) :
  fold_left (add_book w) markets acc !! key = Some b ->
  acc !! key = Some b \/
  exists m yes_id no_id rest,
    In m markets /\ market_key m = key /\
    Market.clobTokenIds m = Some (yes_id :: no_id :: rest) /\
    b = book_of w m yes_id no_id.
Proof.
  revert acc. induction markets as [|m ms IH]; intros acc; cbn [fold_left]; [now left|].
  intros H. destruct (IH _ H) as [Hacc|(m' & y & n & rest & Hin & Hk & Hc & Hb)].
  - unfold add_book in Hacc.
    destruct (Market.clobTokenIds m) as [[|y [|n rest]]|] eqn:Ec; try (now left).
    destruct (decide (market_key m = key)) as [<-|Hne].
    + rewrite lookup_insert_eq in Hacc. injection Hacc as <-.
      right. exists m, y, n, rest. repeat split; [now left|exact Ec].
    + rewrite lookup_insert_ne in Hacc by exact Hne. now left.
  - right. exists m', y, n, rest. repeat split; try assumption. now right.
Qed.

(** Property X22.  [fetch_orderbook_depth]: every book of the result, under
    a key, is the book of a market of the list with that key and at least
    two token ids, with the market's question and strike and the entries of
    its first two tokens; the last market of the list, when it has two
    token ids, is the one found under its key (a later market replaces an
    earlier one with the same key); a last market with fewer than two
    token ids, or ids that do not parse, adds nothing; and there are at
    most as many books as markets. *)
Theorem fetch_orderbook_depth_books (w : world) (markets : list Market.t) :
  (forall key b, fetch_orderbook_depth w markets !! key = Some b ->
     exists m yes_id no_id rest,
       In m markets /\ market_key m = key /\
       Market.clobTokenIds m = Some (yes_id :: no_id :: rest) /\
       b = book_of w m yes_id no_id) /\
  (forall before m yes_id no_id rest,
     markets = (before ++ [m])%list ->
     Market.clobTokenIds m = Some (yes_id :: no_id :: rest) ->
     fetch_orderbook_depth w markets !! market_key m = Some (book_of w m yes_id no_id)) /\
  (forall before m,
     markets = (before ++ [m])%list ->
     (Market.clobTokenIds m = None \/ Market.clobTokenIds m = Some []
      \/ exists t, Market.clobTokenIds m = Some [t]) ->
     fetch_orderbook_depth w markets = fetch_orderbook_depth w before) /\
  (size (fetch_orderbook_depth w markets) <= List.length markets)%nat.
Proof.
  rewrite fetch_orderbook_depth_fold. split; [|split; [|split]].
  - intros key b H. destruct (fold_add_book_lookup w markets ∅ key b H) as [H0|H1].
    + rewrite lookup_empty in H0. discriminate.
    + exact H1.
  - intros before m y n rest -> Hc. rewrite fold_left_app. cbn [fold_left].
    unfold add_book at 1. rewrite Hc. apply lookup_insert_eq.
  - intros before m -> Hc. rewrite fetch_orderbook_depth_fold, fold_left_app.
    cbn [fold_left]. unfold add_book at 1.
    destruct Hc as [->|[->|[t ->]]]; reflexivity.
  - assert (H : forall acc, (size (fold_left (add_book w) markets acc)
                             <= size acc + List.length markets)%nat).
    { induction markets as [|m ms IH]; intros acc; cbn [fold_left List.length]; [lia|].
      specialize (IH (add_book w acc m)).
      assert (Hs : (size (add_book w acc m) <= S (size acc))%nat).
      { unfold add_book. destruct (Market.clobTokenIds m) as [[|y [|n rest]]|]; try lia.
        destruct (acc !! market_key m) eqn:El.
        - rewrite map_size_insert_Some by eauto. lia.
        - rewrite map_size_insert_None by exact El. lia. }
      lia. }
    specialize (H ∅). rewrite map_size_empty in H. lia.
Qed.

(** ** The cache *)

Lemma Qfloor_unique (z : Z) (x : Q) :
  inject_Z z <= x -> x < inject_Z z + 1 -> Qfloor x = z.
Proof.
  intros H1 H2. destruct (floor_bounds x) as [F1 F2].
  assert (A : (Qfloor x < z + 1)%Z).
  { rewrite Zlt_Qlt, inject_Z_plus. change (inject_Z 1) with 1. lra. }
  assert (B : (z < Qfloor x + 1)%Z).
  { rewrite Zlt_Qlt, inject_Z_plus. change (inject_Z 1) with 1. lra. }
  lia.
Qed.

Lemma timedelta_seconds_range (delta : Q) : (0 <= timedelta_seconds delta < 86400)%Z.
Proof. unfold timedelta_seconds. apply Z.mod_pos_bound. lia. Qed.

(** The seconds field forgets whole days. *)
Lemma timedelta_seconds_days (days : Z) (r : Q) :
  0 <= r -> r < 86400 ->
  timedelta_seconds (inject_Z (86400 * days) + r) = Qfloor r.
Proof.
  intros H0 H1. unfold timedelta_seconds.
  destruct (floor_bounds r) as [F1 F2].
  assert (Hf : Qfloor (inject_Z (86400 * days) + r) = (86400 * days + Qfloor r)%Z).
  { apply Qfloor_unique; rewrite inject_Z_plus; lra. }
  rewrite Hf.
  assert (R0 : (0 <= Qfloor r)%Z).
  { assert (A : (-1 < Qfloor r)%Z); [|lia].
    rewrite Zlt_Qlt. change (inject_Z (-1)) with (-1). lra. }
  assert (R1 : (Qfloor r < 86400)%Z).
  { rewrite Zlt_Qlt. change (inject_Z 86400) with 86400. lra. }
  rewrite Z.add_comm, Z.mul_comm, Z.mod_add by lia. apply Z.mod_small. lia.
Qed.

#[global] Instance timedelta_seconds_proper : Proper (Qeq ==> eq) timedelta_seconds.
Proof. intros x y H. unfold timedelta_seconds. now rewrite (Qfloor_comp _ _ H). Qed.

(** Reading the key that was just stored. *)
Lemma get_cached_set {V} (c : Cache.t V) (key : string) (value : V) (ttl : Z)
    (stored now : Q) :
  get_cached (set_cached c key value stored) key ttl now
  = if (timedelta_seconds (now - stored) <? ttl)%Z then Some value else None.
Proof.
  unfold get_cached, set_cached. cbn [Cache._cache Cache._cache_ttl].
  now rewrite !lookup_insert_eq.
Qed.

(** Property X23.  The cache: a value stored under a key is read back
    exactly when the seconds field of the time elapsed since it was stored
    is below the ttl, and otherwise the read gives nothing; in particular
    it is read back at any time from the moment it is stored to less than
    ttl seconds later (for a ttl of at most a day); storing under a key
    does not change what is read under another key; and nothing is read
    from an empty cache. *)
Theorem cache_round_trip {V} (c : Cache.t V) (key other : string) (value : V)
    (ttl : Z) (stored now : Q) :
  let c' := set_cached c key value stored in
  (get_cached c' key ttl now = Some value
   <-> (timedelta_seconds (now - stored) < ttl)%Z) /\
  (get_cached c' key ttl now = None
   <-> (ttl <= timedelta_seconds (now - stored))%Z) /\
  (0 <= now - stored -> now - stored < inject_Z ttl -> (ttl <= 86400)%Z ->
   get_cached c' key ttl now = Some value) /\
  (other <> key -> get_cached c' other ttl now = get_cached c other ttl now) /\
  get_cached (Cache.empty : Cache.t V) key ttl now = None.
Proof.
  cbn zeta. rewrite get_cached_set.
  split; [|split; [|split; [|split]]].
  - destruct (Z.ltb_spec (timedelta_seconds (now - stored)) ttl); split;
      intros; try reflexivity; try discriminate; try assumption; lia.
  - destruct (Z.ltb_spec (timedelta_seconds (now - stored)) ttl); split;
      intros; try reflexivity; try discriminate; try assumption; lia.
  - intros H0 H1 Ht.
    assert (E : now - stored == inject_Z (86400 * 0) + (now - stored))
      by (change (inject_Z (86400 * 0)) with 0; ring).
    assert (H86400 : now - stored < 86400).
    { assert (inject_Z ttl <= 86400); [|lra].
      change 86400 with (inject_Z 86400). now rewrite <- Zle_Qle. }
    rewrite E at 1. rewrite (timedelta_seconds_days 0 _ H0 H86400).
    destruct (floor_bounds (now - stored)) as [F1 _].
    assert (L : (Qfloor (now - stored) < ttl)%Z) by (rewrite Zlt_Qlt; lra).
    apply Z.ltb_lt in L. now rewrite L.
  - intros Hne. unfold get_cached, set_cached. cbn [Cache._cache Cache._cache_ttl].
    now rewrite !lookup_insert_ne by congruence.
  - reflexivity.
Qed.

(** Property X24.  The expiry test of the cache reads the seconds field
    of the elapsed time, which forgets whole days: a value stored under a
    key is read back again a whole number of days (of either sign) plus
    less than ttl seconds (and less than a day) after it was stored,
    however old it is; and with a ttl of a day (86400) or more it is read
    back at every time: such an entry never expires. *)
Theorem cache_expiry_forgets_whole_days {V} (c : Cache.t V) (key : string)
    (value : V) (ttl : Z) (stored : Q) :
  (forall (days : Z) (r : Q),
     0 <= r -> r < inject_Z ttl -> r < 86400 ->
     get_cached (set_cached c key value stored) key ttl
                (stored + inject_Z (86400 * days) + r) = Some value) /\
  ((86400 <= ttl)%Z ->
   forall now, get_cached (set_cached c key value stored) key ttl now = Some value).
Proof.
  split.
  - intros days r H0 H1 H2. rewrite get_cached_set.
    assert (E : stored + inject_Z (86400 * days) + r - stored
                == inject_Z (86400 * days) + r) by ring.
    rewrite E, (timedelta_seconds_days days r H0 H2).
    destruct (floor_bounds r) as [F1 _].
    assert (L : (Qfloor r < ttl)%Z) by (rewrite Zlt_Qlt; lra).
    apply Z.ltb_lt in L. now rewrite L.
  - intros Ht now. rewrite get_cached_set.
    pose proof (timedelta_seconds_range (now - stored)) as R.
    destruct (Z.ltb_spec (timedelta_seconds (now - stored)) ttl); [reflexivity|lia].
Qed.

(** ** Trending events *)

(** Property X25.  [fetch_trending_events] and its cache.  When the cache
    holds no fresh entry and the request returns events, these are
    returned and stored: if they are not empty, a second call while the
    entry is fresh returns them without regard to what the service would
    reply and leaves the cache as it is; if they are empty, the entry is
    never served and the second call makes its own request.  When the
    request fails (a status other than 200, or an exception) no event is
    returned and the cache is left as it was.  A fresh, non-empty entry is
    returned as it is. *)
Theorem fetch_trending_events_caches_replies
    (reply reply2 : outcome (option (list TrendingEvent.t)))
    (now later now2 later2 : Q) (c : Cache.t (list TrendingEvent.t)) :
  let first := fetch_trending_events reply now later c in
  (get_cached c "trending_events" 60 now = None ->
   forall events, reply = Returned (Some events) ->
     snd first = events /\
     (events <> [] -> (timedelta_seconds (now2 - later) < 60)%Z ->
        fetch_trending_events reply2 now2 later2 (fst first) = (fst first, events)) /\
     (events = [] ->
        fetch_trending_events reply2 now2 later2 (fst first)
        = match reply2 with
          | Returned (Some events2) =>
              (set_cached (fst first) "trending_events" events2 later2, events2)
          | _ => (fst first, [])
          end)) /\
  (get_cached c "trending_events" 60 now = None ->
   (reply = Returned None \/ exists e, reply = Raised e) -> first = (c, [])) /\
  (forall e es, get_cached c "trending_events" 60 now = Some (e :: es) ->
     first = (c, e :: es)).
Proof.
  intros first. subst first. unfold fetch_trending_events.
  split; [|split].
  - intros Hc events ->. rewrite Hc. cbn [fst snd]. split; [reflexivity|]. split.
    + intros Hne Hfresh. rewrite get_cached_set.
      apply Z.ltb_lt in Hfresh. rewrite Hfresh.
      destruct events as [|e es]; [contradiction|reflexivity].
    + intros ->. rewrite get_cached_set.
      destruct (timedelta_seconds (now2 - later) <? 60)%Z;
        destruct reply2 as [[ev|]|]; reflexivity.
  - intros Hc H. rewrite Hc. destruct H as [->|[e ->]]; reflexivity.
  - intros e es Hc. now rewrite Hc.
Qed.

(** ** The selection of trending markets *)

(** The rows of all the markets of the events, before the filters. *)
Definition all_rows (events : list TrendingEvent.t) : list TrendingRow.t :=
  flat_map (fun event =>
              flat_map (fun market => match trending_row event market with
                                      | Some row => [row]
                                      | None => []
                                      end)
                       (TrendingEvent.markets event))
           events.

Lemma all_rows_spec (events : list TrendingEvent.t) (row : TrendingRow.t) :
  In row (all_rows events) <->
  exists event market, In event events /\ In market (TrendingEvent.markets event) /\
                       trending_row event market = Some row.
Proof.
  unfold all_rows. rewrite in_flat_map. split.
  - intros (event & He & Hin). apply in_flat_map in Hin as (market & Hm & Hr).
    exists event, market. split; [exact He|]. split; [exact Hm|].
    destruct (trending_row event market) as [r|]; [|destruct Hr].
    destruct Hr as [->|[]]. reflexivity.
  - intros (event & market & He & Hm & Hr). exists event. split; [exact He|].
    apply in_flat_map. exists market. split; [exact Hm|]. rewrite Hr. now left.
Qed.

Lemma slice_to_sub {A} (n : Z) (l : list A) (x : A) : In x (slice_to n l) -> In x l.
Proof. unfold slice_to. destruct (n <? 0)%Z; apply in_firstn. Qed.

Lemma slice_to_length {A} (n : Z) (l : list A) :
  (0 <= n)%Z -> (Z.of_nat (List.length (slice_to n l)) <= n)%Z.
Proof.
  intros H. unfold slice_to. destruct (Z.ltb_spec n 0); [lia|].
  rewrite Lists.List.length_firstn. lia.
Qed.

Lemma slice_to_sorted {A} (R : A -> A -> Prop) (n : Z) (l : list A) :
  StronglySorted R l -> StronglySorted R (slice_to n l).
Proof. unfold slice_to. destruct (n <? 0)%Z; apply StronglySorted_firstn. Qed.

Lemma sort_descending_sorted {A} (key : A -> Q) (l : list A) :
  StronglySorted (fun a b => key b <= key a) (sort_descending key l).
Proof.
  apply (sorted_by_sorted (fun x y => key y <? key x)).
  - intros x y z H1 H2. lra.
  - intros x y H. apply lt_spec in H. lra.
  - intros x y H. now apply lt_false in H.
Qed.

Lemma sort_descending_in {A} (key : A -> Q) (l : list A) (x : A) :
  In x (sort_descending key l) <-> In x l.
Proof.
  split; apply Permutation_in; [|symmetry]; apply sorted_by_perm.
Qed.

Lemma trending_selection_rows (events : list TrendingEvent.t) (params : Params.t)
    (row : TrendingRow.t) :
  In row (trending_selection events params) ->
  (exists event market,
     In event events /\ In market (TrendingEvent.markets event) /\
     trending_row event market = Some row /\
     TrendingRow.polysnap_score row = compute_polysnap_score (TrendingMarket.listing market) /\
     trending_verdict (TrendingMarket.listing market) = Some (TrendingRow.verdict row)) /\
  (forall min_vol, Params.min_volume params = Some min_vol -> 0 < min_vol ->
     min_vol <= TrendingRow.volume row) /\
  (forall min_score, Params.min_score params = Some min_score -> 0 < min_score ->
     min_score <= TrendingRow.polysnap_score row) /\
  0 <= TrendingRow.polysnap_score row.
Proof.
  unfold trending_selection. fold (all_rows events). cbn zeta.
  set (min_vol := default 0 (Params.min_volume params)).
  set (min_score := default 0 (Params.min_score params)).
  set (m1 := if 0 <? min_vol then _ else all_rows events).
  set (m2 := if 0 <? min_score then _ else m1).
  set (m3 := if String.eqb _ "score" then _ else _).
  intros Hin. apply slice_to_sub in Hin.
  assert (H3 : In row m2).
  { subst m3. repeat match goal with
    | H : In _ (if ?b then _ else _) |- _ => destruct b
    end; try (apply sort_descending_in in Hin); exact Hin. }
  assert (H2 : In row m1 /\ (0 < min_score -> min_score <= TrendingRow.polysnap_score row)).
  { subst m2. destruct (lt_cases 0 min_score) as [[H ->]|[H ->]] in H3.
    - apply filter_In in H3 as [H3 Hs]. apply le_spec in Hs. split; [exact H3|]. now intros _.
    - split; [exact H3|]. intros; lra. }
  destruct H2 as [H2 Hscore].
  assert (H1 : In row (all_rows events) /\ (0 < min_vol -> min_vol <= TrendingRow.volume row)).
  { subst m1. destruct (lt_cases 0 min_vol) as [[H ->]|[H ->]] in H2.
    - apply filter_In in H2 as [H2 Hs]. apply le_spec in Hs. split; [exact H2|]. now intros _.
    - split; [exact H2|]. intros; lra. }
  destruct H1 as [H1 Hvol].
  apply all_rows_spec in H1 as (event & market & He & Hm & Hr).
  assert (Hrow : TrendingRow.polysnap_score row = compute_polysnap_score (TrendingMarket.listing market)
                 /\ trending_verdict (TrendingMarket.listing market) = Some (TrendingRow.verdict row)).
  { unfold trending_row in Hr.
    destruct (Listing.outcomePrices (TrendingMarket.listing market)); [|discriminate].
    destruct (trending_verdict (TrendingMarket.listing market)); [|discriminate].
    injection Hr as <-. split; reflexivity. }
  split; [exists event, market; repeat split; try assumption; apply Hrow|].
  split; [|split].
  - intros v Hv Hpos. subst min_vol. rewrite Hv in Hvol. now apply Hvol.
  - intros v Hv Hpos. subst min_score. rewrite Hv in Hscore. now apply Hscore.
  - destruct Hrow as [-> _]. apply compute_polysnap_score_nonneg.
Qed.

(** The rows selected from a list of events. *)
Lemma trending_selection_shape (events : list TrendingEvent.t)
    (params : Params.t) :
  let rows := trending_selection events params in
  (forall row, In row rows ->
     (exists event market,
        In event events /\ In market (TrendingEvent.markets event) /\
        trending_row event market = Some row /\
        TrendingRow.polysnap_score row = compute_polysnap_score (TrendingMarket.listing market) /\
        trending_verdict (TrendingMarket.listing market) = Some (TrendingRow.verdict row)) /\
     (forall min_vol, Params.min_volume params = Some min_vol -> 0 < min_vol ->
        min_vol <= TrendingRow.volume row) /\
     (forall min_score, Params.min_score params = Some min_score -> 0 < min_score ->
        min_score <= TrendingRow.polysnap_score row) /\
     0 <= TrendingRow.polysnap_score row) /\
  (forall limit, Params.limit params = Some limit -> (0 <= limit)%Z ->
     (Z.of_nat (List.length rows) <= limit)%Z) /\
  (Params.limit params = None -> (List.length rows <= 50)%nat) /\
  (Params.sort_by params = None \/ Params.sort_by params = Some "score"%string ->
     StronglySorted (fun a b => TrendingRow.polysnap_score b <= TrendingRow.polysnap_score a) rows) /\
  (Params.sort_by params = Some "volume"%string ->
     StronglySorted (fun a b => TrendingRow.volume b <= TrendingRow.volume a) rows) /\
  (Params.sort_by params = Some "liquidity"%string ->
     StronglySorted (fun a b => TrendingRow.liquidity b <= TrendingRow.liquidity a) rows).
Proof.
  intros rows. subst rows.
  split; [intros row; apply trending_selection_rows|].
  unfold trending_selection. fold (all_rows events). cbn zeta.
  set (m2 := if 0 <? default 0 (Params.min_score params) then _ else _).
  split; [|split; [|split; [|split]]].
  - intros limit -> H. cbn [default]. now apply slice_to_length.
  - intros ->. cbn [default].
    match goal with |- (List.length (slice_to 50 ?l) <= 50)%nat =>
      pose proof (slice_to_length 50 l ltac:(lia)) end.
    lia.
  - intros [->| ->]; cbn [default]; apply slice_to_sorted, sort_descending_sorted.
  - intros ->. cbn [default]. apply slice_to_sorted, sort_descending_sorted.
  - intros ->. cbn [default]. apply slice_to_sorted, sort_descending_sorted.
Qed.

(** Property X26.  The rows [get_trending_markets] returns, from the events
    [fetch_trending_events] gives it: every row is the row of a market of an event, with the score
    and the verdict of that market's listing, a score that is not
    negative, a volume of at least min_volume and a score of at least
    min_score when these are positive; the rows are at most limit (50
    when no limit is given) for a limit that is not negative; and they are
    in descending order of score (the default), of volume or of liquidity,
    as sort_by says. *)
Theorem get_trending_markets_filters_sorts_limits
    (reply : outcome (option (list TrendingEvent.t))) (now later : Q)
    (c : Cache.t (list TrendingEvent.t)) (params : Params.t) :
  let fetched := fetch_trending_events reply now later c in
  let events := snd fetched in
  let rows := snd (get_trending_markets reply now later c params) in
  fst (get_trending_markets reply now later c params) = fst fetched /\
  (forall row, In row rows ->
     (exists event market,
        In event events /\ In market (TrendingEvent.markets event) /\
        trending_row event market = Some row /\
        TrendingRow.polysnap_score row = compute_polysnap_score (TrendingMarket.listing market) /\
        trending_verdict (TrendingMarket.listing market) = Some (TrendingRow.verdict row)) /\
     (forall min_vol, Params.min_volume params = Some min_vol -> 0 < min_vol ->
        min_vol <= TrendingRow.volume row) /\
     (forall min_score, Params.min_score params = Some min_score -> 0 < min_score ->
        min_score <= TrendingRow.polysnap_score row) /\
     0 <= TrendingRow.polysnap_score row) /\
  (forall limit, Params.limit params = Some limit -> (0 <= limit)%Z ->
     (Z.of_nat (List.length rows) <= limit)%Z) /\
  (Params.limit params = None -> (List.length rows <= 50)%nat) /\
  (Params.sort_by params = None \/ Params.sort_by params = Some "score"%string ->
     StronglySorted (fun a b => TrendingRow.polysnap_score b <= TrendingRow.polysnap_score a) rows) /\
  (Params.sort_by params = Some "volume"%string ->
     StronglySorted (fun a b => TrendingRow.volume b <= TrendingRow.volume a) rows) /\
  (Params.sort_by params = Some "liquidity"%string ->
     StronglySorted (fun a b => TrendingRow.liquidity b <= TrendingRow.liquidity a) rows).
Proof.
  cbn zeta. unfold get_trending_markets.
  destruct (fetch_trending_events reply now later c) as [c' events]. cbn [fst snd].
  split; [reflexivity|]. apply trending_selection_shape.
Qed.

(** ** The quick analysis *)

Lemma quick_market_kelly (m : Market.t) :
  Quick.kelly_yes (quick_market m) == 0 /\ Quick.kelly_no (quick_market m) == 0 /\
  Quick.true_prob (quick_market m) == Market.yes_price m * 100.
Proof.
  unfold quick_market. cbn [Quick.kelly_yes Quick.kelly_no Quick.true_prob].
  set (y := Market.yes_price m). clearbody y.
  split; [|split; [|reflexivity]].
  - destruct (y <? 1); [|reflexivity].
    assert (E : (y - y) / (1 - y) == 0) by (unfold Qdiv; ring).
    rewrite E. reflexivity.
  - destruct (0 <? y); [|reflexivity].
    assert (E : (1 - y - (1 - y)) / y == 0) by (unfold Qdiv; ring).
    rewrite E. reflexivity.
Qed.

(** Property X27.  [fetch_event_analysis] returns nothing exactly when the
    event fetch returns nothing; otherwise it has one entry per market of
    the event, and, since it takes the market price as the true
    probability, both Kelly fractions of every entry are 0 and its
    true_prob is the price as a percentage. *)
Theorem fetch_event_analysis_has_no_kelly_signal (w : world) (slug : string) :
  (fetch_event_analysis w slug = None <-> fetch_polymarket_event w slug = None) /\
  (forall r, fetch_event_analysis w slug = Some r ->
     exists event, fetch_polymarket_event w slug = Some event /\
       Quick.total_markets r = List.length (Event.markets event) /\
       List.length (Quick.markets r) = List.length (Event.markets event) /\
       forall m, In m (Quick.markets r) ->
         Quick.kelly_yes m == 0 /\ Quick.kelly_no m == 0 /\
         Quick.true_prob m == Quick.yes_price m * 100).
Proof.
  unfold fetch_event_analysis.
  destruct (fetch_polymarket_event w slug) as [event|].
  - split; [split; discriminate|].
    intros r [= <-]. exists event. split; [reflexivity|].
    cbn [Quick.total_markets Quick.markets]. rewrite Lists.List.length_map.
    split; [reflexivity|]. split; [reflexivity|].
    intros m Hm. apply in_map_iff in Hm as (mk & <- & _). apply quick_market_kelly.
  - split; [split; reflexivity|discriminate].
Qed.
